(** * got: the request lifecycle of [index.js]

    A shallow embedding of [index.js]: the option normaliser
    ([normalizeArguments]), the request engine ([requestAsEventEmitter] and
    its inner [get]), the buffered adapter ([asPromise]), the streaming
    adapter ([asStream]), the entry points ([got], [got.stream]) and the
    verb helpers ([got.get] ... [got.stream.delete]).

    The engine is written in a small state-and-exception monad over a
    [World] that holds the closure variables of [requestAsEventEmitter], the
    event emitter, and the part of the host event loop the code uses
    ([setImmediate], [setTimeout], the requests handed to the transport).
    The host then drives the world through a labelled step function: it runs
    a pending immediate, fires a timer, or reports the outcome of a request
    that is in flight. *)

From Stdlib Require Import ZArith QArith List String Ascii Bool Lia Lqa.
From Stdlib Require Import DecimalString.
Import ListNotations.

Local Open Scope Z_scope.
Local Open Scope string_scope.

(* ===================================================================== *)
(** ** JavaScript values used by the source *)
(* ===================================================================== *)

Module Js.

(** A string-valued property that Node reports as [null] or that is absent
    is the empty string here: the source only tests such properties for
    truthiness or compares them with non-empty literals, and both tests
    treat [null], [undefined] and [''] alike. *)
Definition truthy_str (s : string) : bool := negb (s =? "").

(** [a || b] on strings. *)
Definition or_str (a b : string) : string := if truthy_str a then a else b.

(** [a || b] where [a] may be [undefined]. *)
Definition or_opt (a : option string) (b : string) : string :=
  match a with
  | Some s => or_str s b
  | None => b
  end.

(** Truthiness of a number: every number but 0 (the model has no NaN). *)
Definition truthy_num (q : Q) : bool := negb (Qeq_bool q 0).

(** [ToInt32]: reduction modulo 2^32 into the signed range. *)
Definition to_int32 (z : Z) : Z := (z + 2 ^ 31) mod 2 ^ 32 - 2 ^ 31.

(** [a << b]: both operands go through [ToInt32]/[ToUint32], the shift
    count is taken modulo 32, and the result is again a signed 32-bit
    integer. *)
Definition shl (a b : Z) : Z :=
  to_int32 (Z.shiftl (to_int32 a) (Z.land b 31)).

(** [String.prototype.toUpperCase] on the ASCII letters. *)
Definition upper_ascii (c : ascii) : ascii :=
  let n := nat_of_ascii c in
  if (97 <=? n)%nat && (n <=? 122)%nat then ascii_of_nat (n - 32) else c.

Fixpoint toUpperCase (s : string) : string :=
  match s with
  | EmptyString => EmptyString
  | String c r => String (upper_ascii c) (toUpperCase r)
  end.

(** [s.split('?')[0]] *)
Fixpoint before_question (s : string) : string :=
  match s with
  | EmptyString => EmptyString
  | String c r => if Ascii.eqb c "?"%char then EmptyString
                  else String c (before_question r)
  end.

(** Decimal rendering of an integer, as a template literal prints it. *)
Definition show (z : Z) : string := NilZero.string_of_int (Z.to_int z).

(** The double quote character, for the messages that contain one. *)
Definition dquote : string := String (ascii_of_nat 34) EmptyString.

(** The result of evaluating a piece of JavaScript: a value, or a thrown
    exception. *)
Inductive Completion (E A : Type) : Type :=
| Normal (a : A)
| Throw (e : E).
Arguments Normal {E A} a.
Arguments Throw {E A} e.

Definition is_throw {E A} (c : Completion E A) : bool :=
  match c with Throw _ => true | Normal _ => false end.

(** [try { body } catch (err) { handler(err) }] *)
Definition try_catch {E A} (body : Completion E A)
           (handler : E -> Completion E A) : Completion E A :=
  match body with
  | Normal a => Normal a
  | Throw e => handler e
  end.

End Js.

Import Js.

(* ===================================================================== *)
(** ** Data model *)
(* ===================================================================== *)

Definition Headers := list (string * string).

Fixpoint header_get (k : string) (h : Headers) : option string :=
  match h with
  | [] => None
  | (k', v) :: r => if k' =? k then Some v else header_get k r
  end.

(** ['k' in headers] *)
Definition header_in (k : string) (h : Headers) : bool :=
  match header_get k h with Some _ => true | None => false end.

(** [headers[k] = v] *)
Fixpoint header_set (k v : string) (h : Headers) : Headers :=
  match h with
  | [] => [(k, v)]
  | (k', v') :: r => if k' =? k then (k, v) :: r else (k', v') :: header_set k v r
  end.

(** [Object.assign(a, b)] on header objects. *)
Definition header_assign (a b : Headers) : Headers :=
  fold_left (fun acc kv => header_set (fst kv) (snd kv) acc) b a.

(** The twelve properties of the object [url.parse] returns; they are also
    the properties a redirect overwrites in the options. *)
Record UrlObject := {
  u_protocol : string;
  u_slashes : bool;
  u_auth : string;
  u_host : string;
  u_port : string;
  u_hostname : string;
  u_hash : string;
  u_search : string;
  u_query : string;
  u_pathname : string;
  u_path : string;
  u_href : string
}.

Definition empty_url : UrlObject :=
  {| u_protocol := ""; u_slashes := false; u_auth := ""; u_host := "";
     u_port := ""; u_hostname := ""; u_hash := ""; u_search := "";
     u_query := ""; u_pathname := ""; u_path := ""; u_href := "" |}.

(** [Object.assign(a, b)] restricted to the URL properties: a property that
    [b] carries replaces the one of [a]. *)
Definition url_assign (a b : UrlObject) : UrlObject :=
  {| u_protocol := or_str (u_protocol b) (u_protocol a);
     u_slashes := u_slashes b || u_slashes a;
     u_auth := or_str (u_auth b) (u_auth a);
     u_host := or_str (u_host b) (u_host a);
     u_port := or_str (u_port b) (u_port a);
     u_hostname := or_str (u_hostname b) (u_hostname a);
     u_hash := or_str (u_hash b) (u_hash a);
     u_search := or_str (u_search b) (u_search a);
     u_query := or_str (u_query b) (u_query a);
     u_pathname := or_str (u_pathname b) (u_pathname a);
     u_path := or_str (u_path b) (u_path a);
     u_href := or_str (u_href b) (u_href a) |}.

(** A parsed JSON value. *)
#[local] Unset Elimination Schemes.
Inductive Json :=
| JNull
| JBool (b : bool)
| JNum (q : Q)
| JStr (s : string)
| JArr (l : list Json)
| JObj (l : list (string * Json)).
#[local] Set Elimination Schemes.

(** What a caller may pass as [options.body]. *)
Inductive Body :=
| BString (s : string)
| BBuffer (bytes : string)
| BStream (boundary : option string)   (* a stream; [getBoundary] when it has one *)
| BPlain (o : list (string * Json))    (* a plain object *)
| BOther (truthy : bool).              (* anything else: a number, an array, ...;
                                          [truthy] is what [if (body)] sees *)

Definition isStream (b : Body) : bool :=
  match b with BStream _ => true | _ => false end.

Definition isPlainObj (b : Body) : bool :=
  match b with BPlain _ => true | _ => false end.

Definition is_string_body (b : Body) : bool :=
  match b with BString _ => true | _ => false end.

Definition is_buffer_body (b : Body) : bool :=
  match b with BBuffer _ => true | _ => false end.

(** [if (opts.body)]: of the strings only the empty one is falsy; a buffer,
    a stream and a plain object are objects and always truthy. *)
Definition truthy_request_body (b : option Body) : bool :=
  match b with
  | None => false
  | Some (BString s) => truthy_str s
  | Some (BOther t) => t
  | Some _ => true
  end.

(** The error a request of the transport emits. *)
Record TransportError := {
  te_code : option string;
  te_message : string
}.

(** A retry policy: [(iter, err) => delay]. The third argument is the value
    [Math.random()] returns if the policy calls it. *)
Definition RetryPolicy := Z -> TransportError -> Q -> Q.

(** [options.retries]: a function, or a value the default policy compares
    the attempt number with. For a value whose number value is finite,
    [RetryCount n] holds its floor: [iter > retries] is [iter > n]
    for an integer [iter]. For every other value [iter > retries] is the
    same for all [iter]: false for [undefined], [NaN] and [Infinity], true
    for [-Infinity]; [RetryOther] holds that value. *)
Inductive Retries :=
| RetryCount (n : Z)
| RetryFn (f : RetryPolicy)
| RetryOther (exceeded : bool).

(** [options.query] *)
Inductive Query :=
| QueryString (s : string)
| QueryObject (o : list (string * Json)).

(** [options.encoding]: [null] asks for a buffer. *)
Inductive Encoding :=
| EncNull
| EncName (s : string).

(** The options a caller passes, and the object form of the [url]
    argument. *)
Record UserOptions := {
  o_url : UrlObject;
  o_headers : option Headers;
  o_query : option Query;
  o_json : bool;
  o_form : bool;
  o_body : option Body;
  o_method : string;
  o_retries : option Retries;
  o_followRedirect : option bool;
  o_timeout : option Z;
  o_encoding : option Encoding
}.

Definition no_options : UserOptions :=
  {| o_url := empty_url; o_headers := None; o_query := None; o_json := false;
     o_form := false; o_body := None; o_method := ""; o_retries := None;
     o_followRedirect := None; o_timeout := None; o_encoding := None |}.

Definition opt_or {A} (b a : option A) : option A :=
  match b with Some _ => b | None => a end.

(** [Object.assign(a, b)] on option objects. *)
Definition options_assign (a b : UserOptions) : UserOptions :=
  {| o_url := url_assign (o_url a) (o_url b);
     o_headers := opt_or (o_headers b) (o_headers a);
     o_query := opt_or (o_query b) (o_query a);
     o_json := o_json b || o_json a;
     o_form := o_form b || o_form a;
     o_body := opt_or (o_body b) (o_body a);
     o_method := or_str (o_method b) (o_method a);
     o_retries := opt_or (o_retries b) (o_retries a);
     o_followRedirect := opt_or (o_followRedirect b) (o_followRedirect a);
     o_timeout := opt_or (o_timeout b) (o_timeout a);
     o_encoding := opt_or (o_encoding b) (o_encoding a) |}.

(** The [url] argument of the entry points. *)
Inductive UrlArg :=
| UrlString (s : string)
| UrlObj (o : UserOptions)
| UrlNull
| UrlOther (type_of : string).   (* [typeof url]: undefined, number, boolean, ... *)

(** The request descriptor: the object [normalizeArguments] returns and the
    engine works on. *)
Record Opts := {
  target : UrlObject;
  headers : Headers;
  method : string;
  body : option Body;
  json : bool;
  form : bool;
  encoding : option Encoding;
  followRedirect : bool;
  retries : RetryPolicy;
  gotTimeout : option Z;
  socketPath : string
}.

Definition protocol (o : Opts) : string := u_protocol (target o).
Definition href (o : Opts) : string := u_href (target o).
Definition path (o : Opts) : string := u_path (target o).

(** [Object.assign({}, opts, parsed)] where [parsed] comes from
    [url.parse], which sets all twelve URL properties. *)
Definition redirect_assign (o : Opts) (parsed : UrlObject) : Opts :=
  {| target := parsed; headers := headers o; method := method o;
     body := body o; json := json o; form := form o;
     encoding := encoding o; followRedirect := followRedirect o;
     retries := retries o; gotTimeout := gotTimeout o;
     socketPath := socketPath o |}.

(** Identifier of a request object of the transport: one per physical
    attempt. *)
Definition ReqId := nat.

(** The response object the transport hands to the callback, with the
    properties the engine attaches. *)
Record Response := {
  res_req : ReqId;
  statusCode : Z;
  res_headers : Headers;
  res_url : string;
  res_requestUrl : string;
  res_decompressed : bool
}.

(** The error classes of the program. *)
Inductive ErrorName :=
| PlainError
| TypeError
| RequestError
| ReadError
| ParseError
| HTTPError
| MaxRedirectsError
| UnsupportedProtocolError.

Definition is_taxonomy (n : ErrorName) : bool :=
  match n with
  | PlainError | TypeError => false
  | _ => true
  end.

(** What the body of a settled response holds. *)
Inductive BodyValue :=
| BodyUndefined
| BodyText (s : string)
| BodyBytes (s : string)
| BodyJson (j : Json).

Record Envelope := {
  env_res : Response;
  env_body : BodyValue
}.

Record JsError := {
  e_name : ErrorName;
  e_code : option string;
  e_message : string;
  e_host : string;
  e_hostname : string;
  e_method : string;
  e_path : string;
  e_protocol : string;
  e_url : string;
  e_statusCode : option Z;
  e_statusMessage : option string;
  e_response : option Envelope
}.

(** [new Error(msg)] and [new TypeError(msg)] *)
Definition plain_error (n : ErrorName) (msg : string) : JsError :=
  {| e_name := n; e_code := None; e_message := msg; e_host := "";
     e_hostname := ""; e_method := ""; e_path := ""; e_protocol := "";
     e_url := ""; e_statusCode := None; e_statusMessage := None;
     e_response := None |}.

(** [Object.defineProperty(err, 'response', {value: res})] *)
Definition define_response (err : JsError) (env : Envelope) : JsError :=
  {| e_name := e_name err; e_code := e_code err; e_message := e_message err;
     e_host := e_host err; e_hostname := e_hostname err;
     e_method := e_method err; e_path := e_path err;
     e_protocol := e_protocol err; e_url := e_url err;
     e_statusCode := e_statusCode err;
     e_statusMessage := e_statusMessage err;
     e_response := Some env |}.

(* ===================================================================== *)
(** ** The host platform *)
(* ===================================================================== *)

(** The functions the source imports: Node's [url], [querystring], [Buffer],
    [JSON] and [http.STATUS_CODES], and the packages [url-parse-lax],
    [is-redirect], [is-retry-allowed], [lowercase-keys]. Their code is not
    part of [index.js]; the development is parametric in them. *)
Class Platform := {
  url_parse : string -> UrlObject;
  url_parse_lax : string -> UrlObject;
  url_format : UrlObject -> string;
  url_resolve : string -> string -> string;
  binary_to_utf8 : string -> string;     (* Buffer.from(s, 'binary').toString() *)
  isRedirect : Z -> bool;
  isRetryAllowed : TransportError -> bool;
  json_parse : string -> option Json;
  json_parse_message : string -> string; (* message of the SyntaxError *)
  json_stringify : list (string * Json) -> string;
  qs_stringify : list (string * Json) -> string;
  lowercaseKeys : Headers -> Headers;
  byteLength : string -> Z;
  bufferLength : string -> Z;
  match_socket_path : string -> option (string * string); (* /(.+):(.+)/.exec *)
  STATUS_CODES : Z -> option string;
  user_agent : string                    (* `${pkg.name}/${pkg.version} (...)` *)
}.

(* ===================================================================== *)
(** ** The error taxonomy *)
(* ===================================================================== *)

Section Taxonomy.
Context {P : Platform}.

(** [stdError(error, opts)], with [this] starting from the named class. *)
Definition stdError (n : ErrorName) (code : option string) (msg : string)
           (opts : Opts) : JsError :=
  {| e_name := n;
     e_code := code;
     e_message := msg;
     e_host := u_host (target opts);
     e_hostname := u_hostname (target opts);
     e_method := method opts;
     e_path := path opts;
     e_protocol := protocol opts;
     e_url := href opts;
     e_statusCode := None;
     e_statusMessage := None;
     e_response := None |}.

Definition with_status (err : JsError) (code : Z) (msg : string) : JsError :=
  {| e_name := e_name err; e_code := e_code err; e_message := msg;
     e_host := e_host err; e_hostname := e_hostname err;
     e_method := e_method err; e_path := e_path err;
     e_protocol := e_protocol err; e_url := e_url err;
     e_statusCode := Some code;
     e_statusMessage := STATUS_CODES code;
     e_response := e_response err |}.

Definition new_RequestError (cause : TransportError) (opts : Opts) : JsError :=
  stdError RequestError (te_code cause) (te_message cause) opts.

Definition new_ReadError (cause : TransportError) (opts : Opts) : JsError :=
  stdError ReadError (te_code cause) (te_message cause) opts.

(** [data.slice(0, 77)] *)
Definition slice77 (data : string) : string := String.substring 0 77 data.

Definition new_ParseError (cause : string) (code : Z) (opts : Opts)
           (data : string) : JsError :=
  with_status (stdError ParseError None cause opts) code
    (cause ++ " in " ++ dquote ++ url_format (target opts) ++ dquote
           ++ ": " ++ String (ascii_of_nat 10) EmptyString
           ++ slice77 data ++ "...").

Definition status_text (code : Z) : string :=
  match STATUS_CODES code with Some s => s | None => "undefined" end.

Definition new_HTTPError (code : Z) (opts : Opts) : JsError :=
  with_status (stdError HTTPError None "" opts) code
    ("Response code " ++ show code ++ " (" ++ status_text code ++ ")").

Definition new_MaxRedirectsError (code : Z) (opts : Opts) : JsError :=
  with_status (stdError MaxRedirectsError None "" opts) code
    "Redirected 10 times. Aborting.".

Definition new_UnsupportedProtocolError (opts : Opts) : JsError :=
  stdError UnsupportedProtocolError None
    ("Unsupported protocol " ++ dquote ++ protocol opts ++ dquote) opts.

End Taxonomy.

(* ===================================================================== *)
(** ** [normalizeArguments] *)
(* ===================================================================== *)

Section Normalize.
Context {P : Platform}.

(** The function the normaliser installs when [opts.retries] is not a
    function (source lines 290-302); [u] stands for [Math.random()]. *)
Definition default_retries (retries : Z) : RetryPolicy :=
  fun iter err u =>
    if (iter >? retries) || negb (isRetryAllowed err) then 0%Q
    else
      let noise := (u * 100)%Q in
      (inject_Z (shl 1 iter * 1000) + noise)%Q.

(** The same function for a [retries] that has no finite number value:
    the test [iter > retries] of line 294 is [exceeded] for every [iter]. *)
Definition constant_retries (exceeded : bool) : RetryPolicy :=
  fun iter err u =>
    if exceeded || negb (isRetryAllowed err) then 0%Q
    else
      let noise := (u * 100)%Q in
      (inject_Z (shl 1 iter * 1000) + noise)%Q.

(** [url.replace(/^unix:/, 'http://$&')] *)
Definition unix_prefix (url : string) : string :=
  if String.prefix "unix:" url then "http://" ++ url else url.

Definition set_path (u : UrlObject) (p : string) : UrlObject :=
  {| u_protocol := u_protocol u; u_slashes := u_slashes u;
     u_auth := u_auth u; u_host := u_host u; u_port := u_port u;
     u_hostname := u_hostname u; u_hash := u_hash u;
     u_search := u_search u; u_query := u_query u;
     u_pathname := u_pathname u; u_path := p; u_href := u_href u |}.

Definition set_query (u : UrlObject) (q : string) : UrlObject :=
  {| u_protocol := u_protocol u; u_slashes := u_slashes u;
     u_auth := u_auth u; u_host := u_host u; u_port := u_port u;
     u_hostname := u_hostname u; u_hash := u_hash u;
     u_search := u_search u; u_query := q;
     u_pathname := u_pathname u; u_path := u_path u; u_href := u_href u |}.

Definition set_host (u : UrlObject) (h : string) : UrlObject :=
  {| u_protocol := u_protocol u; u_slashes := u_slashes u;
     u_auth := u_auth u; u_host := h; u_port := u_port u;
     u_hostname := u_hostname u; u_hash := u_hash u;
     u_search := u_search u; u_query := u_query u;
     u_pathname := u_pathname u; u_path := u_path u; u_href := u_href u |}.

Definition set_protocol (u : UrlObject) (p : string) : UrlObject :=
  {| u_protocol := p; u_slashes := u_slashes u;
     u_auth := u_auth u; u_host := u_host u; u_port := u_port u;
     u_hostname := u_hostname u; u_hash := u_hash u;
     u_search := u_search u; u_query := u_query u;
     u_pathname := u_pathname u; u_path := u_path u; u_href := u_href u |}.

Definition with_url (o : UserOptions) (u : UrlObject) : UserOptions :=
  {| o_url := u; o_headers := o_headers o; o_query := o_query o;
     o_json := o_json o; o_form := o_form o; o_body := o_body o;
     o_method := o_method o; o_retries := o_retries o;
     o_followRedirect := o_followRedirect o; o_timeout := o_timeout o;
     o_encoding := o_encoding o |}.

(** Lines 203-214: the type test on [url], and the parse of a string. The
    object that comes out is the second argument of the [Object.assign] of
    line 216. *)
Definition check_url (url : UrlArg) : Completion JsError UserOptions :=
  match url with
  | UrlOther ty =>
      Throw (plain_error TypeError
               ("Parameter `url` must be a string or object, not " ++ ty))
  | UrlString s =>
      let parsed := url_parse_lax (unix_prefix s) in
      if truthy_str (u_auth parsed)
      then Throw (plain_error PlainError
                    "Basic authentication must be done with auth option")
      else Normal (with_url no_options parsed)
  | UrlObj o => Normal o
  | UrlNull =>
      (* [url.protocol] on line 223 *)
      Throw (plain_error TypeError "Cannot read property 'protocol' of null")
  end.

(** Lines 216-226. *)
Definition merge_options (url opts : UserOptions) : UserOptions :=
  let defaults :=
    {| o_url := empty_url; o_headers := None; o_query := None;
       o_json := false; o_form := false; o_body := None; o_method := "";
       o_retries := Some (RetryCount 2); o_followRedirect := None;
       o_timeout := None; o_encoding := None |} in
  let proto :=
    with_url no_options
      (set_protocol empty_url (or_str (u_protocol (o_url url)) "http:")) in
  options_assign (options_assign (options_assign defaults url) proto) opts.

(** Lines 228-231. *)
Definition default_headers (h : option Headers) : Headers :=
  header_assign
    [("user-agent", user_agent); ("accept-encoding", "gzip,deflate")]
    (lowercaseKeys (match h with Some h => h | None => [] end)).

(** Lines 233-242: the query is folded into the path and deleted. *)
Definition apply_query (o : UserOptions) : UrlObject :=
  let u := o_url o in
  let query :=
    match o_query o with
    | Some (QueryString s) => s
    | Some (QueryObject q) => qs_stringify q
    | None => u_query u
    end in
  let present :=
    match o_query o with
    | Some (QueryObject _) => true
    | _ => truthy_str query
    end in
  if present
  then set_query (set_path u (before_question (u_path u) ++ "?" ++ query)) ""
  else u.

(** Lines 248-258: the two type tests on a body that is present. *)
Definition check_body (form_or_json : bool) (b : Body) : Completion JsError unit :=
  if negb (isStream b) && negb (is_string_body b) && negb (is_buffer_body b)
     && negb form_or_json
  then Throw (plain_error TypeError
         "options.body must be a ReadableStream, string, Buffer or plain Object")
  else if form_or_json && negb (isPlainObj b)
  then Throw (plain_error TypeError
         "options.body must be a plain Object when options.form or options.json is used")
  else Normal tt.

Definition or_header (k v : string) (h : Headers) : Headers :=
  header_set k (or_opt (header_get k h) v) h.

(** Lines 259-268: content type and encoded body. *)
Definition encode_body (o : UserOptions) (b : Body) (h : Headers)
  : Headers * Body :=
  match b with
  | BStream (Some boundary) =>
      (or_header "content-type" ("multipart/form-data; boundary=" ++ boundary) h, b)
  | BPlain obj =>
      if o_form o
      then (or_header "content-type" "application/x-www-form-urlencoded" h,
            BString (qs_stringify obj))
      else if o_json o
      then (or_header "content-type" "application/json" h,
            BString (json_stringify obj))
      else (h, b)
  | _ => (h, b)
  end.

(** Lines 270-273. [body] is the body the caller passed, [encoded] the value
    of [opts.body] after the encoding step. *)
Definition content_length (b encoded : Body) (h : Headers) : Headers :=
  if negb (header_in "content-length" h)
     && negb (header_in "transfer-encoding" h)
     && negb (isStream b)
  then
    match encoded with
    | BString s => header_set "content-length" (show (byteLength s)) h
    | BBuffer s => header_set "content-length" (show (bufferLength s)) h
    | _ => h
    end
  else h.

(** Lines 280-288. *)
Definition unix_socket (u : UrlObject) : UrlObject * string :=
  if u_hostname u =? "unix"
  then
    match match_socket_path (u_path u) with
    | Some (sock, p) => (set_host (set_path u p) "", sock)
    | None => (u, "")
    end
  else (u, "").

Definition normalizeArguments (url : UrlArg) (opts : UserOptions)
  : Completion JsError Opts :=
  match check_url url with
  | Throw e => Throw e
  | Normal urlo =>
      let o := merge_options urlo opts in
      let h := default_headers (o_headers o) in
      let u := apply_query o in
      let h := if o_json o && negb (header_in "accept" h)
               then header_set "accept" "application/json" h else h in
      let finish (h : Headers) (b : option Body) (m : string) :=
        let us := unix_socket u in
        Normal
          {| target := fst us;
             headers := h;
             method := m;
             body := b;
             json := o_json o;
             form := o_form o;
             encoding := o_encoding o;
             followRedirect :=
               match o_followRedirect o with Some b => b | None => true end;
             retries :=
               match o_retries o with
               | Some (RetryFn f) => f
               | Some (RetryCount n) => default_retries n
               | Some (RetryOther e) => constant_retries e
               | None => default_retries 2
               end;
             gotTimeout :=
               match o_timeout o with
               | Some t => if (t =? 0)%Z then None else Some t
               | None => None
               end;
             socketPath := snd us |} in
      match o_body o with
      | Some b =>
          match check_body (o_form o || o_json o) b with
          | Throw e => Throw e
          | Normal _ =>
              let he := encode_body o b h in
              let h := content_length b (snd he) (fst he) in
              finish h (Some (snd he)) (toUpperCase (or_str (o_method o) "POST"))
          end
      | None => finish h None (toUpperCase (or_str (o_method o) "GET"))
      end
  end.

End Normalize.

(* ===================================================================== *)
(** ** The world of one logical request *)
(* ===================================================================== *)

(** A request object of the transport, as [fn.request(opts, callback)]
    returns it. *)
Record Request := {
  req_id : ReqId;
  req_opts : Opts
}.

(** [req.method]: the transport stores the method in upper case, GET when
    none was given. *)
Definition req_method (req : Request) : string :=
  toUpperCase (or_str (method (req_opts req)) "GET").

(** The events of the emitter [ee], with their arguments. *)
Inductive Event :=
| EvRequest (req : Request)
| EvResponse (res : Response)
| EvRedirect (res : Response) (redirectOpts : Opts)
| EvError (err : JsError) (res : option Response).

(** One call of [ee.emit]. [em_attempt] records the request in whose
    callback the call was made (none when no request was created); it is
    not part of the event. *)
Record Emission := {
  em_attempt : option ReqId;
  em_event : Event
}.

(** The callbacks the source hands to [setImmediate] (lines 65-69 and
    87-89). *)
Inductive Task :=
| EmitRequest (req : Request)
| EmitResponse (req : Request) (res : Response).

(** [setTimeout(get, backoff, opts)] *)
Record Timer := {
  tm_delay : Q;
  tm_opts : Opts
}.

Record World := {
  (* the closure variables of requestAsEventEmitter *)
  requestUrl : string;
  redirectCount : Z;
  retryCount : Z;
  redirectUrl : option string;
  (* the emitter ee *)
  listening : bool;             (* does ee have listeners? *)
  emitted : list Emission;      (* the calls of ee.emit, oldest first *)
  (* the host *)
  next_req : ReqId;             (* requests created so far *)
  inflight : list Request;      (* requests whose callbacks have not fired *)
  answered : list Request;      (* requests that got a response and whose
                                   error listener has not fired *)
  deadlines : list (ReqId * Z); (* timedOut(req, gotTimeout) *)
  immediates : list Task;       (* setImmediate queue, oldest first *)
  timers : list Timer;          (* pending setTimeout calls *)
  uncaught : list JsError       (* exceptions that left a callback *)
}.

Definition set_redirectCount (w : World) (n : Z) : World :=
  {| requestUrl := requestUrl w; redirectCount := n;
     retryCount := retryCount w; redirectUrl := redirectUrl w;
     listening := listening w; emitted := emitted w;
     next_req := next_req w; inflight := inflight w;
     answered := answered w;
     deadlines := deadlines w; immediates := immediates w;
     timers := timers w; uncaught := uncaught w |}.

Definition set_retryCount (w : World) (n : Z) : World :=
  {| requestUrl := requestUrl w; redirectCount := redirectCount w;
     retryCount := n; redirectUrl := redirectUrl w;
     listening := listening w; emitted := emitted w;
     next_req := next_req w; inflight := inflight w;
     answered := answered w;
     deadlines := deadlines w; immediates := immediates w;
     timers := timers w; uncaught := uncaught w |}.

Definition set_redirectUrl (w : World) (u : string) : World :=
  {| requestUrl := requestUrl w; redirectCount := redirectCount w;
     retryCount := retryCount w; redirectUrl := Some u;
     listening := listening w; emitted := emitted w;
     next_req := next_req w; inflight := inflight w;
     answered := answered w;
     deadlines := deadlines w; immediates := immediates w;
     timers := timers w; uncaught := uncaught w |}.

Definition set_listening (w : World) (b : bool) : World :=
  {| requestUrl := requestUrl w; redirectCount := redirectCount w;
     retryCount := retryCount w; redirectUrl := redirectUrl w;
     listening := b; emitted := emitted w;
     next_req := next_req w; inflight := inflight w;
     answered := answered w;
     deadlines := deadlines w; immediates := immediates w;
     timers := timers w; uncaught := uncaught w |}.

Definition set_emitted (w : World) (l : list Emission) : World :=
  {| requestUrl := requestUrl w; redirectCount := redirectCount w;
     retryCount := retryCount w; redirectUrl := redirectUrl w;
     listening := listening w; emitted := l;
     next_req := next_req w; inflight := inflight w;
     answered := answered w;
     deadlines := deadlines w; immediates := immediates w;
     timers := timers w; uncaught := uncaught w |}.

Definition set_requests (w : World) (n : ReqId) (l : list Request) : World :=
  {| requestUrl := requestUrl w; redirectCount := redirectCount w;
     retryCount := retryCount w; redirectUrl := redirectUrl w;
     listening := listening w; emitted := emitted w;
     next_req := n; inflight := l;
     answered := answered w;
     deadlines := deadlines w; immediates := immediates w;
     timers := timers w; uncaught := uncaught w |}.

Definition set_answered (w : World) (l : list Request) : World :=
  {| requestUrl := requestUrl w; redirectCount := redirectCount w;
     retryCount := retryCount w; redirectUrl := redirectUrl w;
     listening := listening w; emitted := emitted w;
     next_req := next_req w; inflight := inflight w;
     answered := l;
     deadlines := deadlines w; immediates := immediates w;
     timers := timers w; uncaught := uncaught w |}.

(** The response callback of [req] is about to run: the request is no
    longer awaited, its error listener stays armed. *)
Definition answer (w : World) (req : Request) (rest : list Request) : World :=
  set_answered (set_requests w (next_req w) rest) (answered w ++ [req]).

Definition set_deadlines (w : World) (l : list (ReqId * Z)) : World :=
  {| requestUrl := requestUrl w; redirectCount := redirectCount w;
     retryCount := retryCount w; redirectUrl := redirectUrl w;
     listening := listening w; emitted := emitted w;
     next_req := next_req w; inflight := inflight w;
     answered := answered w;
     deadlines := l; immediates := immediates w;
     timers := timers w; uncaught := uncaught w |}.

Definition set_immediates (w : World) (l : list Task) : World :=
  {| requestUrl := requestUrl w; redirectCount := redirectCount w;
     retryCount := retryCount w; redirectUrl := redirectUrl w;
     listening := listening w; emitted := emitted w;
     next_req := next_req w; inflight := inflight w;
     answered := answered w;
     deadlines := deadlines w; immediates := l;
     timers := timers w; uncaught := uncaught w |}.

Definition set_timers (w : World) (l : list Timer) : World :=
  {| requestUrl := requestUrl w; redirectCount := redirectCount w;
     retryCount := retryCount w; redirectUrl := redirectUrl w;
     listening := listening w; emitted := emitted w;
     next_req := next_req w; inflight := inflight w;
     answered := answered w;
     deadlines := deadlines w; immediates := immediates w;
     timers := l; uncaught := uncaught w |}.

Definition set_uncaught (w : World) (l : list JsError) : World :=
  {| requestUrl := requestUrl w; redirectCount := redirectCount w;
     retryCount := retryCount w; redirectUrl := redirectUrl w;
     listening := listening w; emitted := emitted w;
     next_req := next_req w; inflight := inflight w;
     answered := answered w;
     deadlines := deadlines w; immediates := immediates w;
     timers := timers w; uncaught := l |}.

(* ===================================================================== *)
(** ** A state-and-exception monad for the engine *)
(* ===================================================================== *)

Definition Eff (A : Type) : Type := World -> Completion JsError A * World.

Definition ret {A} (a : A) : Eff A := fun w => (Normal a, w).

Definition bind {A B} (c : Eff A) (k : A -> Eff B) : Eff B :=
  fun w =>
    match c w with
    | (Normal a, w') => k a w'
    | (Throw e, w') => (Throw e, w')
    end.

Definition throw {A} (e : JsError) : Eff A := fun w => (Throw e, w).

Definition read : Eff World := fun w => (Normal w, w).

Definition modify (f : World -> World) : Eff unit := fun w => (Normal tt, f w).

Declare Scope eff_scope.
Delimit Scope eff_scope with eff.
Notation "x <- c ;; k" := (bind c (fun x => k))
  (at level 61, c at next level, right associativity) : eff_scope.
Notation "c ;; k" := (bind c (fun _ => k))
  (at level 61, right associativity) : eff_scope.
Local Open Scope eff_scope.

(** [ee.emit(name, ...)]. Node's emitter throws the error itself when
    ['error'] is emitted and no listener is registered for it. *)
Definition emit (attempt : option ReqId) (ev : Event) : Eff unit :=
  w <- read ;;
  modify (fun w => set_emitted w (emitted w ++ [{| em_attempt := attempt;
                                                   em_event := ev |}])) ;;
  match ev with
  | EvError err _ => if listening w then ret tt else throw err
  | _ => ret tt
  end.

(** [fn.request(opts, callback)] together with [req.once('error', ...)]:
    the request is in flight until the response callback or the error
    listener runs. The descriptors considered are those the transport
    accepts: Node's [http.request] throws at once on a path, method or header
    it takes for illegal, and the model has no such descriptor. *)
Definition fn_request (opts : Opts) : Eff Request :=
  w <- read ;;
  let req := {| req_id := next_req w; req_opts := opts |} in
  modify (fun w => set_requests w (S (next_req w)) (inflight w ++ [req])) ;;
  ret req.

Definition timedOut (req : Request) (time : Z) : Eff unit :=
  modify (fun w => set_deadlines w (deadlines w ++ [(req_id req, time)])).

Definition setImmediate (t : Task) : Eff unit :=
  modify (fun w => set_immediates w (immediates w ++ [t])).

Definition setTimeout (delay : Q) (opts : Opts) : Eff unit :=
  modify (fun w => set_timers w (timers w ++ [{| tm_delay := delay;
                                                 tm_opts := opts |}])).

(* ===================================================================== *)
(** ** The request engine *)
(* ===================================================================== *)

Section Engine.
Context {P : Platform}.

Definition supported_protocol (p : string) : bool :=
  (p =? "http:") || (p =? "https:").

(** [get] (lines 31-90), up to the registration of the callbacks. *)
Definition get (opts : Opts) : Eff unit :=
  if negb (supported_protocol (protocol opts)) then
    emit None (EvError (new_UnsupportedProtocolError opts) None)
  else
    req <- fn_request opts ;;
    match gotTimeout opts with
    | Some t => if (t =? 0)%Z then ret tt else timedOut req t
    | None => ret tt
    end ;;
    setImmediate (EmitRequest req).

(** The test of line 45. *)
Definition follows (opts : Opts) (status : Z) (h : Headers) : bool :=
  isRedirect status && followRedirect opts && header_in "location" h
  && ((method opts =? "GET") || (method opts =? "HEAD")).

(** [res.headers.location] *)
Definition location (h : Headers) : string :=
  match header_get "location" h with Some l => l | None => "" end.

(** The callback of [fn.request] (lines 39-70), called with the response
    the transport received for [req]. The model holds no response bodies, so
    [res.resume()] of line 46 leaves no trace. *)
Definition on_response (req : Request) (status : Z) (h : Headers) : Eff unit :=
  let opts := req_opts req in
  w <- read ;;
  let res := {| res_req := req_id req;
                statusCode := status;
                res_headers := h;
                res_url := or_opt (redirectUrl w) (requestUrl w);
                res_requestUrl := requestUrl w;
                res_decompressed := false |} in
  if follows opts status h then
    modify (fun w => set_redirectCount w (redirectCount w + 1)) ;;
    w <- read ;;
    if redirectCount w >? 10 then
      emit (Some (req_id req))
           (EvError (new_MaxRedirectsError status opts) (Some res))
    else
      let bufferString := binary_to_utf8 (location h) in
      let target_url := url_resolve (url_format (target opts)) bufferString in
      modify (fun w => set_redirectUrl w target_url) ;;
      let redirectOpts := redirect_assign opts (url_parse target_url) in
      emit (Some (req_id req)) (EvRedirect res redirectOpts) ;;
      get redirectOpts
  else
    setImmediate (EmitResponse req res).

(** The listener of [req.once('error', ...)] (lines 72-81); [u] is the value
    [Math.random()] yields should the policy ask for one. *)
Definition on_error (req : Request) (err : TransportError) (u : Q) : Eff unit :=
  let opts := req_opts req in
  modify (fun w => set_retryCount w (retryCount w + 1)) ;;
  w <- read ;;
  let backoff := retries opts (retryCount w) err u in
  if truthy_num backoff then
    setTimeout backoff opts
  else
    emit (Some (req_id req)) (EvError (new_RequestError err opts) None).

(** The two [setImmediate] callbacks. *)
Definition run_task (t : Task) : Eff unit :=
  match t with
  | EmitRequest req => emit (Some (req_id req)) (EvRequest req)
  | EmitResponse req res =>
      let response :=
        {| res_req := res_req res; statusCode := statusCode res;
           res_headers := res_headers res; res_url := res_url res;
           res_requestUrl := res_requestUrl res;
           res_decompressed := negb (req_method req =? "HEAD") |} in
      emit (Some (req_id req)) (EvResponse response)
  end.

(** The world at the first line of [get(opts)] on line 92. *)
Definition new_world (opts : Opts) : World :=
  {| requestUrl :=
       or_str (href opts) (url_resolve (url_format (target opts)) (path opts));
     redirectCount := 0;
     retryCount := 0;
     redirectUrl := None;
     listening := false;
     emitted := [];
     next_req := O;
     inflight := [];
     answered := [];
     deadlines := [];
     immediates := [];
     timers := [];
     uncaught := [] |}.

(** [requestAsEventEmitter(opts)]: the first [get] runs before the caller
    has the emitter, so before any listener is attached. *)
Definition requestAsEventEmitter (opts : Opts) : Completion JsError unit * World :=
  get opts (new_world opts).

(** [ee.on(...)]: the adapter attaches its listeners. *)
Definition listen (w : World) : World := set_listening w true.

(* --------------------------------------------------------------------- *)
(** *** The host loop *)

(** What the host can do next: run the oldest immediate, fire a timer, or
    report on a request - response headers for a request in flight
    ([Respond]), an error for a request in flight ([Fail]), or an error for
    a request whose response has already been handed over ([FailLate]: the
    listener of [req.once('error', ...)] stays armed after the response
    callback). The response callback and the error listener of a request
    each run at most once. *)
Inductive Label :=
| RunImmediate
| FireTimer (k : nat)
| Respond (r : ReqId) (status : Z) (h : Headers)
| Fail (r : ReqId) (err : TransportError) (u : Q)
| FailLate (r : ReqId) (err : TransportError) (u : Q).

(** The transport of the specification reports an error only before the
    response headers (4.1, step 4): its schedules are the prompt ones. *)
Definition prompt (l : Label) : bool :=
  match l with FailLate _ _ _ => false | _ => true end.

Fixpoint take_req (r : ReqId) (l : list Request) : option (Request * list Request) :=
  match l with
  | [] => None
  | q :: rest =>
      if Nat.eqb (req_id q) r then Some (q, rest)
      else match take_req r rest with
           | Some (x, rest') => Some (x, q :: rest')
           | None => None
           end
  end.

Fixpoint take_nth {A} (k : nat) (l : list A) : option (A * list A) :=
  match l, k with
  | [], _ => None
  | x :: rest, O => Some (x, rest)
  | x :: rest, S k' =>
      match take_nth k' rest with
      | Some (y, rest') => Some (y, x :: rest')
      | None => None
      end
  end.

(** A callback runs to completion; an exception that leaves it is uncaught. *)
Definition callback (c : Eff unit) (w : World) : World :=
  match c w with
  | (Normal _, w') => w'
  | (Throw e, w') => set_uncaught w' (uncaught w' ++ [e])
  end.

Definition step (w : World) (l : Label) : option World :=
  match l with
  | RunImmediate =>
      match immediates w with
      | [] => None
      | t :: rest => Some (callback (run_task t) (set_immediates w rest))
      end
  | FireTimer k =>
      match take_nth k (timers w) with
      | None => None
      | Some (t, rest) => Some (callback (get (tm_opts t)) (set_timers w rest))
      end
  | Respond r status h =>
      match take_req r (inflight w) with
      | None => None
      | Some (req, rest) =>
          Some (callback (on_response req status h) (answer w req rest))
      end
  | Fail r err u =>
      match take_req r (inflight w) with
      | None => None
      | Some (req, rest) =>
          Some (callback (on_error req err u)
                         (set_requests w (next_req w) rest))
      end
  | FailLate r err u =>
      match take_req r (answered w) with
      | None => None
      | Some (req, rest) =>
          Some (callback (on_error req err u) (set_answered w rest))
      end
  end.

Fixpoint run (w : World) (sched : list Label) : option World :=
  match sched with
  | [] => Some w
  | l :: rest =>
      match step w l with
      | Some w' => run w' rest
      | None => None
      end
  end.

(** The world in which the host loop starts: the emitter as
    [requestAsEventEmitter] left it, with the adapter's listeners on it. *)
Definition start (opts : Opts) : World :=
  listen (snd (requestAsEventEmitter opts)).

End Engine.

(* ===================================================================== *)
(** ** The buffered adapter: [asPromise] and [got] *)
(* ===================================================================== *)

(** A promise, with the rule that only the first settlement counts. *)
Inductive PromiseState :=
| Pending
| Resolved (v : Envelope)
| Rejected (e : JsError).

Definition resolve (p : PromiseState) (v : Envelope) : PromiseState :=
  match p with Pending => Resolved v | _ => p end.

Definition reject (p : PromiseState) (e : JsError) : PromiseState :=
  match p with Pending => Rejected e | _ => p end.

(** How reading the body of a response ends ([getStream]). *)
Inductive Drain :=
| Drained (data : string)
| DrainFailed (err : TransportError).

(** What the ['request'] listeners do with the request object. *)
Inductive Wiring :=
| PipeBody            (* opts.body.pipe(req) *)
| EndWith (b : option Body)   (* req.end(opts.body) *)
| PipeInput           (* input.pipe(req) *)
| EndEmpty.           (* req.end() *)

Section Buffered.
Context {P : Platform}.

(** The value [getStream] resolves with: a buffer when [opts.encoding] is
    [null], a string otherwise. *)
Definition drained_value (opts : Opts) (data : string) : BodyValue :=
  match encoding opts with
  | Some EncNull => BodyBytes data
  | _ => BodyText data
  end.

(** Truthiness of [res.body]: a buffer is an object and always truthy. *)
Definition truthy_body (b : BodyValue) : bool :=
  match b with
  | BodyUndefined => false
  | BodyText s => truthy_str s
  | BodyBytes _ => true
  | BodyJson _ => true
  end.

Definition body_text (b : BodyValue) : string :=
  match b with
  | BodyText s | BodyBytes s => s
  | _ => ""
  end.

(** The [then] callback of lines 115-134. It returns the envelope as it
    stands when the callback ends, and the exception if it threw. *)
Definition check_response (opts : Opts) (res : Response) (data : BodyValue)
  : Envelope * option JsError :=
  let statusCode := statusCode res in
  let limitStatusCode := if followRedirect opts then 299 else 399 in
  let raw := {| env_res := res; env_body := data |} in
  let parsed :=
    if json opts && truthy_body data then
      match json_parse (body_text data) with
      | Some j => Normal {| env_res := res; env_body := BodyJson j |}
      | None =>
          Throw (new_ParseError (json_parse_message (body_text data))
                                statusCode opts (body_text data))
      end
    else Normal raw in
  match parsed with
  | Throw e => (raw, Some e)
  | Normal env =>
      if negb (statusCode =? 304)%Z
         && ((statusCode <? 200) || (statusCode >? limitStatusCode))%Z
      then (env, Some (new_HTTPError statusCode opts))
      else (env, None)
  end.

(** The ['response'] listener of lines 110-139: the chain
    [stream.catch(...).then(...).catch(...)] applied to the outcome of the
    read. After a failed read the first handler rejects and the chain goes
    on with [undefined] as data. *)
Definition on_response_buffered (opts : Opts) (res : Response) (d : Drain)
           (p : PromiseState) : PromiseState :=
  let p1 :=
    match d with
    | DrainFailed err => reject p (new_ReadError err opts)
    | Drained _ => p
    end in
  let data :=
    match d with
    | DrainFailed _ => BodyUndefined
    | Drained s => drained_value opts s
    end in
  match check_response opts res data with
  | (env, None) => resolve p1 env
  | (env, Some err) => reject p1 (define_response err env)
  end.

(** The ['request'] listener of lines 100-108. It returns what was done with
    [req] and the new value of [opts.body]. *)
Definition on_request_buffered (b : option Body) : Wiring * option Body :=
  match b with
  | Some (BStream _) => (PipeBody, None)
  | _ => (EndWith b, b)
  end.

(** The state the listeners of [asPromise] work on. *)
Record Buffered := {
  promise : PromiseState;
  opts_body : option Body;
  wired : list (ReqId * Wiring)
}.

Definition buffered_listener (opts : Opts) (drain : ReqId -> Drain)
           (st : Buffered) (ev : Event) : Buffered :=
  match ev with
  | EvRequest req =>
      let wb := on_request_buffered (opts_body st) in
      {| promise := promise st; opts_body := snd wb;
         wired := wired st ++ [(req_id req, fst wb)] |}
  | EvResponse res =>
      {| promise := on_response_buffered opts res (drain (res_req res)) (promise st);
         opts_body := opts_body st; wired := wired st |}
  | EvRedirect _ _ => st
  | EvError err _ =>
      {| promise := reject (promise st) err;
         opts_body := opts_body st; wired := wired st |}
  end.

(** [asPromise(opts)]: the promise right after the executor has run, and
    the world of the engine. An exception in the executor rejects the
    promise; [new Promise] itself never throws. *)
Definition asPromise (opts : Opts) : Buffered * World :=
  match requestAsEventEmitter opts with
  | (Throw e, w) =>
      ({| promise := Rejected e; opts_body := body opts; wired := [] |}, w)
  | (Normal _, w) =>
      ({| promise := Pending; opts_body := body opts; wired := [] |}, listen w)
  end.

(** The adapter after the host has run the schedule [sched]. *)
Definition buffered_after (opts : Opts) (drain : ReqId -> Drain)
           (sched : list Label) : option Buffered :=
  let (st, w0) := asPromise opts in
  match promise st with
  | Pending =>
      match run w0 sched with
      | Some w => Some (fold_left (buffered_listener opts drain)
                                  (map em_event (emitted w)) st)
      | None => None
      end
  | _ => Some st
  end.

(** [Promise.reject(err)] *)
Definition promise_reject (e : JsError) : Buffered * World :=
  ({| promise := Rejected e; opts_body := None; wired := [] |},
   {| requestUrl := ""; redirectCount := 0; retryCount := 0;
      redirectUrl := None; listening := false; emitted := [];
      next_req := O; inflight := []; answered := []; deadlines := [];
      immediates := [];
      timers := []; uncaught := [] |}).

(** [got(url, opts)] (lines 316-322). *)
Definition got (url : UrlArg) (opts : UserOptions)
  : Completion JsError (Buffered * World) :=
  try_catch
    match normalizeArguments url opts with
    | Normal o => Normal (asPromise o)
    | Throw e => Throw e
    end
    (fun err => Normal (promise_reject err)).

End Buffered.

(* ===================================================================== *)
(** ** The streaming adapter: [asStream] and [got.stream] *)
(* ===================================================================== *)

Section Streaming.
Context {P : Platform}.

(** The duplex [proxy]: the events emitted on it, what was done with each
    request object, and whether [proxy.write] was replaced by the function
    that throws. *)
Record Duplex := {
  proxy_emitted : list Event;
  proxy_wired : list (ReqId * Wiring);
  write_disabled : bool
}.

(** The ['request'] listener of lines 162-181: what it does with the
    request object, after it has emitted ['request'] on [proxy]. *)
Definition on_request_stream (opts : Opts) : Wiring :=
  if match body opts with Some b => isStream b | None => false end
  then PipeBody
  else if truthy_request_body (body opts) then EndWith (body opts)
  else if (method opts =? "POST") || (method opts =? "PUT")
          || (method opts =? "PATCH")
  then PipeInput
  else EndEmpty.

(** The ['response'] listener of lines 183-194: what it emits on [proxy]. *)
Definition on_response_stream (opts : Opts) (res : Response) : Event :=
  let statusCode := statusCode res in
  if negb (statusCode =? 304)%Z
     && ((statusCode <? 200) || (statusCode >? 299))%Z
  then EvError (new_HTTPError statusCode opts) (Some res)
  else EvResponse res.

Definition stream_listener (opts : Opts) (d : Duplex) (ev : Event) : Duplex :=
  match ev with
  | EvRequest req =>
      {| proxy_emitted := proxy_emitted d ++ [EvRequest req];
         proxy_wired := proxy_wired d ++ [(req_id req, on_request_stream opts)];
         write_disabled := write_disabled d |}
  | EvResponse res =>
      {| proxy_emitted := proxy_emitted d ++ [on_response_stream opts res];
         proxy_wired := proxy_wired d;
         write_disabled := write_disabled d |}
  | EvRedirect _ _ | EvError _ _ =>
      {| proxy_emitted := proxy_emitted d ++ [ev];
         proxy_wired := proxy_wired d;
         write_disabled := write_disabled d |}
  end.

(** [asStream(opts)] (lines 145-200). The second component is the world of
    the engine, when [requestAsEventEmitter] was reached. *)
Definition asStream (opts : Opts) : Completion JsError Duplex * option World :=
  if json opts then
    (Throw (plain_error PlainError
              "got can not be used as stream when options.json is used"),
     None)
  else
    let proxy :=
      {| proxy_emitted := []; proxy_wired := [];
         write_disabled := truthy_request_body (body opts) |} in
    match requestAsEventEmitter opts with
    | (Throw e, w) => (Throw e, Some w)
    | (Normal _, w) => (Normal proxy, Some (listen w))
    end.

(** The duplex after the host has run the schedule [sched]. *)
Definition stream_after (opts : Opts) (sched : list Label) : option Duplex :=
  match asStream opts with
  | (Normal proxy, Some w0) =>
      match run w0 sched with
      | Some w => Some (fold_left (stream_listener opts)
                                  (map em_event (emitted w)) proxy)
      | None => None
      end
  | _ => None
  end.

(** [got.stream(url, opts)] (line 337). *)
Definition got_stream (url : UrlArg) (opts : UserOptions)
  : Completion JsError Duplex * option World :=
  match normalizeArguments url opts with
  | Normal o => asStream o
  | Throw e => (Throw e, None)
  end.

End Streaming.

(* ===================================================================== *)
(** ** The verb helpers: [got.get] ... [got.stream.delete] *)
(* ===================================================================== *)

Section Helpers.
Context {P : Platform}.

(** Lines 324-331. *)
Definition helpers : list string :=
  ["get"; "post"; "put"; "patch"; "head"; "delete"].

(** [{method: el}] *)
Definition method_option (el : string) : UserOptions :=
  {| o_url := empty_url; o_headers := None; o_query := None; o_json := false;
     o_form := false; o_body := None; o_method := el; o_retries := None;
     o_followRedirect := None; o_timeout := None; o_encoding := None |}.

(** [Object.assign({}, opts, {method: el})] *)
Definition with_method (opts : UserOptions) (el : string) : UserOptions :=
  options_assign (options_assign no_options opts) (method_option el).

(** [got[el]] (line 334). *)
Definition got_helper (el : string) (url : UrlArg) (opts : UserOptions)
  : Completion JsError (Buffered * World) :=
  got url (with_method opts el).

(** [got.stream[el]] (line 340). *)
Definition got_stream_helper (el : string) (url : UrlArg) (opts : UserOptions)
  : Completion JsError Duplex * option World :=
  got_stream url (with_method opts el).

End Helpers.

(* ===================================================================== *)
(** ** A concrete platform *)
(* ===================================================================== *)

(** An instance of [Platform] on which the model can be run: the tables of
    [is-redirect], [is-retry-allowed] and [http.STATUS_CODES], and versions
    of the URL, query string, JSON and header functions for the usual
    inputs: URLs [scheme://auth@host:port/path?query#hash] without IPv6
    literals or characters Node would escape, relative references without
    dot segments, query and JSON objects whose numbers are integers, JSON
    texts that are scalars or empty containers. The general theorems do not
    depend on it. *)
Module Node.

Definition after (n : nat) (s : string) : string :=
  String.substring n (String.length s - n) s.

(** [String.prototype.toLowerCase] on the ASCII letters. *)
Definition lower_ascii (c : ascii) : ascii :=
  let n := nat_of_ascii c in
  if (65 <=? n)%nat && (n <=? 90)%nat then
    (* adding 32 sets the bit of weight 32, which is clear from A to Z *)
    match c with
    | Ascii b0 b1 b2 b3 b4 _ b6 b7 => Ascii b0 b1 b2 b3 b4 true b6 b7
    end
  else c.

Fixpoint toLowerCase (s : string) : string :=
  match s with
  | EmptyString => EmptyString
  | String c r => String (lower_ascii c) (toLowerCase r)
  end.

(** [s] up to the first character that is in [stops], and the rest of [s]
    from that character on. *)
Fixpoint span_until (stops : list ascii) (s : string) : string * string :=
  match s with
  | EmptyString => (EmptyString, EmptyString)
  | String c r =>
      if existsb (Ascii.eqb c) stops then (EmptyString, s)
      else let (a, b) := span_until stops r in (String c a, b)
  end.

(** The positions of the character [c] in [s], counted from [i]. *)
Fixpoint positions (c : ascii) (i : nat) (s : string) : list nat :=
  match s with
  | EmptyString => []
  | String c' r =>
      if Ascii.eqb c' c then i :: positions c (S i) r
      else positions c (S i) r
  end.

Definition with_auth (auth : string) : string :=
  if auth =? "" then "" else auth ++ "@".

(** The part of a URL after the host: path name, search and hash. *)
Definition parse_tail (tail : string) : string * string * string :=
  let (before_hash, hash) := span_until ["#"%char] tail in
  let (pathname, search) := span_until ["?"%char] before_hash in
  (pathname, search, hash).

(** [url.parse(s)] *)
Definition parse (s : string) : UrlObject :=
  match String.index 0 "://" s with
  | Some i =>
      let protocol := toLowerCase (String.substring 0 (i + 1) s) in
      let rest := after (i + 3) s in
      let (authority, tail) :=
        span_until ["/"%char; "?"%char; "#"%char] rest in
      let (auth, hostport) :=
        match rev (positions "@"%char 0 authority) with
        | j :: _ => (String.substring 0 j authority, after (j + 1) authority)
        | [] => ("", authority)
        end in
      let (name, colon_port) := span_until [":"%char] hostport in
      let hostname := toLowerCase name in
      let port := after 1 colon_port in
      let host := if port =? "" then hostname else hostname ++ ":" ++ port in
      let '(pathname0, search, hash) := parse_tail tail in
      let pathname := if pathname0 =? "" then "/" else pathname0 in
      {| u_protocol := protocol; u_slashes := true;
         u_auth := auth; u_host := host; u_port := port;
         u_hostname := hostname;
         u_hash := hash; u_search := search; u_query := after 1 search;
         u_pathname := pathname; u_path := pathname ++ search;
         u_href := protocol ++ "//" ++ with_auth auth ++ host
                   ++ pathname ++ search ++ hash |}
  | None =>
      let '(pathname, search, hash) := parse_tail s in
      {| u_protocol := ""; u_slashes := false; u_auth := ""; u_host := "";
         u_port := ""; u_hostname := "";
         u_hash := hash; u_search := search; u_query := after 1 search;
         u_pathname := pathname; u_path := pathname ++ search;
         u_href := s |}
  end.

(** A word character of a regular expression: [[A-Za-z0-9_]]. *)
Definition word_char (c : ascii) : bool :=
  let n := nat_of_ascii c in
  ((48 <=? n) && (n <=? 57) || (65 <=? n) && (n <=? 90)
   || (97 <=? n) && (n <=? 122) || (n =? 95))%nat.

Fixpoint all_chars (f : ascii -> bool) (s : string) : bool :=
  match s with
  | EmptyString => true
  | String c r => f c && all_chars f r
  end.

(** [/^(?:\w+:)?\/\//.test(s)]: the URL starts with [//] or [scheme://]. *)
Definition has_scheme (s : string) : bool :=
  String.prefix "//" s
  || match String.index 0 "://" s with
     | Some i => (0 <? i)%nat && all_chars word_char (String.substring 0 i s)
     | None => false
     end.

(** [url-parse-lax] puts [http://] in front of a URL without a scheme. *)
Definition parse_lax (s : string) : UrlObject :=
  if has_scheme s then parse s else parse ("http://" ++ s).

Definition slashed_protocols : list string :=
  ["http:"; "https:"; "ftp:"; "gopher:"; "file:"].

(** The protocol, the slashes, the authentication and the host of
    [url.format]. *)
Definition origin_of (protocol : string) (slashes : bool)
           (auth host hostname port : string) : string :=
  protocol
  ++ (if slashes || existsb (String.eqb protocol) slashed_protocols
      then "//" else "")
  ++ with_auth auth
  ++ (if host =? "" then
        if port =? "" then hostname else hostname ++ ":" ++ port
      else host).

Definition origin (u : UrlObject) : string :=
  match u with
  | {| u_protocol := protocol; u_slashes := slashes; u_auth := auth;
       u_host := host; u_port := port; u_hostname := hostname |} =>
      origin_of protocol slashes auth host hostname port
  end.

(** [url.format(u)] *)
Definition format (u : UrlObject) : string :=
  match u with
  | {| u_search := search; u_query := query; u_pathname := pathname;
       u_hash := hash |} =>
      origin u ++ pathname
      ++ (if search =? "" then if query =? "" then "" else "?" ++ query
          else search)
      ++ hash
  end.

(** The path name up to and including its last [/]. *)
Definition directory (pathname : string) : string :=
  match rev (positions "/"%char 0 pathname) with
  | j :: _ => String.substring 0 (j + 1) pathname
  | [] => "/"
  end.

(** [url.resolve(base, rel)] *)
Definition resolve_url (base rel : string) : string :=
  match parse base with
  | {| u_protocol := protocol; u_slashes := slashes; u_auth := auth;
       u_host := host; u_port := port; u_hostname := hostname;
       u_search := search; u_pathname := pathname; u_href := href |} =>
      let origin := origin_of protocol slashes auth host hostname port in
      if rel =? "" then href
      else if has_scheme rel then
        if String.prefix "//" rel then u_href (parse (protocol ++ rel))
        else u_href (parse rel)
      else if String.prefix "/" rel then origin ++ rel
      else if String.prefix "?" rel then origin ++ pathname ++ rel
      else if String.prefix "#" rel then origin ++ pathname ++ search ++ rel
      else origin ++ directory pathname ++ rel
  end.

Definition redirect_codes : list Z := [300; 301; 302; 303; 305; 307; 308].

Definition is_redirect (code : Z) : bool :=
  existsb (Z.eqb code) redirect_codes.

Definition retry_denied : list string :=
  ["ENOTFOUND"; "ENETUNREACH"; "UNABLE_TO_GET_ISSUER_CERT";
   "UNABLE_TO_GET_CRL"; "UNABLE_TO_DECRYPT_CERT_SIGNATURE";
   "UNABLE_TO_DECRYPT_CRL_SIGNATURE"; "UNABLE_TO_DECODE_ISSUER_PUBLIC_KEY";
   "CERT_SIGNATURE_FAILURE"; "CRL_SIGNATURE_FAILURE"; "CERT_NOT_YET_VALID";
   "CERT_HAS_EXPIRED"; "CRL_NOT_YET_VALID"; "CRL_HAS_EXPIRED";
   "ERROR_IN_CERT_NOT_BEFORE_FIELD"; "ERROR_IN_CERT_NOT_AFTER_FIELD";
   "ERROR_IN_CRL_LAST_UPDATE_FIELD"; "ERROR_IN_CRL_NEXT_UPDATE_FIELD";
   "OUT_OF_MEM"; "DEPTH_ZERO_SELF_SIGNED_CERT"; "SELF_SIGNED_CERT_IN_CHAIN";
   "UNABLE_TO_GET_ISSUER_CERT_LOCALLY"; "UNABLE_TO_VERIFY_LEAF_SIGNATURE";
   "CERT_CHAIN_TOO_LONG"; "CERT_REVOKED"; "INVALID_CA";
   "PATH_LENGTH_EXCEEDED"; "INVALID_PURPOSE"; "CERT_UNTRUSTED";
   "CERT_REJECTED"].

Definition is_retry_allowed (err : TransportError) : bool :=
  match te_code err with
  | None => true
  | Some c => negb (existsb (String.eqb c) retry_denied)
  end.

Definition parse_json (s : string) : option Json :=
  if s =? "null" then Some JNull
  else if s =? "true" then Some (JBool true)
  else if s =? "false" then Some (JBool false)
  else if s =? "{}" then Some (JObj [])
  else if s =? "[]" then Some (JArr [])
  else None.

(** A number as JavaScript prints it, for the integers. *)
Definition show_number (q : Q) : option string :=
  if (Zpos (Qden q) =? 1)%Z then Some (show (Qnum q)) else None.

Definition hex_digit (n : nat) : ascii :=
  match String.get n "0123456789ABCDEF" with
  | Some c => c
  | None => "0"%char
  end.

(** The characters [querystring.escape] leaves as they are:
    [A-Za-z0-9-_.!~*'()]. *)
Definition unreserved (c : ascii) : bool :=
  word_char c
  || existsb (Ascii.eqb c)
       ["-"%char; "."%char; "!"%char; "~"%char; "*"%char; "'"%char;
        "("%char; ")"%char].

(** [querystring.escape] on a string of UTF-8 bytes. *)
Fixpoint qs_escape (s : string) : string :=
  match s with
  | EmptyString => EmptyString
  | String c r =>
      if unreserved c then String c (qs_escape r)
      else let n := nat_of_ascii c in
           String "%"%char
             (String (hex_digit (n / 16))
                (String (hex_digit (n mod 16)) (qs_escape r)))
  end.

(** A string, number or boolean as [querystring.stringify] writes it;
    every other value is written as the empty string. *)
Definition qs_primitive (v : Json) : string :=
  match v with
  | JStr s => qs_escape s
  | JBool true => "true"
  | JBool false => "false"
  | JNum q => match show_number q with Some s => s | None => "" end
  | _ => ""
  end.

Definition qs_pair (kv : string * Json) : list string :=
  let k := qs_escape (fst kv) in
  match snd kv with
  | JArr l => map (fun v => k ++ "=" ++ qs_primitive v) l
  | v => [k ++ "=" ++ qs_primitive v]
  end.

(** [querystring.stringify(obj)] *)
Definition stringify_query (obj : list (string * Json)) : string :=
  String.concat "&" (flat_map qs_pair obj).

(** A string between double quotes, with the double quote and the
    backslash escaped. *)
Fixpoint json_escape (s : string) : string :=
  match s with
  | EmptyString => EmptyString
  | String c r =>
      if (nat_of_ascii c =? 34)%nat || (nat_of_ascii c =? 92)%nat
      then String (ascii_of_nat 92) (String c (json_escape r))
      else String c (json_escape r)
  end.

Definition json_quote (s : string) : string :=
  dquote ++ json_escape s ++ dquote.

(** [JSON.stringify(v)] *)
Fixpoint stringify_json (v : Json) : string :=
  match v with
  | JNull => "null"
  | JBool true => "true"
  | JBool false => "false"
  | JNum q => match show_number q with Some s => s | None => "null" end
  | JStr s => json_quote s
  | JArr l => "[" ++ String.concat "," (map stringify_json l) ++ "]"
  | JObj l =>
      "{" ++ String.concat ","
               (map (fun kv => json_quote (fst kv) ++ ":"
                               ++ stringify_json (snd kv)) l)
      ++ "}"
  end.

(** [lowercase-keys]: the keys in lower case, a later property replacing
    an earlier one of the same lower-case name. *)
Definition lowercase_keys (h : Headers) : Headers :=
  fold_left (fun acc kv => header_set (toLowerCase (fst kv)) (snd kv) acc)
            h [].

Definition status_table : list (Z * string) :=
  [(100, "Continue"); (101, "Switching Protocols"); (102, "Processing");
   (200, "OK"); (201, "Created"); (202, "Accepted");
   (203, "Non-Authoritative Information"); (204, "No Content");
   (205, "Reset Content"); (206, "Partial Content"); (207, "Multi-Status");
   (208, "Already Reported"); (226, "IM Used");
   (300, "Multiple Choices"); (301, "Moved Permanently"); (302, "Found");
   (303, "See Other"); (304, "Not Modified"); (305, "Use Proxy");
   (307, "Temporary Redirect"); (308, "Permanent Redirect");
   (400, "Bad Request"); (401, "Unauthorized"); (402, "Payment Required");
   (403, "Forbidden"); (404, "Not Found"); (405, "Method Not Allowed");
   (406, "Not Acceptable"); (407, "Proxy Authentication Required");
   (408, "Request Timeout"); (409, "Conflict"); (410, "Gone");
   (411, "Length Required"); (412, "Precondition Failed");
   (413, "Payload Too Large"); (414, "URI Too Long");
   (415, "Unsupported Media Type"); (416, "Range Not Satisfiable");
   (417, "Expectation Failed"); (421, "Misdirected Request");
   (422, "Unprocessable Entity"); (423, "Locked");
   (424, "Failed Dependency"); (426, "Upgrade Required");
   (428, "Precondition Required"); (429, "Too Many Requests");
   (431, "Request Header Fields Too Large");
   (451, "Unavailable For Legal Reasons");
   (500, "Internal Server Error"); (501, "Not Implemented");
   (502, "Bad Gateway"); (503, "Service Unavailable");
   (504, "Gateway Timeout"); (505, "HTTP Version Not Supported");
   (506, "Variant Also Negotiates"); (507, "Insufficient Storage");
   (508, "Loop Detected"); (509, "Bandwidth Limit Exceeded");
   (510, "Not Extended"); (511, "Network Authentication Required")]%Z.

Definition status_codes (code : Z) : option string :=
  match find (fun e => (fst e =? code)%Z) status_table with
  | Some e => Some (snd e)
  | None => None
  end.

(** [/(.+):(.+)/.exec(p)] on a path without line breaks: the first group is
    greedy, so the match splits at the last colon that has a character on
    each side. *)
Definition split_socket (p : string) : option (string * string) :=
  match rev (filter (fun i => (0 <? i)%nat && (i + 1 <? String.length p)%nat)
                    (positions ":"%char 0 p)) with
  | i :: _ => Some (String.substring 0 i p, after (i + 1) p)
  | [] => None
  end.

(** [package.json] is not part of [index.js]: the version stands for the
    one it names. *)
Definition pkg_name : string := "got".
Definition pkg_version : string := "6.7.1".

#[export] Instance platform : Platform :=
  {| url_parse := parse;
     url_parse_lax := parse_lax;
     url_format := format;
     url_resolve := resolve_url;
     binary_to_utf8 := fun s => s;
     isRedirect := is_redirect;
     isRetryAllowed := is_retry_allowed;
     json_parse := parse_json;
     json_parse_message := fun _ => "Unexpected token";
     json_stringify := fun obj => stringify_json (JObj obj);
     qs_stringify := stringify_query;
     lowercaseKeys := lowercase_keys;
     byteLength := fun s => Z.of_nat (String.length s);
     bufferLength := fun s => Z.of_nat (String.length s);
     match_socket_path := split_socket;
     STATUS_CODES := status_codes;
     user_agent := pkg_name ++ "/" ++ pkg_version
                   ++ " (https://github.com/sindresorhus/got)" |}.

End Node.

(* ===================================================================== *)
(** ** Observations on a world *)
(* ===================================================================== *)

(** The terminal events of a logical request. *)
Definition is_terminal (ev : Event) : bool :=
  match ev with
  | EvResponse _ | EvError _ _ => true
  | EvRequest _ | EvRedirect _ _ => false
  end.

Definition events (w : World) : list Event := map em_event (emitted w).

Definition terminal_events (w : World) : list Event :=
  filter is_terminal (events w).

Definition is_publish (t : Task) : bool :=
  match t with EmitResponse _ _ => true | EmitRequest _ => false end.

(** What can still lead to a terminal event: a request in flight, a retry
    timer, or a response waiting in the immediate queue. *)
Definition live (w : World) : nat :=
  List.length (inflight w) + List.length (timers w)
  + List.length (filter is_publish (immediates w)).

(** Nothing is left for the host to do. *)
Definition quiescent (w : World) : Prop :=
  inflight w = [] /\ timers w = [] /\ immediates w = [].

(** An [error] event carries an error of the taxonomy. *)
Definition taxonomy_event (ev : Event) : Prop :=
  match ev with
  | EvError err _ => is_taxonomy (e_name err) = true
  | _ => True
  end.

Definition taxonomy_only (w : World) : Prop := Forall taxonomy_event (events w).

(** An error on the request [r]: before its response, or after it when
    [late]. *)
Definition failure (late : bool) (r : ReqId) (err : TransportError) (u : Q)
  : Label :=
  if late then FailLate r err u else Fail r err u.

(** The requests whose error listener can still fire: those in flight, or
    those already answered when [late]. *)
Definition armed (late : bool) (w : World) : list Request :=
  if late then answered w else inflight w.

(** A schedule of a transport that reports each request once. *)
Definition prompt_schedule (sched : list Label) : Prop :=
  forallb prompt sched = true.

(** A policy that refuses every attempt after the [K]-th. *)
Definition stops_after (K : Z) (pol : RetryPolicy) : Prop :=
  forall iter err u, K < iter -> truthy_num (pol iter err u) = false.

Section Vocabulary.
Context {P : Platform}.

(** *** The world each callback leaves *)

(** The world [get(opts)] leaves, when the emitter has listeners. *)
Definition after_get (opts : Opts) (w : World) : World :=
  if supported_protocol (protocol opts) then
    let req := {| req_id := next_req w; req_opts := opts |} in
    let w1 := set_requests w (S (next_req w)) (inflight w ++ [req]) in
    let w2 := match gotTimeout opts with
              | Some t => if (t =? 0)%Z then w1
                          else set_deadlines w1 (deadlines w1 ++ [(next_req w, t)])
              | None => w1
              end in
    set_immediates w2 (immediates w2 ++ [EmitRequest req])
  else
    set_emitted w (emitted w ++
      [{| em_attempt := None;
          em_event := EvError (new_UnsupportedProtocolError opts) None |}]).

Definition emission (r : ReqId) (ev : Event) : Emission :=
  {| em_attempt := Some r; em_event := ev |}.

(** The response object as the engine hands it on (line 42-43). *)
Definition response_of (w : World) (req : Request) (status : Z) (h : Headers)
  : Response :=
  {| res_req := req_id req; statusCode := status; res_headers := h;
     res_url := or_opt (redirectUrl w) (requestUrl w);
     res_requestUrl := requestUrl w; res_decompressed := false |}.

(** The redirect target of line 55. *)
Definition redirect_target (opts : Opts) (h : Headers) : string :=
  url_resolve (url_format (target opts)) (binary_to_utf8 (location h)).

Definition redirect_opts (opts : Opts) (h : Headers) : Opts :=
  redirect_assign opts (url_parse (redirect_target opts h)).

Definition after_response (req : Request) (status : Z) (h : Headers)
           (w : World) : World :=
  let opts := req_opts req in
  let res := response_of w req status h in
  if follows opts status h then
    let w1 := set_redirectCount w (redirectCount w + 1) in
    if redirectCount w + 1 >? 10 then
      set_emitted w1 (emitted w1 ++
        [emission (req_id req)
           (EvError (new_MaxRedirectsError status opts) (Some res))])
    else
      let w2 := set_redirectUrl w1 (redirect_target opts h) in
      after_get (redirect_opts opts h)
        (set_emitted w2 (emitted w2 ++
           [emission (req_id req) (EvRedirect res (redirect_opts opts h))]))
  else
    set_immediates w (immediates w ++ [EmitResponse req res]).

Definition after_error (req : Request) (err : TransportError) (u : Q)
           (w : World) : World :=
  let opts := req_opts req in
  let w1 := set_retryCount w (retryCount w + 1) in
  let backoff := retries opts (retryCount w + 1) err u in
  if truthy_num backoff then
    set_timers w1 (timers w1 ++ [{| tm_delay := backoff; tm_opts := opts |}])
  else
    set_emitted w1 (emitted w1 ++
      [emission (req_id req) (EvError (new_RequestError err opts) None)]).

(** The response as the deferred callback publishes it (lines 66-68). *)
Definition published (req : Request) (res : Response) : Response :=
  {| res_req := res_req res; statusCode := statusCode res;
     res_headers := res_headers res; res_url := res_url res;
     res_requestUrl := res_requestUrl res;
     res_decompressed := negb (req_method req =? "HEAD") |}.

Definition task_emission (t : Task) : Emission :=
  match t with
  | EmitRequest req => emission (req_id req) (EvRequest req)
  | EmitResponse req res => emission (req_id req) (EvResponse (published req res))
  end.

Definition after_task (t : Task) (w : World) : World :=
  set_emitted w (emitted w ++ [task_emission t]).

(** *** One step of the host, as a relation *)

(** One step of the host, for an emitter with listeners: [step] in terms
    of the worlds above. *)
Inductive steps_to (w : World) : Label -> World -> Prop :=
| StepImmediate t rest :
    immediates w = t :: rest ->
    steps_to w RunImmediate (after_task t (set_immediates w rest))
| StepTimer k t rest :
    take_nth k (timers w) = Some (t, rest) ->
    steps_to w (FireTimer k) (after_get (tm_opts t) (set_timers w rest))
| StepRespond r status h req rest :
    take_req r (inflight w) = Some (req, rest) ->
    steps_to w (Respond r status h)
             (after_response req status h (answer w req rest))
| StepFail r err u req rest :
    take_req r (inflight w) = Some (req, rest) ->
    steps_to w (Fail r err u)
             (after_error req err u (set_requests w (next_req w) rest))
| StepFailLate r err u req rest :
    take_req r (answered w) = Some (req, rest) ->
    steps_to w (FailLate r err u)
             (after_error req err u (set_answered w rest)).

(** *** Invariants of a run *)

(** Exactly one continuation of the request exists at any time: it is in
    flight, waiting for a timer, waiting in the immediate queue, or it has
    been published as the terminal event. *)
Definition balanced (w : World) : Prop :=
  (live w + List.length (terminal_events w) = 1)%nat.

(** All descriptors the engine still holds carry the policy [pol]. *)
Definition policy_is (pol : RetryPolicy) (w : World) : Prop :=
  Forall (fun q => retries (req_opts q) = pol) (inflight w)
  /\ Forall (fun t => retries (tm_opts t) = pol) (timers w)
  /\ 0 <= retryCount w /\ 0 <= redirectCount w.

(** An upper bound on the number of steps the host can still take. *)
Definition potential (K : Z) (w : World) : nat :=
  (4 * Z.to_nat (11 - redirectCount w)
   + 6 * Z.to_nat (K + 1 - retryCount w)
   + 3 * List.length (inflight w) + 5 * List.length (timers w)
   + List.length (immediates w))%nat.

(** The formal content of "the engine publishes exactly one terminal event",
    for a transport that reports each request once (the prompt schedules):
    every run of the host is finite, a run that is not over can go on, no run
    ever holds two terminal events, a run that is over holds exactly one,
    nothing is live once the terminal event is out, and the [error] events
    carry errors of the taxonomy. *)
Definition one_terminal_event (w0 : World) : Prop :=
  (exists N : nat, forall sched w,
      prompt_schedule sched ->
      run w0 sched = Some w -> (List.length sched <= N)%nat)
  /\ (forall sched w,
        prompt_schedule sched ->
        run w0 sched = Some w ->
        (~ quiescent w -> exists l w', prompt l = true /\ step w l = Some w')
        /\ (List.length (terminal_events w) <= 1)%nat
        /\ (quiescent w -> List.length (terminal_events w) = 1%nat)
        /\ (List.length (terminal_events w) = 1%nat -> live w = O)
        /\ Forall taxonomy_event (events w)).

(** *** The adapters *)

Definition is_rejected_with (e : JsError) (r : Buffered * World) : Prop :=
  promise (fst r) = Rejected e.

(** Reading the body worked and, where JSON decoding applies, so did the
    parse. *)
Definition decodes (opts : Opts) (data : string) : Prop :=
  json opts && truthy_body (drained_value opts data) = true ->
  json_parse (body_text (drained_value opts data)) <> None.

Definition thrown {A} (c : Completion JsError A) : option JsError :=
  match c with Throw e => Some e | Normal _ => None end.

(** *** The order of the events *)

(** What matters of an emission, or of an immediate that will become one,
    for the order of [request] and [response]. *)
Inductive Mark :=
| MRequest (r : ReqId)
| MResponse (r : ReqId)
| MOther.

Definition event_mark (ev : Event) : Mark :=
  match ev with
  | EvRequest req => MRequest (req_id req)
  | EvResponse res => MResponse (res_req res)
  | _ => MOther
  end.

Definition task_mark (t : Task) : Mark :=
  match t with
  | EmitRequest req => MRequest (req_id req)
  | EmitResponse _ res => MResponse (res_req res)
  end.

(** The emissions made so far, followed by those the immediate queue
    holds. *)
Definition timeline (w : World) : list Mark :=
  (map event_mark (events w) ++ map task_mark (immediates w))%list.

(** Every [response] mark comes after a [request] mark of the same
    request; [seen] holds the requests met so far. *)
Fixpoint ordered (seen : list ReqId) (tl : list Mark) : Prop :=
  match tl with
  | [] => True
  | MRequest r :: rest => ordered (r :: seen) rest
  | MResponse r :: rest => In r seen /\ ordered seen rest
  | MOther :: rest => ordered seen rest
  end.

Fixpoint requested (seen : list ReqId) (tl : list Mark) : list ReqId :=
  match tl with
  | [] => seen
  | MRequest r :: rest => requested (r :: seen) rest
  | _ :: rest => requested seen rest
  end.

Definition is_response (ev : Event) : bool :=
  match ev with EvResponse _ => true | _ => false end.

(** The invariant: the timeline is ordered, and every request in flight
    has its [request] mark in it. *)
Definition in_order (w : World) : Prop :=
  ordered [] (timeline w)
  /\ forall q, In q (inflight w) -> In (req_id q) (requested [] (timeline w)).

(** A request in flight has had its [request] event published, or the
    immediate that will publish it is still in the queue. *)
Definition announced (w : World) : Prop :=
  forall q, In q (inflight w) ->
            In (EvRequest q) (events w) \/ In (EmitRequest q) (immediates w).

(** *** Chains of redirects *)

(** The name of the error an [error] event carries. *)
Definition error_name (ev : Event) : option ErrorName :=
  match ev with
  | EvError err _ => Some (e_name err)
  | _ => None
  end.

(** The schedule of the scenario of the specification: [/old] answers 301
    with location [/new], and [/new] answers 200. *)
Definition old_to_new : list Label :=
  [RunImmediate; Respond O 301 [("location", "/new")];
   RunImmediate; Respond 1%nat 200 []; RunImmediate].

(** What the transport reported in the course of a schedule. *)
Inductive Report :=
| Responded (status : Z) (h : Headers)
| Failed (err : TransportError).

Fixpoint reports (sched : list Label) : list Report :=
  match sched with
  | [] => []
  | Respond _ status h :: rest => Responded status h :: reports rest
  | Fail _ err _ :: rest | FailLate _ err _ :: rest =>
      Failed err :: reports rest
  | _ :: rest => reports rest
  end.












End Vocabulary.

(* ===================================================================== *)
(** ** Vocabulary for the normaliser, the attempts and the adapters *)
(* ===================================================================== *)

(** The value [Math.random()] yields lies in [[0, 1)]. *)
Definition random_draw (l : Label) : Prop :=
  match l with
  | Fail _ _ u | FailLate _ _ u => (0 <= u)%Q /\ (u < 1)%Q
  | _ => True
  end.

Definition is_request (ev : Event) : bool :=
  match ev with EvRequest _ => true | _ => false end.

Definition is_redirect_event (ev : Event) : bool :=
  match ev with EvRedirect _ _ => true | _ => false end.

(** The number of [request] events among [evs]. *)
Definition request_count (evs : list Event) : nat :=
  List.length (filter is_request evs).

(** What the ['request'] listener of [asPromise] does with the requests of
    a logical request whose body is [b], one after the other. *)
Definition buffered_wirings (b : option Body) (n : nat) : list Wiring :=
  match b with
  | Some (BStream _) =>
      match n with
      | O => []
      | S m => PipeBody :: repeat (EndWith None) m
      end
  | _ => repeat (EndWith b) n
  end.

Section Further.
Context {P : Platform}.

(** The options after the merge of lines 216-226, for a [url] argument that
    passes the tests of lines 203-214. *)
Definition merged_options (url : UrlArg) (opts : UserOptions)
  : option UserOptions :=
  match check_url url with
  | Normal uo => Some (merge_options uo opts)
  | Throw _ => None
  end.

(** The retry policy of the descriptor, from the merged options (lines
    290-303). *)
Definition policy_of (g : UserOptions) : RetryPolicy :=
  match o_retries g with
  | Some (RetryFn f) => f
  | Some (RetryCount n) => default_retries n
  | Some (RetryOther e) => constant_retries e
  | None => default_retries 2
  end.

(** The headers the caller gave, with lower-cased names (line 231). *)
Definition caller_headers (g : UserOptions) : Headers :=
  lowercaseKeys (match o_headers g with Some h => h | None => [] end).

(** The query as the normaliser appends it (lines 236-240). *)
Definition query_string (q : Query) : string :=
  match q with
  | QueryString s => s
  | QueryObject o => qs_stringify o
  end.

(** The content type the normaliser declares for a body when the caller
    declared none (lines 259-268). *)
Definition default_content_type (g : UserOptions) : option string :=
  match o_body g with
  | Some (BStream (Some boundary)) =>
      Some ("multipart/form-data; boundary=" ++ boundary)
  | Some (BPlain _) =>
      if o_form g then Some "application/x-www-form-urlencoded"
      else if o_json g then Some "application/json"
      else None
  | _ => None
  end.

(** The length the normaliser computes on line 271. *)
Definition body_length (b : option Body) : option string :=
  match b with
  | Some (BString s) => Some (show (byteLength s))
  | Some (BBuffer s) => Some (show (bufferLength s))
  | _ => None
  end.

(** The descriptor a callback waiting for the host was created with, and
    the descriptors an event carries. *)
Definition task_opts (t : Task) : Opts :=
  match t with
  | EmitRequest req | EmitResponse req _ => req_opts req
  end.

Definition event_opts (ev : Event) : list Opts :=
  match ev with
  | EvRequest req => [req_opts req]
  | EvRedirect _ redirectOpts => [redirectOpts]
  | _ => []
  end.

(** [Pr] holds of every descriptor a world knows of: those of the requests,
    timers and immediates the host holds, and those the events published so
    far carry. *)
Definition known (Pr : Opts -> Prop) (w : World) : Prop :=
  Forall (fun q => Pr (req_opts q)) (inflight w)
  /\ Forall (fun q => Pr (req_opts q)) (answered w)
  /\ Forall (fun t => Pr (tm_opts t)) (timers w)
  /\ Forall (fun t => Pr (task_opts t)) (immediates w)
  /\ Forall (fun ev => Forall Pr (event_opts ev)) (events w).

(** [o'] has the options of [o] and, possibly, another URL. The body is
    left out: [asPromise] resets [opts.body] on the descriptor it shares
    with the engine (line 103), and the engine never reads it. *)
Definition same_options (o o' : Opts) : Prop :=
  headers o' = headers o /\ method o' = method o
  /\ json o' = json o /\ form o' = form o /\ encoding o' = encoding o
  /\ followRedirect o' = followRedirect o /\ retries o' = retries o
  /\ gotTimeout o' = gotTimeout o /\ socketPath o' = socketPath o.

(** The requests and timers created so far are paid for: one request to
    begin with, one for each redirect followed (at most 10), one for each
    retry granted (at most [K]). *)
Definition within_budget (K : Z) (w : World) : Prop :=
  Z.of_nat (next_req w + List.length (timers w))
  <= 1 + Z.min (redirectCount w) 10 + Z.min (retryCount w) K.

(** The calls of [timedOut] for the first [n] requests. *)
Definition deadlines_for (t : option Z) (n : nat) : list (ReqId * Z) :=
  match t with
  | Some t => if (t =? 0)%Z then [] else map (fun r => (r, t)) (seq 0 n)
  | None => []
  end.

(** The world while every attempt fails: [k] failures so far, and either
    the request [k] is in flight or the timer that will create it is
    pending. *)
Definition attempting (o : Opts) (k : nat) (w : World) : Prop :=
  listening w = true /\ retryCount w = Z.of_nat k
  /\ terminal_events w = [] /\ answered w = []
  /\ Forall (fun t => is_publish t = false) (immediates w)
  /\ ((inflight w = [{| req_id := k; req_opts := o |}]
       /\ timers w = [] /\ next_req w = S k)
      \/ (inflight w = [] /\ next_req w = k
          /\ exists d, timers w = [{| tm_delay := d; tm_opts := o |}])).

(** Nothing is left that could publish an event other than [request]. *)
Definition settled (w : World) : Prop :=
  inflight w = [] /\ answered w = [] /\ timers w = []
  /\ Forall (fun t => is_publish t = false) (immediates w).

(** What a terminal event of the engine makes of a pending promise
    (lines 110-141). *)
Definition settle (opts : Opts) (drain : ReqId -> Drain) (ev : Event)
  : PromiseState :=
  match ev with
  | EvResponse res => on_response_buffered opts res (drain (res_req res)) Pending
  | EvError err _ => Rejected err
  | _ => Pending
  end.

(** The event the duplex emits for an event of the engine
    (lines 162-197). *)
Definition forwarded (opts : Opts) (ev : Event) : Event :=
  match ev with
  | EvResponse res => on_response_stream opts res
  | _ => ev
  end.

End Further.

(* ===================================================================== *)
(** ** Concrete descriptors and schedules *)
(* ===================================================================== *)

(** The default policy for [retries: 2]. It is kept folded, so that running
    the model on the descriptors below does not unfold its arithmetic. *)
Lemma default_policy_2 :
  { f : RetryPolicy | f = @default_retries Node.platform 2 }.
Proof. exists (@default_retries Node.platform 2). reflexivity. Qed.

Definition example_retries : RetryPolicy := proj1_sig default_policy_2.

(** The descriptor of [got('http://example.test/old')]. *)
Definition example_opts : Opts :=
  {| target := Node.parse "http://example.test/old";
     headers := [("user-agent", "got/6.7.1 (https://github.com/sindresorhus/got)");
                 ("accept-encoding", "gzip,deflate")];
     method := "GET";
     body := None;
     json := false;
     form := false;
     encoding := None;
     followRedirect := true;
     retries := example_retries;
     gotTimeout := None;
     socketPath := "" |}.

Definition with_retries (o : Opts) (f : RetryPolicy) : Opts :=
  {| target := target o; headers := headers o; method := method o;
     body := body o; json := json o; form := form o;
     encoding := encoding o; followRedirect := followRedirect o;
     retries := f; gotTimeout := gotTimeout o; socketPath := socketPath o |}.

(** A descriptor without its retry policy, to compare two descriptors
    field by field. *)
Definition blank_retries (o : Opts) : Opts :=
  with_retries o (fun _ _ _ => 0%Q).

Definition with_json (o : Opts) (b : bool) : Opts :=
  {| target := target o; headers := headers o; method := method o;
     body := body o; json := b; form := form o;
     encoding := encoding o; followRedirect := followRedirect o;
     retries := retries o; gotTimeout := gotTimeout o;
     socketPath := socketPath o |}.

Definition with_target (o : Opts) (u : UrlObject) : Opts :=
  redirect_assign o u.

(** [got(url, {retries: () => 1})]: a caller's policy that always asks for
    another attempt, one millisecond later. *)
Definition forever_opts : Opts := with_retries example_opts (fun _ _ _ => 1%Q).

(** A connection reset. *)
Definition econnreset : TransportError :=
  {| te_code := Some "ECONNRESET"; te_message := "socket hang up" |}.

(** The same descriptor with the default policy unfolded, for the runs in
    which the policy is asked. *)
Definition default_opts : Opts :=
  with_retries example_opts (@default_retries Node.platform 2).

(** The request 0 is answered and its response published; then its
    connection breaks, the retry timer fires, and the request 1 is
    answered. *)
Definition late_failure : list Label :=
  [RunImmediate; Respond O 200 []; RunImmediate;
   FailLate O econnreset 0%Q; FireTimer 0;
   RunImmediate; Respond 1%nat 200 []; RunImmediate].

(** The host reports a failure for each attempt and fires each retry
    timer. *)
Fixpoint retry_loop (n : nat) (k : ReqId) : list Label :=
  match n with
  | O => []
  | S n' => Fail k econnreset 0%Q :: FireTimer 0 :: retry_loop n' (S k)
  end.

Definition looping (k : ReqId) (w : World) : Prop :=
  inflight w = [{| req_id := k; req_opts := forever_opts |}]
  /\ timers w = [] /\ next_req w = S k /\ listening w = true
  /\ terminal_events w = [].

(** A response with status [code] and no headers of interest. *)
Definition plain_response (code : Z) : Response :=
  {| res_req := O; statusCode := code; res_headers := [];
     res_url := "http://example.test/old";
     res_requestUrl := "http://example.test/old";
     res_decompressed := true |}.

(** The descriptor of [got.stream('ftp://example.test/file')]. *)
Definition ftp_opts : Opts :=
  with_target example_opts (Node.parse "ftp://example.test/file").

(** Ten redirects to [/new], each followed, then an eleventh. *)
Definition ten_redirects : list Label :=
  map (fun k => Respond k 302 [("location", "/new")]) (seq 0 10).

(** A descriptor whose policy never retries: [retries: () => 0]. *)
Definition no_retry_opts : Opts := with_retries example_opts (fun _ _ _ => 0%Q).

(** The descriptor of [got('http://example.test/old', {timeout: 5000})]. *)
Definition timeout_opts : Opts :=
  {| target := target example_opts; headers := headers example_opts;
     method := method example_opts; body := body example_opts;
     json := json example_opts; form := form example_opts;
     encoding := encoding example_opts;
     followRedirect := followRedirect example_opts;
     retries := retries example_opts; gotTimeout := Some 5000;
     socketPath := socketPath example_opts |}.

(** The descriptor of [got.post('http://example.test/old')]. *)
Definition post_opts : Opts :=
  {| target := target example_opts; headers := headers example_opts;
     method := "POST"; body := body example_opts;
     json := json example_opts; form := form example_opts;
     encoding := encoding example_opts;
     followRedirect := followRedirect example_opts;
     retries := retries example_opts; gotTimeout := gotTimeout example_opts;
     socketPath := socketPath example_opts |}.

(** The descriptor of [got.post('http://example.test/old', {body: stream})]. *)
Definition upload_opts : Opts :=
  {| target := target example_opts; headers := headers example_opts;
     method := "POST"; body := Some (BStream None);
     json := json example_opts; form := form example_opts;
     encoding := encoding example_opts;
     followRedirect := followRedirect example_opts;
     retries := retries example_opts; gotTimeout := gotTimeout example_opts;
     socketPath := socketPath example_opts |}.

(** Every attempt fails with a connection reset, and every retry timer
    fires. *)
Definition three_failures : list Label :=
  [RunImmediate; Fail O econnreset (1 # 2); FireTimer 0;
   Fail 1%nat econnreset 0%Q; RunImmediate; FireTimer 0;
   Fail 2%nat econnreset (1 # 3); RunImmediate].


(** Ten redirects are followed; the connection of the request 3, whose
    response was handed over long ago, breaks and the policy grants a retry;
    the eleventh redirect arrives; then the retry timer fires and the request
    it creates is answered with 200. *)
Definition late_failure_before_eleventh : list Label :=
  (ten_redirects ++ [FailLate 3%nat econnreset 0%Q])%list.

Definition retry_after_eleventh : list Label :=
  (FireTimer 0 :: Respond 11%nat 200 [] :: repeat RunImmediate 13)%list.

(** The URL of the examples. *)
Definition example_url : UrlArg := UrlString "http://example.test/old".

(** The options [{body: 'hello', headers: {'x-token': 'abc'}}]. *)
Definition post_options : UserOptions :=
  {| o_url := empty_url; o_headers := Some [("x-token", "abc")];
     o_query := None; o_json := false; o_form := false;
     o_body := Some (BString "hello"); o_method := ""; o_retries := None;
     o_followRedirect := None; o_timeout := None; o_encoding := None |}.

(** The options [{json: true, body: {}}]. *)
Definition json_options : UserOptions :=
  {| o_url := empty_url; o_headers := None; o_query := None; o_json := true;
     o_form := false; o_body := Some (BPlain []); o_method := "";
     o_retries := None; o_followRedirect := None; o_timeout := None;
     o_encoding := None |}.

(** The options [{query: 'page=2'}]. *)
Definition query_options : UserOptions :=
  {| o_url := empty_url; o_headers := None;
     o_query := Some (QueryString "page=2"); o_json := false;
     o_form := false; o_body := None; o_method := ""; o_retries := None;
     o_followRedirect := None; o_timeout := None; o_encoding := None |}.

(** The options [{timeout: 5000}]. *)
Definition timeout_options : UserOptions :=
  {| o_url := empty_url; o_headers := None; o_query := None; o_json := false;
     o_form := false; o_body := None; o_method := ""; o_retries := None;
     o_followRedirect := None; o_timeout := Some 5000; o_encoding := None |}.

(** The options after the merge, for the example URL. *)
Definition given (url : string) (opts : UserOptions) : UserOptions :=
  merge_options (with_url no_options (Node.parse_lax url)) opts.

(* ===================================================================== *)
(** ** Basic facts *)
(* ===================================================================== *)

Lemma take_req_length r l q rest :
  take_req r l = Some (q, rest) -> List.length l = S (List.length rest).
Proof.
  revert q rest; induction l as [|x l IH]; intros q rest; simpl; [discriminate|].
  destruct (Nat.eqb (req_id x) r).
  - intros [= <- <-]; reflexivity.
  - destruct (take_req r l) as [[y rest']|]; [|discriminate].
    intros [= <- <-]; simpl; f_equal; eapply IH; reflexivity.
Qed.

Lemma take_req_id r l q rest :
  take_req r l = Some (q, rest) -> req_id q = r.
Proof.
  revert q rest; induction l as [|x l IH]; intros q rest; simpl; [discriminate|].
  destruct (Nat.eqb (req_id x) r) eqn:E.
  - intros [= <- <-]; now apply Nat.eqb_eq.
  - destruct (take_req r l) as [[y rest']|]; [|discriminate].
    intros [= <- <-]; eapply IH; reflexivity.
Qed.

Lemma take_req_in r l q rest :
  take_req r l = Some (q, rest) ->
  In q l /\ (forall x, In x rest -> In x l).
Proof.
  revert q rest; induction l as [|x l IH]; intros q rest; simpl; [discriminate|].
  destruct (Nat.eqb (req_id x) r).
  - intros [= <- <-]; split; auto.
  - destruct (take_req r l) as [[y rest']|]; [|discriminate].
    intros [= <- <-]. destruct (IH _ _ eq_refl) as [H1 H2]. split; auto.
    intros z [->|Hz]; auto.
Qed.

Lemma take_nth_length {A} k (l : list A) x rest :
  take_nth k l = Some (x, rest) -> List.length l = S (List.length rest).
Proof.
  revert k x rest; induction l as [|y l IH]; intros [|k] x rest; simpl;
    try discriminate.
  - intros [= <- <-]; reflexivity.
  - destruct (take_nth k l) as [[z rest']|] eqn:E; [|discriminate].
    intros [= <- <-]; simpl; f_equal; eapply IH; eassumption.
Qed.

Lemma take_nth_in {A} k (l : list A) x rest :
  take_nth k l = Some (x, rest) ->
  In x l /\ (forall y, In y rest -> In y l).
Proof.
  revert k x rest; induction l as [|y l IH]; intros [|k] x rest; simpl;
    try discriminate.
  - intros [= <- <-]; split; auto.
  - destruct (take_nth k l) as [[z rest']|] eqn:E; [|discriminate].
    intros [= <- <-]. destruct (IH _ _ _ E) as [H1 H2]. split; auto.
    intros v [->|Hv]; auto.
Qed.

Lemma run_app `{Platform} w s1 s2 :
  run w (s1 ++ s2) =
  match run w s1 with Some w' => run w' s2 | None => None end.
Proof.
  revert w; induction s1 as [|l s1 IH]; intros w; simpl; [reflexivity|].
  destruct (step w l); auto.
Qed.

(** Running the engine's code step by step. *)
Ltac exec :=
  unfold step, callback, run_task, on_response, on_error, get, emit,
    fn_request, timedOut, setImmediate, setTimeout, bind, ret, throw, read,
    modify in *;
  simpl in *.

(** Reduce the projections of an updated world, and nothing else. *)
Ltac fields :=
  cbn [requestUrl redirectCount retryCount redirectUrl listening emitted
       next_req inflight answered deadlines immediates timers uncaught
       set_redirectCount set_retryCount set_redirectUrl set_listening
       set_emitted set_requests set_answered answer set_deadlines
       set_immediates set_timers set_uncaught] in *.

Section Invariants.
Context {P : Platform}.

(** *** [get] *)

Lemma get_listening opts w :
  listening w = true -> get opts w = (Normal tt, after_get opts w).
Proof.
  intros L. unfold after_get. exec.
  destruct (supported_protocol (protocol opts)); simpl.
  - destruct (gotTimeout opts) as [t|]; simpl; [|reflexivity].
    destruct (t =? 0)%Z; reflexivity.
  - rewrite L. reflexivity.
Qed.

(** *** The callbacks *)

Lemma on_response_listening req status h w :
  listening w = true ->
  callback (on_response req status h) w = after_response req status h w.
Proof.
  intros L. unfold callback, on_response, after_response, bind, read, modify.
  destruct (follows (req_opts req) status h); [|reflexivity].
  simpl. destruct (redirectCount w + 1 >? 10).
  - unfold emit, bind, read, modify, ret. simpl. rewrite L. reflexivity.
  - rewrite get_listening by exact L. reflexivity.
Qed.

Lemma on_error_listening req err u w :
  listening w = true ->
  callback (on_error req err u) w = after_error req err u w.
Proof.
  intros L. unfold callback, on_error, after_error, bind, read, modify. simpl.
  destruct (truthy_num _); [reflexivity|].
  unfold emit, bind, read, modify, ret. simpl. rewrite L. reflexivity.
Qed.

Lemma run_task_listening t w :
  listening w = true -> callback (run_task t) w = after_task t w.
Proof.
  intros L. destruct t; unfold callback, run_task, after_task, emit, bind,
    read, modify, ret; simpl; try rewrite L; reflexivity.
Qed.

Lemma get_callback opts w :
  listening w = true -> callback (get opts) w = after_get opts w.
Proof. intros L. unfold callback. rewrite get_listening by exact L. reflexivity. Qed.

Lemma step_steps_to w l w' :
  listening w = true -> step w l = Some w' -> steps_to w l w'.
Proof.
  intros L. destruct l; simpl.
  - destruct (immediates w) as [|t rest] eqn:E; [discriminate|].
    intros [= <-]. rewrite run_task_listening by exact L. now constructor.
  - destruct (take_nth k (timers w)) as [[t rest]|] eqn:E; [|discriminate].
    intros [= <-]. rewrite get_callback by exact L. econstructor; eassumption.
  - destruct (take_req r (inflight w)) as [[req rest]|] eqn:E; [|discriminate].
    intros [= <-]. rewrite on_response_listening by exact L. now constructor.
  - destruct (take_req r (inflight w)) as [[req rest]|] eqn:E; [|discriminate].
    intros [= <-]. rewrite on_error_listening by exact L. now constructor.
  - destruct (take_req r (answered w)) as [[req rest]|] eqn:E; [|discriminate].
    intros [= <-]. rewrite on_error_listening by exact L. now constructor.
Qed.

Lemma after_get_listening opts w : listening (after_get opts w) = listening w.
Proof.
  unfold after_get. destruct (supported_protocol _); [|reflexivity].
  destruct (gotTimeout opts) as [t|]; [destruct (t =? 0)%Z|]; reflexivity.
Qed.

Lemma steps_to_listening w l w' :
  steps_to w l w' -> listening w' = listening w.
Proof.
  intros S; destruct S; simpl.
  - reflexivity.
  - now rewrite after_get_listening.
  - unfold after_response. destruct (follows _ _ _); [|reflexivity].
    destruct (_ >? 10); [reflexivity|]. now rewrite after_get_listening.
  - unfold after_error. destruct (truthy_num _); reflexivity.
  - unfold after_error. destruct (truthy_num _); reflexivity.
Qed.

Lemma forallb_true {A} (l : list A) : forallb (fun _ => true) l = true.
Proof. induction l; simpl; auto. Qed.

(** Induction over a run of the host whose labels all satisfy [ok]. *)
Lemma run_ind_labels (ok : Label -> bool) (I : World -> Prop) :
  (forall w l w',
      listening w = true -> ok l = true -> I w -> steps_to w l w' -> I w') ->
  forall sched w w',
    forallb ok sched = true ->
    listening w = true -> I w -> run w sched = Some w' ->
    I w' /\ listening w' = true.
Proof.
  intros Hstep sched; induction sched as [|l sched IH]; intros w w' Hok L HI;
    simpl.
  - intros [= <-]; auto.
  - simpl in Hok. apply andb_prop in Hok. destruct Hok as [Hl Hs].
    destruct (step w l) as [w1|] eqn:E; [|discriminate].
    apply step_steps_to in E; [|exact L]. intros Hrun.
    eapply (IH w1); eauto.
    rewrite (steps_to_listening _ _ _ E); exact L.
Qed.

(** Induction over any run, and over a run with a prompt transport. *)
Lemma run_ind_listening (I : World -> Prop) :
  (forall w l w', listening w = true -> I w -> steps_to w l w' -> I w') ->
  forall sched w w',
    listening w = true -> I w -> run w sched = Some w' ->
    I w' /\ listening w' = true.
Proof.
  intros Hstep sched w w'.
  apply (run_ind_labels (fun _ => true) I); [eauto | apply forallb_true].
Qed.

Lemma run_ind_prompt (I : World -> Prop) :
  (forall w l w',
      listening w = true -> prompt l = true -> I w -> steps_to w l w' -> I w') ->
  forall sched w w',
    forallb prompt sched = true ->
    listening w = true -> I w -> run w sched = Some w' ->
    I w' /\ listening w' = true.
Proof. apply run_ind_labels. Qed.

End Invariants.

(* ===================================================================== *)
(** ** One terminal event per logical request *)
(* ===================================================================== *)

Section Settling.
Context {P : Platform}.

Ltac measures :=
  unfold live, terminal_events, events in *; simpl in *;
  rewrite ?map_app, ?filter_app, ?length_app in *; simpl in *.

Lemma after_get_balance opts w :
  (live (after_get opts w) + List.length (terminal_events (after_get opts w))
   = S (live w + List.length (terminal_events w)))%nat.
Proof.
  unfold after_get. destruct (supported_protocol _).
  - destruct (gotTimeout opts) as [t|]; [destruct (t =? 0)%Z|];
      measures; lia.
  - measures; lia.
Qed.

Lemma steps_to_balanced w l w' :
  prompt l = true -> steps_to w l w' -> balanced w -> balanced w'.
Proof.
  unfold balanced. intros Hp S B; destruct S; [| | | |discriminate].
  - unfold after_task. destruct t; measures; rewrite H in B; simpl in B; lia.
  - rewrite after_get_balance. apply take_nth_length in H.
    measures. lia.
  - apply take_req_length in H. unfold after_response.
    destruct (follows _ _ _).
    + destruct (_ >? 10).
      * measures. lia.
      * rewrite after_get_balance. measures. lia.
    + measures. lia.
  - apply take_req_length in H. unfold after_error.
    destruct (truthy_num _); measures; lia.
Qed.

Lemma start_listening opts : listening (start opts) = true.
Proof. reflexivity. Qed.

Lemma get_world opts w : snd (get opts w) = after_get opts w.
Proof.
  unfold after_get. exec.
  destruct (supported_protocol (protocol opts)); simpl.
  - destruct (gotTimeout opts) as [t|]; [destruct (t =? 0)%Z|]; reflexivity.
  - destruct (listening w); reflexivity.
Qed.

Lemma start_eq opts :
  start opts = set_listening (after_get opts (new_world opts)) true.
Proof. unfold start, requestAsEventEmitter, listen. now rewrite get_world. Qed.

Lemma start_balanced opts : balanced (start opts).
Proof.
  unfold balanced. rewrite start_eq.
  pose proof (after_get_balance opts (new_world opts)) as H.
  unfold live, terminal_events, events in *. fields. rewrite H. reflexivity.
Qed.

Lemma run_balanced opts sched w :
  forallb prompt sched = true ->
  run (start opts) sched = Some w -> balanced w /\ listening w = true.
Proof.
  intros Hp. apply (run_ind_prompt balanced); auto.
  - intros; eapply steps_to_balanced; eauto.
  - apply start_balanced.
Qed.

(** *** Every run is finite when the policy stops *)

Ltac potentials :=
  unfold potential in *; fields;
  rewrite ?length_app in *; cbn [List.length] in *.

Lemma after_get_potential K opts w :
  (potential K (after_get opts w) <= potential K w + 4)%nat.
Proof.
  unfold after_get. destruct (supported_protocol _).
  - destruct (gotTimeout opts) as [t|]; [destruct (t =? 0)%Z|];
      potentials; lia.
  - potentials; lia.
Qed.

Lemma after_get_policy pol opts w :
  retries opts = pol -> policy_is pol w -> policy_is pol (after_get opts w).
Proof.
  intros Hp (Hi & Ht & Hr & Hd). unfold after_get, policy_is.
  destruct (supported_protocol _).
  - destruct (gotTimeout opts) as [t|]; [destruct (t =? 0)%Z|]; simpl;
      (repeat split; auto; apply Forall_app; split; auto).
  - simpl. auto.
Qed.

Lemma steps_to_policy pol w l w' :
  prompt l = true -> steps_to w l w' -> policy_is pol w -> policy_is pol w'.
Proof.
  intros Hp S (Hi & Ht & Hr & Hd); destruct S; [| | | |discriminate].
  - unfold after_task, policy_is; simpl; auto.
  - destruct (take_nth_in _ _ _ _ H) as [Hin Hsub].
    apply after_get_policy.
    + rewrite Forall_forall in Ht. now apply Ht.
    + unfold policy_is; simpl. repeat split; auto.
      rewrite Forall_forall in *. auto.
  - destruct (take_req_in _ _ _ _ H) as [Hin Hsub].
    assert (Hq : retries (req_opts req) = pol)
      by (rewrite Forall_forall in Hi; now apply Hi).
    assert (Hrest : Forall (fun q => retries (req_opts q) = pol) rest)
      by (rewrite Forall_forall in *; auto).
    unfold after_response. destruct (follows _ _ _).
    + destruct (_ >? 10).
      * unfold policy_is; simpl. repeat split; auto; lia.
      * apply after_get_policy; [exact Hq|].
        unfold policy_is; simpl. repeat split; auto; lia.
    + unfold policy_is; simpl. auto.
  - destruct (take_req_in _ _ _ _ H) as [Hin Hsub].
    assert (Hq : retries (req_opts req) = pol)
      by (rewrite Forall_forall in Hi; now apply Hi).
    assert (Hrest : Forall (fun q => retries (req_opts q) = pol) rest)
      by (rewrite Forall_forall in *; auto).
    unfold after_error. destruct (truthy_num _).
    + unfold policy_is; simpl. repeat split; auto; try lia.
      apply Forall_app; split; auto.
    + unfold policy_is; simpl. repeat split; auto; lia.
Qed.

Lemma steps_to_potential K pol w l w' :
  stops_after K pol -> prompt l = true ->
  steps_to w l w' -> policy_is pol w ->
  (S (potential K w') <= potential K w)%nat.
Proof.
  intros Hstop Hp S (Hi & Ht & Hr & Hd); destruct S; [| | | |discriminate].
  - unfold after_task. potentials. rewrite H. simpl. lia.
  - apply take_nth_length in H.
    pose proof (after_get_potential K (tm_opts t) (set_timers w rest)) as G.
    potentials. lia.
  - apply take_req_length in H. unfold after_response.
    destruct (follows _ _ _).
    + destruct (_ >? 10) eqn:E; fields; rewrite Z.gtb_ltb in E.
      * potentials. lia.
      * apply Z.ltb_ge in E.
        match goal with |- (S (potential K (after_get ?o ?x)) <= _)%nat =>
          pose proof (after_get_potential K o x) as G end.
        potentials. lia.
    + potentials. lia.
  - destruct (take_req_in _ _ _ _ H) as [Hin _].
    assert (Hq : retries (req_opts req) = pol)
      by (rewrite Forall_forall in Hi; now apply Hi).
    apply take_req_length in H. unfold after_error.
    destruct (truthy_num _) eqn:E; fields.
    + assert (retryCount w + 1 <= K).
      { destruct (Z_le_gt_dec (retryCount w + 1) K) as [|G]; [assumption|].
        rewrite Hq, Hstop in E by lia. discriminate. }
      potentials. lia.
    + potentials. lia.
Qed.

Lemma run_potential K pol sched w w' :
  stops_after K pol -> forallb prompt sched = true ->
  listening w = true -> policy_is pol w -> run w sched = Some w' ->
  (List.length sched + potential K w' <= potential K w)%nat.
Proof.
  intros Hstop. revert w; induction sched as [|l sched IH]; intros w Hok L Hp;
    simpl.
  - intros [= <-]; lia.
  - simpl in Hok. apply andb_prop in Hok. destruct Hok as [Hl Hs].
    destruct (step w l) as [w1|] eqn:E; [|discriminate]. intros Hrun.
    apply step_steps_to in E; [|exact L].
    pose proof (steps_to_potential K pol _ _ _ Hstop Hl E Hp).
    assert (listening w1 = true)
      by (rewrite (steps_to_listening _ _ _ E); exact L).
    pose proof (IH w1 Hs H0 (steps_to_policy _ _ _ _ Hl E Hp) Hrun). lia.
Qed.

Lemma start_policy opts : policy_is (retries opts) (start opts).
Proof.
  rewrite start_eq.
  assert (H0 : policy_is (retries opts) (new_world opts))
    by (unfold policy_is; simpl; repeat split; auto; lia).
  pose proof (after_get_policy (retries opts) opts _ eq_refl H0) as H.
  unfold policy_is in *. fields. exact H.
Qed.

Lemma new_world_potential K opts :
  potential K (new_world opts) = (44 + 6 * Z.to_nat (K + 1))%nat.
Proof.
  unfold potential, new_world. fields. cbn [List.length].
  replace (11 - 0) with 11 by lia. replace (K + 1 - 0) with (K + 1) by lia.
  lia.
Qed.

Lemma start_potential K opts :
  (potential K (start opts) <= 48 + 6 * Z.to_nat (K + 1))%nat.
Proof.
  rewrite start_eq.
  pose proof (after_get_potential K opts (new_world opts)) as H.
  rewrite new_world_potential in H.
  change (potential K (set_listening (after_get opts (new_world opts)) true))
    with (potential K (after_get opts (new_world opts))).
  lia.
Qed.

(** *** Only errors of the taxonomy *)

Lemma taxonomy_emit w e :
  taxonomy_event (em_event e) -> taxonomy_only w ->
  taxonomy_only (set_emitted w (emitted w ++ [e])).
Proof.
  intros He Hw. unfold taxonomy_only, events in *. fields.
  rewrite map_app. apply Forall_app. split; [exact Hw|].
  constructor; [exact He | constructor].
Qed.

Lemma after_get_taxonomy opts w :
  taxonomy_only w -> taxonomy_only (after_get opts w).
Proof.
  intros Hw. unfold after_get. destruct (supported_protocol _).
  - destruct (gotTimeout opts) as [t|]; [destruct (t =? 0)%Z|]; exact Hw.
  - apply taxonomy_emit; [reflexivity | exact Hw].
Qed.

Lemma steps_to_taxonomy w l w' :
  steps_to w l w' -> taxonomy_only w -> taxonomy_only w'.
Proof.
  intros S Hw; destruct S.
  - apply (taxonomy_emit (set_immediates w rest)); [|exact Hw].
    destruct t; exact I.
  - apply after_get_taxonomy. exact Hw.
  - unfold after_response. destruct (follows _ _ _).
    + destruct (_ >? 10).
      * apply (taxonomy_emit (set_redirectCount _ _)); [reflexivity|exact Hw].
      * apply after_get_taxonomy.
        apply (taxonomy_emit (set_redirectUrl (set_redirectCount _ _) _));
          [exact I|exact Hw].
    + exact Hw.
  - unfold after_error. destruct (truthy_num _).
    + exact Hw.
    + apply (taxonomy_emit (set_retryCount _ _)); [reflexivity|exact Hw].
  - unfold after_error. destruct (truthy_num _).
    + exact Hw.
    + apply (taxonomy_emit (set_retryCount _ _)); [reflexivity|exact Hw].
Qed.

Lemma run_taxonomy opts sched w :
  run (start opts) sched = Some w -> taxonomy_only w /\ listening w = true.
Proof.
  apply (run_ind_listening taxonomy_only).
  - intros; eapply steps_to_taxonomy; eauto.
  - apply start_listening.
  - rewrite start_eq.
    assert (H0 : taxonomy_only (new_world opts)) by constructor.
    exact (after_get_taxonomy opts _ H0).
Qed.

(** *** Progress *)

Lemma progress w :
  ~ quiescent w -> exists l w', prompt l = true /\ step w l = Some w'.
Proof.
  intros NQ. destruct (immediates w) as [|t rest] eqn:Ei.
  - destruct (timers w) as [|t rest] eqn:Et.
    + destruct (inflight w) as [|q rest] eqn:Eq.
      * exfalso; apply NQ; repeat split; assumption.
      * exists (Fail (req_id q) {| te_code := None; te_message := "" |} 0%Q).
        simpl. rewrite Eq. simpl. rewrite Nat.eqb_refl. eauto.
    + exists (FireTimer 0). simpl. rewrite Et. simpl. eauto.
  - exists RunImmediate. simpl. rewrite Ei. eauto.
Qed.

End Settling.

(* ===================================================================== *)
(** ** Running the normaliser *)
(* ===================================================================== *)

Section Normalizing.
Context {P : Platform}.

Lemma normalize_policy url opts o :
  normalizeArguments url opts = Normal o ->
  exists g,
    merged_options url opts = Some g
    /\ retries o = match o_retries g with
                   | Some (RetryFn f) => f
                   | Some (RetryCount n) => default_retries n
                   | Some (RetryOther e) => constant_retries e
                   | None => default_retries 2
                   end.
Proof.
  unfold normalizeArguments, merged_options.
  destruct (check_url url) as [uo|e]; [|discriminate].
  intros Hn. eexists. split; [reflexivity|].
  destruct (o_body (merge_options uo opts)) as [b|].
  - destruct (check_body _ b) as [[]|e]; [|discriminate].
    injection Hn as <-. reflexivity.
  - injection Hn as <-. reflexivity.
Qed.

(** A descriptor is what the normaliser returns when it has its fields and
    the policy of the merged options. *)
Lemma normalized_is url opts o g :
  merged_options url opts = Some g ->
  match normalizeArguments url opts with
  | Normal x => blank_retries x = blank_retries o
  | Throw _ => False
  end ->
  policy_of g = retries o ->
  normalizeArguments url opts = Normal o.
Proof.
  intros Hg. destruct (normalizeArguments url opts) as [x|e] eqn:E; [|tauto].
  destruct (normalize_policy _ _ _ E) as (g' & Hg' & Hr).
  rewrite Hg in Hg'. injection Hg' as <-. fold (policy_of g) in Hr.
  intros Hb Hp. f_equal. destruct x, o. cbn in *.
  unfold blank_retries, with_retries in Hb. cbn in Hb.
  injection Hb; intros; subst. reflexivity.
Qed.

End Normalizing.

(** Running the normaliser on closed arguments: the fields are computed,
    the policy is left as the merged options give it. *)
Ltac normalizes :=
  lazymatch goal with
  | |- @normalizeArguments ?P ?url ?opts = Normal ?o =>
      let m := eval vm_compute in (@merged_options P url opts) in
      lazymatch m with
      | Some ?g =>
          tryif is_evar o then
            let b := eval vm_compute in
                     (match @normalizeArguments P url opts with
                      | Normal x => Some (blank_retries x)
                      | Throw _ => None
                      end) in
            lazymatch b with
            | Some ?x => unify o (with_retries x (@policy_of P g))
            end
          else idtac;
          apply (@normalized_is P url opts o g);
          [ vm_compute; reflexivity | vm_compute; reflexivity | reflexivity ]
      end
  end.

(* ===================================================================== *)
(** ** A request that never ends *)
(* ===================================================================== *)

Lemma example_retries_eq :
  example_retries = @default_retries Node.platform 2.
Proof. exact (proj2_sig default_policy_2). Qed.

(** The concrete descriptors are what the normaliser returns for their
    URLs. *)
Lemma example_opts_normalized :
  normalizeArguments (P := Node.platform)
    (UrlString "http://example.test/old") no_options = Normal example_opts.
Proof.
  change example_opts with (with_retries example_opts example_retries).
  rewrite example_retries_eq. normalizes.
Qed.

Lemma ftp_opts_normalized :
  normalizeArguments (P := Node.platform)
    (UrlString "ftp://example.test/file") no_options = Normal ftp_opts.
Proof.
  change ftp_opts with (with_retries ftp_opts example_retries).
  rewrite example_retries_eq. normalizes.
Qed.

Section Forever.
Import Node.

Lemma loop_once k w :
  looping k w ->
  exists w', run w [Fail k econnreset 0%Q; FireTimer 0] = Some w'
             /\ looping (S k) w'.
Proof.
  intros (Hi & Ht & Hn & L & He).
  unfold run, step. rewrite Hi. cbn [take_req req_id]. rewrite Nat.eqb_refl.
  rewrite on_error_listening by exact L.
  unfold after_error. cbn [req_opts]. fields.
  change (truthy_num (retries forever_opts (retryCount w + 1) econnreset 0%Q))
    with true. cbv iota. fields. rewrite Ht. cbn [app take_nth tm_opts].
  rewrite get_callback by exact L.
  eexists; split; [reflexivity|].
  unfold after_get.
  change (supported_protocol (protocol forever_opts)) with true.
  change (gotTimeout forever_opts) with (@None Z). cbv iota.
  unfold looping, terminal_events, events in *. fields.
  rewrite Hn. repeat split; auto.
Qed.

Lemma loop_many n : forall k w,
  looping k w ->
  exists w', run w (retry_loop n k) = Some w' /\ looping (n + k)%nat w'.
Proof.
  induction n as [|n IH]; intros k w Hl.
  - exists w; split; [reflexivity | exact Hl].
  - destruct (loop_once k w Hl) as (w1 & R1 & L1).
    destruct (IH (S k) w1 L1) as (w2 & R2 & L2).
    exists w2. split.
    + change (retry_loop (S n) k)
        with ([Fail k econnreset 0%Q; FireTimer 0] ++ retry_loop n (S k))%list.
      rewrite run_app, R1. exact R2.
    + replace (S n + k)%nat with (n + S k)%nat by lia. exact L2.
Qed.

Lemma retry_loop_length n k : List.length (retry_loop n k) = (2 * n)%nat.
Proof. revert k; induction n as [|n IH]; intros k; simpl; [|rewrite IH]; lia. Qed.

Lemma retry_loop_prompt n k : forallb prompt (retry_loop n k) = true.
Proof. revert k; induction n as [|n IH]; intros k; simpl; auto. Qed.

Lemma start_looping : looping O (start forever_opts).
Proof.
  rewrite start_eq. unfold after_get.
  change (supported_protocol (protocol forever_opts)) with true.
  change (gotTimeout forever_opts) with (@None Z). cbv iota.
  unfold looping, terminal_events, events. fields.
  repeat split; reflexivity.
Qed.

End Forever.

(* ===================================================================== *)
(** ** C1: one terminal event *)
(* ===================================================================== *)

Lemma default_retries_stops `{Platform} (n : Z) :
  stops_after n (default_retries n).
Proof.
  intros iter err u Hlt. unfold default_retries.
  replace (iter >? n) with true by (symmetry; apply Z.gtb_lt; lia).
  reflexivity.
Qed.

Lemma quiescent_live w : quiescent w -> live w = O.
Proof. intros (Hi & Ht & Hm). unfold live. now rewrite Hi, Ht, Hm. Qed.

(** C1, as amended. For every logical request whose retry policy stops
    after some number of attempts - the default policy does - and whose
    transport reports each request once, the engine publishes exactly one
    terminal event, a [response] or an [error] of the taxonomy: every run of
    the host is finite, cannot end before everything pending has been
    handled, holds exactly one terminal event when it ends and never more
    than one before. Redirects and retries keep the request alive and
    publish no terminal event of their own. *)
Theorem one_terminal_event_when_policy_stops `{Platform} (opts : Opts) (K : Z) :
  stops_after K (retries opts) -> one_terminal_event (start opts).
Proof.
  intros Hstop. split.
  - exists (48 + 6 * Z.to_nat (K + 1))%nat. intros sched w Hp Hrun.
    pose proof (run_potential K (retries opts) sched (start opts) w Hstop Hp
                  (start_listening opts) (start_policy opts) Hrun).
    pose proof (start_potential K opts). lia.
  - intros sched w Hp Hrun.
    destruct (run_balanced opts sched w Hp Hrun) as [B L]. unfold balanced in B.
    destruct (run_taxonomy opts sched w Hrun) as [T _].
    repeat split.
    + apply progress.
    + lia.
    + intros Q. apply quiescent_live in Q. lia.
    + lia.
    + exact T.
Qed.

Lemma one_terminal_event_when_policy_stops_witness :
  stops_after 2 (retries example_opts)
  /\ one_terminal_event (P := Node.platform)
       (start (P := Node.platform) example_opts).
Proof.
  assert (Hs : stops_after 2 (retries example_opts)).
  { change (retries example_opts) with example_retries.
    rewrite example_retries_eq.
    apply (@default_retries_stops Node.platform 2). }
  split; [exact Hs|].
  exact (@one_terminal_event_when_policy_stops Node.platform example_opts 2 Hs).
Defined.

(** C1 as stated fails: with a caller's policy that never returns the stop
    sentinel and a transport that fails every attempt, the request goes on
    for ever and no terminal event is published. *)
Lemma retry_forever_no_terminal_event :
  ~ one_terminal_event (P := Node.platform)
      (start (P := Node.platform) forever_opts).
Proof.
  intros [[N HN] _].
  destruct (loop_many (S N) O (start forever_opts) start_looping)
    as (w & Hrun & _).
  apply HN in Hrun; [|apply retry_loop_prompt].
  rewrite retry_loop_length in Hrun. lia.
Qed.

(** What the engine does with a transport that is not prompt. The request
    0 fails after its response has been published (a connection reset, or
    the socket timeout, while the body is read): the listener of line 72 is
    still armed, the default policy grants a retry, and the logical request
    ends up with two [response] events. *)
Lemma late_failure_second_response :
  ~ prompt_schedule late_failure
  /\ match run (P := Node.platform) (start (P := Node.platform) default_opts)
               late_failure with
     | Some w =>
         map event_mark (events w)
         = [MRequest O; MResponse O; MRequest 1%nat; MResponse 1%nat]
         /\ List.length (terminal_events w) = 2%nat
         /\ quiescent w
     | None => False
     end.
Proof.
  split; [intros H; discriminate H|]. vm_compute. repeat split.
Qed.

(** The runs behind the counterexample: after any number of rounds a
    request is in flight and nothing terminal has been published. *)
Lemma retry_forever_silent (n : nat) :
  exists w, run (P := Node.platform) (start (P := Node.platform) forever_opts)
                (retry_loop n O) = Some w
            /\ terminal_events w = [] /\ live w <> O.
Proof.
  destruct (loop_many n O (start forever_opts) start_looping)
    as (w & Hrun & Hi & _ & _ & _ & He).
  exists w. repeat split; auto. unfold live. rewrite Hi. simpl. lia.
Qed.

(* ===================================================================== *)
(** ** C5: the default retry policy *)
(* ===================================================================== *)

Lemma to_int32_small z : - 2 ^ 31 <= z < 2 ^ 31 -> to_int32 z = z.
Proof. intros Hz. unfold to_int32. rewrite Z.mod_small; lia. Qed.

Lemma shl_one_pow iter : 0 <= iter <= 30 -> shl 1 iter = 2 ^ iter.
Proof.
  intros Hi. unfold shl.
  change 31 with (Z.ones 5). rewrite Z.land_ones by lia.
  rewrite (Z.mod_small iter) by (change (2 ^ 5) with 32; lia).
  rewrite (to_int32_small 1) by (change (2 ^ 31) with 2147483648; lia).
  rewrite Z.shiftl_mul_pow2 by lia. rewrite Z.mul_1_l.
  apply to_int32_small.
  assert (0 < 2 ^ iter) by (apply Z.pow_pos_nonneg; lia).
  assert (2 ^ iter <= 2 ^ 30) by (apply Z.pow_le_mono_r; lia).
  change (2 ^ 30) with 1073741824 in *. change (2 ^ 31) with 2147483648. lia.
Qed.

(** Where the policy agrees with the formula of the specification: it stops
    when the attempt number exceeds the configured count or the error may
    not be retried, and otherwise, up to attempt 30, the delay is
    [2^attempt * 1000] plus a jitter in [[0, 100)]. *)
Lemma default_retries_spec `{Platform} (n iter : Z) (err : TransportError) (u : Q) :
  (n < iter -> default_retries n iter err u = 0%Q)
  /\ (isRetryAllowed err = false -> default_retries n iter err u = 0%Q)
  /\ (iter <= n -> isRetryAllowed err = true -> 0 <= iter <= 30 ->
      (0 <= u)%Q -> (u < 1)%Q ->
      exists noise : Q,
        (0 <= noise)%Q /\ (noise < 100)%Q
        /\ default_retries n iter err u
           = (inject_Z (2 ^ iter * 1000)%Z + noise)%Q).
Proof.
  unfold default_retries. repeat split.
  - intros Hlt. replace (iter >? n) with true
      by (symmetry; apply Z.gtb_lt; lia). reflexivity.
  - intros ->. now rewrite orb_true_r.
  - intros Hle Ha Hr Hu0 Hu1.
    replace (iter >? n) with false
      by (symmetry; rewrite Z.gtb_ltb; apply Z.ltb_ge; lia).
    rewrite Ha. cbn [negb orb]. rewrite shl_one_pow by lia.
    exists (u * 100)%Q. repeat split; lra.
Qed.

(** C5, evaluated where the code departs from it. With [retries: 31], a
    retryable error and no jitter, the policy returns for attempt 31 not
    [2^31 * 1000] but a negative number: [1 << 31] is [-2147483648] in
    32-bit arithmetic. For attempt 32 the shift count wraps to 0. *)
Theorem default_retries_wraps_at_31 :
  isRetryAllowed (Platform := Node.platform) econnreset = true
  /\ default_retries (P := Node.platform) 31 31 econnreset 0%Q
     = (-2147483648000 # 1)%Q
  /\ ~ Qeq (default_retries (P := Node.platform) 31 31 econnreset 0%Q)
           (inject_Z (2 ^ 31 * 1000))
  /\ default_retries (P := Node.platform) 32 32 econnreset 0%Q = (1000 # 1)%Q.
Proof.
  repeat split; try reflexivity.
  intros H. vm_compute in H. discriminate.
Qed.

(* ===================================================================== *)
(** ** C6: a transport error goes to the retry policy *)
(* ===================================================================== *)

Lemma take_nth_last {A} (l : list A) (x : A) :
  take_nth (List.length l) (l ++ [x]) = Some (x, l).
Proof.
  induction l as [|y l IH]; simpl; [reflexivity|]. now rewrite IH.
Qed.

Lemma truthy_num_pos (q : Q) : (0 < q)%Q -> truthy_num q = true.
Proof.
  intros Hq. unfold truthy_num. destruct (Qeq_bool q 0) eqn:E; [|reflexivity].
  apply Qeq_bool_iff in E. lra.
Qed.

Lemma truthy_num_zero (q : Q) : (q == 0)%Q -> truthy_num q = false.
Proof.
  intros Hq. unfold truthy_num. apply Qeq_bool_iff in Hq. now rewrite Hq.
Qed.

(** C6. When the request [r] of an attempt fails with [err] - before its
    response, or after it - the engine increments [retryCount] and asks the
    descriptor's policy with [(retryCount + 1, err)]. A positive delay
    publishes nothing and sets a timer with that delay whose firing runs
    [get] on the same descriptor, which puts a new request for it in flight;
    the stop sentinel 0 publishes one [error] event, a [RequestError] with
    the code and message of [err], and creates neither timer nor request. *)
Theorem transport_error_consults_policy `{Platform}
        (late : bool) (w : World) (r : ReqId) (err : TransportError) (u : Q)
        (req : Request) (rest : list Request) :
  listening w = true ->
  take_req r (armed late w) = Some (req, rest) ->
  let opts := req_opts req in
  let backoff := retries opts (retryCount w + 1) err u in
  exists w',
    step w (failure late r err u) = Some w'
    /\ retryCount w' = retryCount w + 1
    /\ armed late w' = rest
    /\ armed (negb late) w' = armed (negb late) w
    /\ next_req w' = next_req w
    /\ ((0 < backoff)%Q ->
        emitted w' = emitted w
        /\ timers w' = (timers w ++ [{| tm_delay := backoff; tm_opts := opts |}])%list
        /\ exists w'',
            step w' (FireTimer (List.length (timers w))) = Some w''
            /\ timers w'' = timers w
            /\ (supported_protocol (protocol opts) = true ->
                inflight w'' = (inflight w' ++ [{| req_id := next_req w;
                                                   req_opts := opts |}])%list))
    /\ ((backoff == 0)%Q ->
        emitted w' = (emitted w ++
                      [emission r (EvError (new_RequestError err opts) None)])%list
        /\ timers w' = timers w
        /\ e_name (new_RequestError err opts) = RequestError
        /\ e_code (new_RequestError err opts) = te_code err
        /\ e_message (new_RequestError err opts) = te_message err).
Proof.
  intros L Ht opts backoff.
  pose proof (take_req_id _ _ _ _ Ht) as Hid.
  exists (after_error req err u
            (if late then set_answered w rest
             else set_requests w (next_req w) rest)).
  split.
  { destruct late; cbn [armed failure] in *; simpl; rewrite Ht;
      now rewrite on_error_listening by exact L. }
  assert (E : forall w0,
             retryCount w0 = retryCount w -> emitted w0 = emitted w ->
             timers w0 = timers w -> next_req w0 = next_req w ->
             listening w0 = true ->
             let w' := after_error req err u w0 in
             retryCount w' = retryCount w + 1
             /\ inflight w' = inflight w0 /\ answered w' = answered w0
             /\ next_req w' = next_req w
             /\ ((0 < backoff)%Q ->
                 emitted w' = emitted w
                 /\ timers w' = (timers w ++ [{| tm_delay := backoff;
                                                 tm_opts := opts |}])%list
                 /\ exists w'',
                     step w' (FireTimer (List.length (timers w))) = Some w''
                     /\ timers w'' = timers w
                     /\ (supported_protocol (protocol opts) = true ->
                         inflight w''
                         = (inflight w' ++ [{| req_id := next_req w;
                                               req_opts := opts |}])%list))
             /\ ((backoff == 0)%Q ->
                 emitted w' = (emitted w ++
                    [emission r (EvError (new_RequestError err opts) None)])%list
                 /\ timers w' = timers w)).
  { intros w0 Hr He Htm Hn L0 w'. unfold w', after_error. fold opts.
    rewrite Hr. fold backoff.
    split; [destruct (truthy_num backoff); fields; lia|].
    split; [destruct (truthy_num backoff); reflexivity|].
    split; [destruct (truthy_num backoff); reflexivity|].
    split; [destruct (truthy_num backoff); exact Hn|].
    split.
    - intros Hpos. rewrite (truthy_num_pos _ Hpos). fields.
      split; [exact He|]. split; [now rewrite Htm|].
      eexists. split.
      + unfold step. fields. rewrite Htm, take_nth_last.
        rewrite get_callback by exact L0. reflexivity.
      + cbn [tm_opts]. unfold after_get.
        destruct (supported_protocol (protocol opts)).
        * destruct (gotTimeout opts) as [t|]; [destruct (t =? 0)%Z|]; fields;
            rewrite Hn; split; auto.
        * fields. split; [reflexivity | discriminate].
    - intros Hz. rewrite (truthy_num_zero _ Hz). fields.
      rewrite Hid, He, Htm. split; reflexivity. }
  destruct late; cbn [armed negb].
  - destruct (E (set_answered w rest) eq_refl eq_refl eq_refl eq_refl L)
      as (E1 & E2 & E3 & E4 & E5 & E6).
    repeat split; auto; try (apply E5; assumption); try (apply E6; assumption).
  - destruct (E (set_requests w (next_req w) rest)
                eq_refl eq_refl eq_refl eq_refl L)
      as (E1 & E2 & E3 & E4 & E5 & E6).
    repeat split; auto; try (apply E5; assumption); try (apply E6; assumption).
Qed.

Lemma transport_error_consults_policy_witness :
  let w := start (P := Node.platform) example_opts in
  listening w = true
  /\ take_req O (armed false w)
     = Some ({| req_id := O; req_opts := example_opts |}, [])
  /\ exists w',
      step (P := Node.platform) w (Fail O econnreset (1 # 2)) = Some w'
      /\ retryCount w' = 1.
Proof.
  intros w. split; [reflexivity|]. split; [reflexivity|].
  destruct (@transport_error_consults_policy Node.platform false w O
              econnreset (1 # 2) {| req_id := O; req_opts := example_opts |} []
              eq_refl eq_refl) as (w' & Hs & Hr & _).
  exists w'. split; [exact Hs | exact Hr].
Defined.

(* ===================================================================== *)
(** ** C8: no JSON in streaming mode *)
(* ===================================================================== *)

(** C8. For a descriptor that asks for JSON decoding, [asStream] throws
    before it reaches [requestAsEventEmitter]: no emitter exists, no request
    was handed to the transport, and no duplex is returned. *)
Theorem stream_with_json_throws `{Platform} (opts : Opts) :
  json opts = true ->
  asStream opts
  = (Throw (plain_error PlainError
              "got can not be used as stream when options.json is used"),
     None).
Proof. intros Hj. unfold asStream. now rewrite Hj. Qed.

Lemma stream_with_json_throws_witness :
  json (with_json example_opts true) = true
  /\ asStream (P := Node.platform) (with_json example_opts true)
     = (Throw (plain_error PlainError
                 "got can not be used as stream when options.json is used"),
        None).
Proof.
  split; [reflexivity|].
  apply (@stream_with_json_throws Node.platform (with_json example_opts true)).
  reflexivity.
Defined.

(* ===================================================================== *)
(** ** C10: [got] never throws *)
(* ===================================================================== *)

(** C10. [got(url, opts)] returns a promise for every [url] and [opts] and
    never throws: whatever [normalizeArguments] throws becomes the rejection
    of the promise returned. In particular a [url] that is neither string
    nor object, a string [url] with credentials in it, and a body of a type
    that is not accepted each reject with the error the normaliser
    raises for them. *)
Theorem got_never_throws `{Platform} (url : UrlArg) (opts : UserOptions) :
  (exists r, got url opts = Normal r)
  /\ (forall e, normalizeArguments url opts = Throw e ->
        exists r, got url opts = Normal r /\ is_rejected_with e r)
  /\ (forall ty, url = UrlOther ty ->
        exists r, got url opts = Normal r
          /\ is_rejected_with
               (plain_error TypeError
                  ("Parameter `url` must be a string or object, not " ++ ty)) r)
  /\ (forall s, url = UrlString s ->
        truthy_str (u_auth (url_parse_lax (unix_prefix s))) = true ->
        exists r, got url opts = Normal r
          /\ is_rejected_with
               (plain_error PlainError
                  "Basic authentication must be done with auth option") r)
  /\ (forall uo b e,
        check_url url = Normal uo ->
        o_body (merge_options uo opts) = Some b ->
        check_body (o_form (merge_options uo opts)
                    || o_json (merge_options uo opts)) b = Throw e ->
        e_name e = TypeError
        /\ exists r, got url opts = Normal r /\ is_rejected_with e r).
Proof.
  assert (Hthrow : forall e, normalizeArguments url opts = Throw e ->
            exists r, got url opts = Normal r /\ is_rejected_with e r).
  { intros e He. unfold got. rewrite He. simpl.
    eexists; split; reflexivity. }
  split; [|split; [exact Hthrow|repeat split]].
  - unfold got. destruct (normalizeArguments url opts); simpl; eauto.
  - intros ty ->. apply Hthrow. reflexivity.
  - intros s -> Ha. apply Hthrow. unfold normalizeArguments, check_url.
    now rewrite Ha.
  - unfold check_body in H2.
    destruct (negb (isStream b) && negb (is_string_body b)
              && negb (is_buffer_body b) && negb _); [now inversion H2|].
    destruct (_ && negb (isPlainObj b)); [now inversion H2|discriminate].
  - apply Hthrow. unfold normalizeArguments. now rewrite H0, H1, H2.
Qed.

Lemma got_never_throws_witness :
  exists r,
    got (P := Node.platform) (UrlOther "number") no_options = Normal r
    /\ is_rejected_with
         (plain_error TypeError
            "Parameter `url` must be a string or object, not number") r.
Proof.
  destruct (@got_never_throws Node.platform (UrlOther "number") no_options)
    as (_ & _ & H & _).
  exact (H "number" eq_refl).
Defined.

(* ===================================================================== *)
(** ** C2: status validation in buffered mode *)
(* ===================================================================== *)

(** C2, as amended. In buffered mode, for every response whose body was
    read and, when JSON decoding is requested and the body is not empty,
    parsed: status 304 resolves whatever the redirect mode; a status in
    [[200, 299]] resolves; a status in [[200, 399]] resolves when
    [followRedirect] is false; every other status rejects with an
    [HTTPError] that carries that status and has the envelope attached. *)
Theorem buffered_status_validation `{Platform}
        (opts : Opts) (res : Response) (data : string) :
  decodes opts data ->
  let p := on_response_buffered opts res (Drained data) Pending in
  let code := statusCode res in
  let limit := if followRedirect opts then 299 else 399 in
  (code = 304 \/ 200 <= code <= limit ->
     exists env, p = Resolved env /\ env_res env = res)
  /\ (200 <= code <= 299 -> exists env, p = Resolved env /\ env_res env = res)
  /\ (followRedirect opts = false -> 200 <= code <= 399 ->
      exists env, p = Resolved env /\ env_res env = res)
  /\ (code <> 304 -> code < 200 \/ limit < code ->
      exists env,
        p = Rejected (define_response (new_HTTPError code opts) env)
        /\ env_res env = res
        /\ e_name (new_HTTPError code opts) = HTTPError
        /\ e_statusCode (new_HTTPError code opts) = Some code).
Proof.
  intros Hdec p code limit.
  assert (Hparsed : exists env, env_res env = res /\
            check_response opts res (drained_value opts data)
            = (env, if negb (code =? 304)%Z
                       && ((code <? 200) || (code >? limit))%Z
                    then Some (new_HTTPError code opts) else None)).
  { unfold check_response, decodes in *. fold code limit.
    destruct (json opts && truthy_body (drained_value opts data)).
    - destruct (json_parse (body_text (drained_value opts data))) as [j|].
      + eexists; split; [|destruct (negb _ && _); reflexivity]. reflexivity.
      + exfalso. now apply Hdec.
    - eexists; split; [|destruct (negb _ && _); reflexivity]. reflexivity. }
  destruct Hparsed as (env & Henv & Hc).
  assert (Hok : code = 304 \/ 200 <= code <= limit ->
            exists env, p = Resolved env /\ env_res env = res).
  { intros Hcode. exists env. split; [|exact Henv].
    unfold p, on_response_buffered. rewrite Hc.
    replace (negb (code =? 304)%Z && ((code <? 200) || (code >? limit))%Z)
      with false; [reflexivity|].
    symmetry. destruct Hcode as [->|Hr]; [reflexivity|].
    apply andb_false_intro2. apply orb_false_intro.
    - apply Z.ltb_ge; lia.
    - rewrite Z.gtb_ltb. apply Z.ltb_ge; lia. }
  split; [exact Hok|]. split; [|split].
  - intros Hr. apply Hok. right. unfold limit.
    destruct (followRedirect opts); lia.
  - intros Hf Hr. apply Hok. right. unfold limit. rewrite Hf. lia.
  - intros Hn Hout. exists env. split; [|repeat split; auto].
    unfold p, on_response_buffered. rewrite Hc.
    replace (negb (code =? 304)%Z && ((code <? 200) || (code >? limit))%Z)
      with true; [reflexivity|].
    symmetry. apply andb_true_intro. split.
    + apply negb_true_iff. apply Z.eqb_neq. exact Hn.
    + apply orb_true_intro. destruct Hout as [Hl|Hg].
      * left. apply Z.ltb_lt. exact Hl.
      * right. apply Z.gtb_lt. exact Hg.
Qed.

Lemma buffered_status_validation_witness :
  decodes (P := Node.platform) example_opts "ok"
  /\ exists env,
      on_response_buffered (P := Node.platform) example_opts
        (plain_response 304) (Drained "ok") Pending = Resolved env
      /\ env_res env = plain_response 304.
Proof.
  assert (D : decodes (P := Node.platform) example_opts "ok")
    by (intros H; discriminate H).
  split; [exact D|].
  destruct (@buffered_status_validation Node.platform example_opts
              (plain_response 304) "ok" D) as (H & _).
  apply H. left. reflexivity.
Defined.

(** C2 as stated fails: a 200 response to a request with JSON decoding
    whose body is not JSON rejects with a [ParseError], although the status
    lies in [[200, 299]] and redirects are followed. *)
Lemma buffered_200_rejects_on_bad_json :
  let opts := with_json example_opts true in
  let p := on_response_buffered (P := Node.platform) opts (plain_response 200)
             (Drained "<html>") Pending in
  followRedirect opts = true
  /\ statusCode (plain_response 200) = 200
  /\ (forall env, p <> Resolved env)
  /\ exists e, p = Rejected e /\ e_name e = ParseError.
Proof.
  intros opts p. repeat split.
  - intros env H. discriminate H.
  - eexists. split; reflexivity.
Qed.

(** A failed read gives the same picture: the promise rejects with a
    [ReadError] whatever the status. *)
Lemma buffered_304_rejects_on_failed_read :
  exists e,
    on_response_buffered (P := Node.platform) example_opts (plain_response 304)
      (DrainFailed econnreset) Pending = Rejected e
    /\ e_name e = ReadError.
Proof. eexists. split; reflexivity. Qed.

(* ===================================================================== *)
(** ** C7: failures in streaming mode *)
(* ===================================================================== *)

(** C7, evaluated where the code departs from it. For a descriptor with an
    unsupported protocol the first [get] emits the [error] event inside
    [requestAsEventEmitter], before [asStream] has attached a listener: the
    emitter throws the error, [asStream] throws it on to the caller and no
    duplex is returned. The same holds from the entry point. In buffered
    mode the same descriptor rejects the promise. *)
Theorem stream_throws_on_unsupported_protocol :
  json ftp_opts = false
  /\ (exists w,
        asStream (P := Node.platform) ftp_opts
        = (Throw (new_UnsupportedProtocolError ftp_opts), Some w)
        /\ listening w = false
        /\ events w = [EvError (new_UnsupportedProtocolError ftp_opts) None])
  /\ option_map e_name
       (thrown (fst (got_stream (P := Node.platform)
                       (UrlString "ftp://example.test/file") no_options)))
     = Some UnsupportedProtocolError
  /\ promise (fst (asPromise (P := Node.platform) ftp_opts))
     = Rejected (new_UnsupportedProtocolError ftp_opts).
Proof.
  split; [reflexivity|]. split; [|split; reflexivity].
  eexists. split; [reflexivity|]. split; reflexivity.
Qed.

(** Once [asStream] has returned, the duplex re-emits what the engine
    emits: every [error] event of the engine is emitted on the duplex. *)
Lemma stream_listener_keeps `{Platform} opts d ev x :
  In x (proxy_emitted d) -> In x (proxy_emitted (stream_listener opts d ev)).
Proof.
  intros Hin. destruct ev; simpl; apply in_or_app; auto.
Qed.

Lemma stream_fold_keeps `{Platform} opts evs : forall d x,
  In x (proxy_emitted d) ->
  In x (proxy_emitted (fold_left (stream_listener opts) evs d)).
Proof.
  induction evs as [|ev evs IH]; intros d x Hin; simpl; [exact Hin|].
  apply IH. now apply stream_listener_keeps.
Qed.

Lemma stream_forwards_errors `{Platform} opts evs : forall d err res,
  In (EvError err res) evs ->
  In (EvError err res)
     (proxy_emitted (fold_left (stream_listener opts) evs d)).
Proof.
  induction evs as [|ev evs IH]; intros d err res Hin; [destruct Hin|].
  simpl. destruct Hin as [->|Hin].
  - apply stream_fold_keeps. simpl. apply in_or_app. right. now left.
  - now apply IH.
Qed.

Lemma stream_errors_on_duplex `{Platform} opts sched d :
  stream_after opts sched = Some d ->
  exists w,
    asStream opts = (Normal {| proxy_emitted := []; proxy_wired := [];
                               write_disabled :=
                                 truthy_request_body (body opts) |},
                     Some (start opts))
    /\ run (start opts) sched = Some w
    /\ forall err res, In (EvError err res) (events w) ->
                       In (EvError err res) (proxy_emitted d).
Proof.
  unfold stream_after, asStream, start.
  destruct (json opts); [discriminate|].
  destruct (requestAsEventEmitter opts) as [[u|e] w0]; [|discriminate].
  cbn [snd]. destruct (run (listen w0) sched) as [w|] eqn:R; [|discriminate].
  intros [= <-]. exists w. destruct u. repeat split.
  intros err res Hin. now apply stream_forwards_errors.
Qed.

(* ===================================================================== *)
(** ** C4: the eleventh redirect *)
(* ===================================================================== *)

Section MaxRedirects.
Context {P : Platform}.

(** Once nothing is live, the host can only run the [request] immediates
    that are left: no terminal event is added and no request is created. *)
Lemma steps_to_dead w l w' :
  prompt l = true -> steps_to w l w' -> live w = O ->
  live w' = O /\ terminal_events w' = terminal_events w
  /\ next_req w' = next_req w.
Proof.
  intros Hp S D. unfold live in D. destruct S; [| | | |discriminate].
  - rewrite H in D. destruct t as [req|req res].
    + unfold after_task, live, terminal_events, events. fields.
      cbn [filter is_publish] in D.
      rewrite map_app, filter_app. cbn. rewrite app_nil_r.
      repeat split; auto.
    + cbn [filter is_publish List.length] in D. lia.
  - apply take_nth_length in H. lia.
  - apply take_req_length in H. lia.
  - apply take_req_length in H. lia.
Qed.

Lemma run_dead sched : forall w w',
  forallb prompt sched = true ->
  listening w = true -> live w = O -> run w sched = Some w' ->
  terminal_events w' = terminal_events w /\ next_req w' = next_req w.
Proof.
  induction sched as [|l sched IH]; intros w w' Hok L D; simpl.
  - intros [= <-]; auto.
  - simpl in Hok. apply andb_prop in Hok. destruct Hok as [Hl Hs].
    destruct (step w l) as [w1|] eqn:E; [|discriminate]. intros Hrun.
    apply step_steps_to in E; [|exact L].
    destruct (steps_to_dead _ _ _ Hl E D) as (D1 & T1 & N1).
    destruct (IH w1 w') as (T2 & N2); auto.
    + rewrite (steps_to_listening _ _ _ E); exact L.
    + split; congruence.
Qed.

(** C4, as amended. In any world the engine can reach, whatever the
    transport has done so far, when the response to the request [r] is a
    redirect the engine would follow and the incremented redirect count
    exceeds 10, the engine publishes at that step one [error] event, a
    [MaxRedirectsError] with the status code of that response, and nothing
    else: no [response] is queued, no timer is set, no request is created.
    With a transport that reports each request once it is the only terminal
    event of the logical request - no [response] event precedes or follows
    it - and no further request is ever created. *)
Theorem eleventh_redirect_is_an_error
        (opts : Opts) (sched : list Label) (w : World)
        (r : ReqId) (status : Z) (h : Headers)
        (req : Request) (rest : list Request) :
  run (start opts) sched = Some w ->
  take_req r (inflight w) = Some (req, rest) ->
  follows (req_opts req) status h = true ->
  10 < redirectCount w + 1 ->
  let err := new_MaxRedirectsError status (req_opts req) in
  let ev := EvError err (Some (response_of w req status h)) in
  exists w',
    step w (Respond r status h) = Some w'
    /\ emitted w' = (emitted w ++ [emission r ev])%list
    /\ immediates w' = immediates w /\ timers w' = timers w
    /\ inflight w' = rest /\ next_req w' = next_req w
    /\ e_name err = MaxRedirectsError
    /\ e_statusCode err = Some status
    /\ (prompt_schedule sched ->
        forall sched' w'',
          prompt_schedule sched' ->
          run w' sched' = Some w'' ->
          terminal_events w'' = [ev] /\ next_req w'' = next_req w).
Proof.
  intros Hrun Ht Hf Hc err ev.
  destruct (run_taxonomy _ _ _ Hrun) as [_ L].
  pose proof (take_req_id _ _ _ _ Ht) as Hid.
  pose proof (take_req_length _ _ _ _ Ht) as Hlen.
  set (w' := after_response req status h (answer w req rest)).
  assert (Hw' : w' = set_emitted
                       (set_redirectCount (answer w req rest)
                                          (redirectCount w + 1))
                       (emitted w ++ [emission r ev])).
  { unfold w', after_response. rewrite Hf. fields.
    replace (redirectCount w + 1 >? 10) with true
      by (symmetry; apply Z.gtb_lt; lia).
    rewrite Hid. reflexivity. }
  exists w'. split.
  { simpl. rewrite Ht. now rewrite on_response_listening by exact L. }
  split; [rewrite Hw'; reflexivity|].
  split; [rewrite Hw'; reflexivity|]. split; [rewrite Hw'; reflexivity|].
  split; [rewrite Hw'; reflexivity|]. split; [rewrite Hw'; reflexivity|].
  split; [reflexivity|]. split; [reflexivity|].
  intros Hp sched' w'' Hp' Hrun'.
  destruct (run_balanced _ _ _ Hp Hrun) as [B _]. unfold balanced in B.
  assert (Hnone : terminal_events w = []).
  { apply length_zero_iff_nil. unfold live in B. lia. }
  assert (Hlive : live w = 1%nat) by (rewrite Hnone in B; simpl in B; lia).
  assert (L' : listening w' = true) by (rewrite Hw'; exact L).
  assert (D' : live w' = O).
  { rewrite Hw'. unfold live in *. fields. lia. }
  destruct (run_dead _ _ _ Hp' L' D' Hrun') as [T N].
  rewrite T, N, Hw'. unfold terminal_events, events in *. fields.
  rewrite map_app, filter_app, Hnone. split; reflexivity.
Qed.

End MaxRedirects.

Lemma eleventh_redirect_is_an_error_witness :
  exists w,
    prompt_schedule ten_redirects
    /\ run (P := Node.platform) (start (P := Node.platform) example_opts)
           ten_redirects = Some w
    /\ take_req 10%nat (inflight w)
       = Some ({| req_id := 10%nat;
                  req_opts := with_target example_opts
                                (Node.parse "http://example.test/new") |}, [])
    /\ follows (P := Node.platform)
               (with_target example_opts (Node.parse "http://example.test/new"))
               302 [("location", "/new")] = true
    /\ 10 < redirectCount w + 1
    /\ exists w',
        step (P := Node.platform) w (Respond 10%nat 302 [("location", "/new")])
        = Some w'
        /\ immediates w' = immediates w
        /\ forall sched' w'',
            prompt_schedule sched' ->
            run (P := Node.platform) w' sched' = Some w'' ->
            List.length (terminal_events w'') = 1%nat
            /\ next_req w'' = 11%nat.
Proof.
  assert (Hp : prompt_schedule ten_redirects) by (vm_compute; reflexivity).
  eexists. split; [exact Hp|].
  split; [vm_compute; reflexivity|].
  split; [vm_compute; reflexivity|].
  split; [vm_compute; reflexivity|]. split; [vm_compute; reflexivity|].
  match goal with
  | |- exists w', step ?W _ = Some w' /\ _ =>
      destruct (@eleventh_redirect_is_an_error Node.platform example_opts
                  ten_redirects W 10%nat 302 [("location", "/new")]
                  {| req_id := 10%nat;
                     req_opts := with_target example_opts
                                   (Node.parse "http://example.test/new") |}
                  [])
        as (w' & Hs & _ & Hi & _ & _ & _ & _ & _ & Hafter);
        [vm_compute; reflexivity | vm_compute; reflexivity
         | vm_compute; reflexivity | vm_compute; reflexivity |]
  end.
  exists w'. split; [exact Hs|]. split; [exact Hi|].
  intros sched' w'' Hp' R. destruct (Hafter Hp sched' w'' Hp' R) as [T N].
  rewrite T, N. split; reflexivity.
Defined.

(** C4 as stated fails with a transport that reports an error after the
    response headers. Ten redirects have been followed; the connection of
    the request 3 breaks and the default policy grants a retry; the eleventh
    redirect then publishes the [MaxRedirectsError]. The retry timer is still
    pending: it fires, a twelfth request is created, and its answer is
    published as a [response] after the error. *)
Lemma late_failure_after_eleventh_redirect :
  ~ prompt_schedule late_failure_before_eleventh
  /\ match run (P := Node.platform) (start (P := Node.platform) default_opts)
               late_failure_before_eleventh with
     | Some w =>
         redirectCount w = 10 /\ next_req w = 11%nat
         /\ terminal_events w = []
         /\ match step (P := Node.platform) w
                       (Respond 10%nat 302 [("location", "/new")]) with
            | Some w' =>
                map error_name (terminal_events w') = [Some MaxRedirectsError]
                /\ next_req w' = 11%nat
                /\ match run (P := Node.platform) w' retry_after_eleventh with
                   | Some w'' =>
                       map error_name (terminal_events w'')
                       = [Some MaxRedirectsError; None]
                       /\ map event_mark (terminal_events w'')
                          = [MOther; MResponse 11%nat]
                       /\ next_req w'' = 12%nat
                       /\ quiescent w''
                   | None => False
                   end
            | None => False
            end
     | None => False
     end.
Proof.
  split; [intros H; discriminate H|]. vm_compute. repeat split.
Qed.

(* ===================================================================== *)
(** ** C9: the order of the events of one attempt *)
(* ===================================================================== *)

Section Ordering.
Context {P : Platform}.

Lemma ordered_app seen a b :
  ordered seen (a ++ b) <-> ordered seen a /\ ordered (requested seen a) b.
Proof.
  revert seen; induction a as [|m a IH]; intros seen; simpl.
  - tauto.
  - destruct m; rewrite ?IH; tauto.
Qed.

Lemma requested_app seen a b :
  requested seen (a ++ b) = requested (requested seen a) b.
Proof.
  revert seen; induction a as [|m a IH]; intros seen; simpl; [reflexivity|].
  destruct m; apply IH.
Qed.

Lemma requested_mono seen seen' tl :
  (forall r, In r seen -> In r seen') ->
  forall r, In r (requested seen tl) -> In r (requested seen' tl).
Proof.
  revert seen seen'; induction tl as [|m tl IH]; intros seen seen' Hs; simpl;
    [exact Hs|].
  destruct m; apply IH; auto.
  intros x [->|Hx]; [now left | right; auto].
Qed.

Lemma requested_keeps seen tl r : In r seen -> In r (requested seen tl).
Proof.
  revert seen; induction tl as [|m tl IH]; intros seen Hin; simpl; [exact Hin|].
  destruct m; apply IH; auto. now right.
Qed.

Lemma ordered_mono seen seen' tl :
  (forall r, In r seen -> In r seen') -> ordered seen tl -> ordered seen' tl.
Proof.
  revert seen seen'; induction tl as [|m tl IH]; intros seen seen' Hs; simpl;
    [auto|].
  destruct m.
  - apply IH. intros x [->|Hx]; [now left | right; auto].
  - intros [Hin Ho]. split; [auto | eapply IH; eauto].
  - apply IH; auto.
Qed.

(** Putting a mark that is no [response] anywhere into the timeline keeps
    it ordered. *)
Lemma ordered_insert seen a b m :
  (forall r, m <> MResponse r) ->
  ordered seen (a ++ b) -> ordered seen (a ++ m :: b).
Proof.
  intros Hm. rewrite !ordered_app. intros [Ha Hb]. split; [exact Ha|].
  destruct m; simpl.
  - eapply ordered_mono; [|exact Hb]. intros x Hx. now right.
  - exfalso. now apply (Hm r).
  - exact Hb.
Qed.

Lemma requested_insert seen a b m r :
  In r (requested seen (a ++ b)) -> In r (requested seen (a ++ m :: b)).
Proof.
  rewrite !requested_app. destruct m; simpl; auto.
  apply requested_mono. intros x Hx. now right.
Qed.

Lemma timeline_emit w e :
  (forall r, event_mark (em_event e) <> MResponse r) ->
  in_order w -> in_order (set_emitted w (emitted w ++ [e])).
Proof.
  intros Hm [Ho Hq]. unfold in_order, timeline, events in *. fields.
  rewrite map_app, map_app. cbn [map]. rewrite <- app_assoc. cbn [app].
  split.
  - apply ordered_insert; assumption.
  - intros q Hin. apply requested_insert. auto.
Qed.

Lemma after_get_in_order opts w : in_order w -> in_order (after_get opts w).
Proof.
  intros Hw. unfold after_get. destruct (supported_protocol _).
  - destruct Hw as [Ho Hq].
    assert (G : forall w1, emitted w1 = emitted w ->
                immediates w1 = immediates w ->
                inflight w1 = (inflight w ++ [{| req_id := next_req w;
                                                 req_opts := opts |}])%list ->
                in_order (set_immediates w1
                            (immediates w1 ++ [EmitRequest
                               {| req_id := next_req w; req_opts := opts |}]))).
    { intros w1 He Hi Hf. unfold in_order, timeline, events in *. fields.
      rewrite He, Hi, Hf. rewrite map_app, app_assoc. cbn [map task_mark req_id].
      split.
      - apply ordered_app. split; [exact Ho | exact I].
      - intros q Hin. rewrite requested_app. apply in_app_or in Hin.
        destruct Hin as [Hin|[<-|[]]].
        + apply requested_keeps. auto.
        + simpl. now left. }
    destruct (gotTimeout opts) as [t|]; [destruct (t =? 0)%Z|];
      apply G; reflexivity.
  - apply timeline_emit; [discriminate | exact Hw].
Qed.

Lemma in_order_drop w n rest :
  (forall q, In q rest -> In q (inflight w)) ->
  in_order w -> in_order (set_requests w n rest).
Proof. intros Hsub [Ho Hq]. split; [exact Ho|]. intros q Hin. apply Hq. auto. Qed.

Lemma steps_to_in_order w l w' :
  steps_to w l w' -> in_order w -> in_order w'.
Proof.
  intros S Hw; destruct S.
  - destruct Hw as [Ho Hq]. unfold after_task, in_order, timeline, events in *.
    fields. rewrite H in *. rewrite !map_app, <- !app_assoc.
    assert (E : event_mark (em_event (task_emission t)) = task_mark t)
      by (destruct t; reflexivity).
    cbn [map app] in *. rewrite E. split; assumption.
  - apply after_get_in_order. destruct Hw as [Ho Hq].
    split; [exact Ho | exact Hq].
  - destruct (take_req_in _ _ _ _ H) as [Hin Hsub].
    pose proof (in_order_drop w (next_req w) rest Hsub Hw) as Hd.
    unfold after_response. destruct (follows _ _ _).
    + destruct (_ >? 10).
      * apply (timeline_emit (set_redirectCount _ _)); [discriminate|exact Hd].
      * apply after_get_in_order.
        apply (timeline_emit (set_redirectUrl (set_redirectCount _ _) _));
          [discriminate|exact Hd].
    + destruct Hw as [Ho Hq]. unfold in_order, timeline, events in *. fields.
      rewrite map_app, app_assoc. cbn [map task_mark response_of res_req].
      split.
      * apply ordered_app. split; [exact Ho|]. simpl. split; [|exact I].
        apply Hq. exact Hin.
      * intros q Hq'. rewrite requested_app. simpl. auto.
  - destruct (take_req_in _ _ _ _ H) as [Hin Hsub].
    pose proof (in_order_drop w (next_req w) rest Hsub Hw) as Hd.
    unfold after_error. destruct (truthy_num _).
    + destruct Hd as [Ho Hq]. split; [exact Ho | exact Hq].
    + apply (timeline_emit (set_retryCount _ _)); [discriminate|exact Hd].
  - unfold after_error. destruct (truthy_num _).
    + destruct Hw as [Ho Hq]. split; [exact Ho | exact Hq].
    + apply (timeline_emit (set_retryCount _ _)); [discriminate|exact Hw].
Qed.

Lemma start_in_order opts : in_order (start opts).
Proof.
  rewrite start_eq.
  assert (H0 : in_order (new_world opts)) by (split; [exact I | intros q []]).
  destruct (after_get_in_order opts _ H0) as [Ho Hq].
  split; [exact Ho | exact Hq].
Qed.

Lemma run_in_order opts sched w :
  run (start opts) sched = Some w -> in_order w /\ listening w = true.
Proof.
  apply (run_ind_listening in_order).
  - intros; eapply steps_to_in_order; eauto.
  - apply start_listening.
  - apply start_in_order.
Qed.

(** From the marks back to the events. *)
Lemma ordered_split seen a r b :
  ordered seen (a ++ MResponse r :: b) -> In r (requested seen a).
Proof. rewrite ordered_app. simpl. tauto. Qed.

Lemma requested_in_events (evs : list Emission) r :
  In r (requested [] (map event_mark (map em_event evs))) ->
  exists e req, In e evs /\ em_event e = EvRequest req /\ req_id req = r.
Proof.
  assert (G : forall seen,
             In r (requested seen (map event_mark (map em_event evs))) ->
             In r seen \/ exists e req, In e evs /\ em_event e = EvRequest req
                                        /\ req_id req = r).
  { induction evs as [|e evs IH]; intros seen; simpl; [auto|].
    destruct (em_event e) as [req| | |] eqn:E; simpl; intros Hin;
      apply IH in Hin.
    - destruct Hin as [[<-|Hin]|(e' & q & H1 & H2 & H3)]; eauto 8.
    - destruct Hin as [Hin|(e' & q & H1 & H2 & H3)]; eauto 8.
    - destruct Hin as [Hin|(e' & q & H1 & H2 & H3)]; eauto 8.
    - destruct Hin as [Hin|(e' & q & H1 & H2 & H3)]; eauto 8. }
  intros Hin. destruct (G [] Hin) as [[]|H]. exact H.
Qed.

Lemma after_get_announced opts w : announced w -> announced (after_get opts w).
Proof.
  intros Hw. unfold after_get. destruct (supported_protocol _).
  - assert (G : forall w1, emitted w1 = emitted w ->
                immediates w1 = immediates w ->
                inflight w1 = (inflight w ++ [{| req_id := next_req w;
                                                 req_opts := opts |}])%list ->
                announced (set_immediates w1
                            (immediates w1 ++ [EmitRequest
                               {| req_id := next_req w; req_opts := opts |}]))).
    { intros w1 He Hi Hf q. unfold announced, events in *. fields.
      rewrite He, Hi, Hf. intros Hin. apply in_app_or in Hin.
      destruct Hin as [Hin|[<-|[]]].
      - destruct (Hw q Hin); [left | right; apply in_or_app]; auto.
      - right. apply in_or_app. right. now left. }
    destruct (gotTimeout opts) as [t|]; [destruct (t =? 0)%Z|];
      apply G; reflexivity.
  - intros q Hin. unfold events in *. fields. rewrite map_app.
    destruct (Hw q Hin); [left; apply in_or_app|]; auto.
Qed.

Lemma announced_emit w e :
  announced w -> announced (set_emitted w (emitted w ++ [e])).
Proof.
  intros Hw q Hin. unfold events in *. fields. rewrite map_app.
  destruct (Hw q Hin); [left; apply in_or_app|]; auto.
Qed.

Lemma steps_to_announced w l w' :
  steps_to w l w' -> announced w -> announced w'.
Proof.
  intros S Hw; destruct S.
  - intros q Hin. unfold after_task, events in *. fields. rewrite map_app.
    destruct (Hw q Hin) as [He|Hi].
    + left. apply in_or_app. auto.
    + rewrite H in Hi. destruct Hi as [->|Hi].
      * left. apply in_or_app. right. cbn. now left.
      * now right.
  - apply after_get_announced. exact Hw.
  - destruct (take_req_in _ _ _ _ H) as [Hin Hsub].
    assert (Hd : announced (set_requests w (next_req w) rest))
      by (intros q Hq; apply Hw; auto).
    unfold after_response. destruct (follows _ _ _).
    + destruct (_ >? 10).
      * apply (announced_emit (set_redirectCount _ _)). exact Hd.
      * apply after_get_announced.
        apply (announced_emit (set_redirectUrl (set_redirectCount _ _) _)).
        exact Hd.
    + intros q Hq. fields. destruct (Hd q Hq); [left|right; apply in_or_app]; auto.
  - destruct (take_req_in _ _ _ _ H) as [Hin Hsub].
    assert (Hd : announced (set_requests w (next_req w) rest))
      by (intros q Hq; apply Hw; auto).
    unfold after_error. destruct (truthy_num _).
    + exact Hd.
    + apply (announced_emit (set_retryCount _ _)). exact Hd.
  - unfold after_error. destruct (truthy_num _).
    + exact Hw.
    + apply (announced_emit (set_retryCount _ _)). exact Hw.
Qed.

Lemma run_announced opts sched w :
  run (start opts) sched = Some w -> announced w /\ listening w = true.
Proof.
  apply (run_ind_listening announced).
  - intros; eapply steps_to_announced; eauto.
  - apply start_listening.
  - rewrite start_eq.
    assert (H0 : announced (new_world opts)) by (intros q []).
    exact (after_get_announced opts _ H0).
Qed.

(** The callback of a response publishes no [response] event. *)
Lemma after_get_responses opts w :
  filter is_response (events (after_get opts w)) = filter is_response (events w).
Proof.
  unfold after_get. destruct (supported_protocol _).
  - destruct (gotTimeout opts) as [t|]; [destruct (t =? 0)%Z|]; reflexivity.
  - unfold events. fields. rewrite map_app, filter_app. cbn. apply app_nil_r.
Qed.

Lemma after_response_responses req status h w :
  filter is_response (events (after_response req status h w))
  = filter is_response (events w).
Proof.
  unfold after_response. destruct (follows _ _ _).
  - destruct (_ >? 10).
    + unfold events. fields. rewrite map_app, filter_app. cbn. apply app_nil_r.
    + rewrite after_get_responses.
      unfold events. fields. rewrite map_app, filter_app. cbn. apply app_nil_r.
  - reflexivity.
Qed.

End Ordering.

(** C9, as amended. In every world the engine can reach: (1) a [response]
    event is preceded by the [request] event of the same request; (2) the
    transport callback itself never publishes a [response] - for a response
    that is not a followed redirect it publishes nothing and puts the
    publication at the end of the immediate queue, so the consumer's
    [request] handler has run by then; (3) for a request in flight the
    [request] event has been published or its immediate is still queued, so
    a [redirect] or [error] event, which the transport callback publishes
    at once, follows the [request] event of its attempt when the callback
    runs after the pending immediates. *)
Theorem request_precedes_response `{Platform}
        (opts : Opts) (sched : list Label) (w : World) :
  run (start opts) sched = Some w ->
  (forall before e after res,
      emitted w = (before ++ e :: after)%list ->
      em_event e = EvResponse res ->
      exists e' req,
        In e' before /\ em_event e' = EvRequest req
        /\ req_id req = res_req res)
  /\ (forall r status h req rest,
        take_req r (inflight w) = Some (req, rest) ->
        exists w',
          step w (Respond r status h) = Some w'
          /\ filter is_response (events w') = filter is_response (events w)
          /\ (follows (req_opts req) status h = false ->
              emitted w' = emitted w
              /\ immediates w'
                 = (immediates w
                    ++ [EmitResponse req (response_of w req status h)])%list))
  /\ (forall q, In q (inflight w) ->
        In (EvRequest q) (events w) \/ In (EmitRequest q) (immediates w)).
Proof.
  intros Hrun.
  destruct (run_in_order _ _ _ Hrun) as [[Ho _] L].
  destruct (run_announced _ _ _ Hrun) as [Ha _].
  split; [|split].
  - intros before e after res He Hres.
    unfold timeline, events in Ho. rewrite He in Ho.
    rewrite !map_app in Ho. cbn [map] in Ho. rewrite Hres in Ho.
    cbn [event_mark] in Ho. rewrite <- app_assoc in Ho. cbn [app] in Ho.
    apply ordered_split in Ho. apply requested_in_events in Ho. exact Ho.
  - intros r status h req rest Ht.
    exists (after_response req status h (answer w req rest)).
    split.
    { simpl. rewrite Ht. now rewrite on_response_listening by exact L. }
    split; [rewrite after_response_responses; reflexivity|].
    intros Hf. unfold after_response. rewrite Hf. split; reflexivity.
  - exact Ha.
Qed.

Lemma request_precedes_response_witness :
  exists w,
    run (P := Node.platform) (start (P := Node.platform) example_opts)
        [Respond O 200 []; RunImmediate; RunImmediate] = Some w
    /\ map event_mark (events w) = [MRequest O; MResponse O]
    /\ forall before e after res,
        emitted w = (before ++ e :: after)%list ->
        em_event e = EvResponse res ->
        exists e' req,
          In e' before /\ em_event e' = EvRequest req
          /\ req_id req = res_req res.
Proof.
  eexists. split; [vm_compute; reflexivity|].
  split; [vm_compute; reflexivity|].
  match goal with
  | |- forall before e after res, emitted ?W = _ -> _ =>
      assert (Hrun : run (P := Node.platform)
                       (start (P := Node.platform) example_opts)
                       [Respond O 200 []; RunImmediate; RunImmediate] = Some W)
        by (vm_compute; reflexivity);
      exact (proj1 (@request_precedes_response Node.platform example_opts
                      _ W Hrun))
  end.
Defined.

(** C9 as stated fails for the terminal [error] event: when the request of
    an attempt fails before the host has run the immediate that publishes
    [request] (a connection error raised on the next tick, or a short
    timeout) and the policy stops, the [error] event of the attempt is
    published first and its [request] event after it. *)
Lemma error_published_before_request :
  exists w err req,
    run (P := Node.platform) (start (P := Node.platform) no_retry_opts)
        [Fail O econnreset 0%Q; RunImmediate] = Some w
    /\ emitted w = [emission O (EvError err None); emission O (EvRequest req)]
    /\ e_name err = RequestError
    /\ req_id req = O.
Proof.
  do 3 eexists. split; [vm_compute; reflexivity|].
  split; [vm_compute; reflexivity|]. split; reflexivity.
Qed.

(* ===================================================================== *)
(** ** The descriptors a world knows *)
(* ===================================================================== *)

Section Known.
Context {P : Platform}.

Lemma take_req_forall {Pr : Request -> Prop} r l q rest :
  take_req r l = Some (q, rest) -> Forall Pr l -> Pr q /\ Forall Pr rest.
Proof.
  intros Ht Hf. destruct (take_req_in _ _ _ _ Ht) as [Hin Hsub].
  rewrite Forall_forall in *. split; auto.
Qed.

Lemma take_nth_forall {A} {Pr : A -> Prop} k (l : list A) x rest :
  take_nth k l = Some (x, rest) -> Forall Pr l -> Pr x /\ Forall Pr rest.
Proof.
  intros Ht Hf. destruct (take_nth_in _ _ _ _ Ht) as [Hin Hsub].
  rewrite Forall_forall in *. split; auto.
Qed.

Lemma Forall_snoc {A} (Pr : A -> Prop) l x :
  Forall Pr l -> Pr x -> Forall Pr (l ++ [x]).
Proof. intros Hl Hx. apply Forall_app. split; [exact Hl|]. now constructor. Qed.

Lemma known_emit Pr w e :
  Forall Pr (event_opts (em_event e)) -> known Pr w ->
  known Pr (set_emitted w (emitted w ++ [e])).
Proof.
  intros He (H1 & H2 & H3 & H4 & H5). unfold known, events in *. fields.
  repeat split; auto. rewrite map_app. now apply Forall_snoc.
Qed.

Lemma after_get_known Pr opts w :
  Pr opts -> known Pr w -> known Pr (after_get opts w).
Proof.
  intros Ho K. unfold after_get. destruct (supported_protocol _).
  - destruct K as (H1 & H2 & H3 & H4 & H5).
    destruct (gotTimeout opts) as [t|]; [destruct (t =? 0)%Z|];
      unfold known, events in *; fields; repeat split; auto;
      now apply Forall_snoc.
  - apply known_emit; [constructor | exact K].
Qed.

Lemma steps_to_known Pr w l w' :
  (forall o status h,
      Pr o -> follows o status h = true -> Pr (redirect_opts o h)) ->
  steps_to w l w' -> known Pr w -> known Pr w'.
Proof.
  intros Hred S K. pose proof K as (H1 & H2 & H3 & H4 & H5). destruct S.
  - rewrite H in H4. inversion H4 as [|? ? Ht Hrest]; subst.
    unfold after_task.
    apply (known_emit Pr (set_immediates w rest)).
    + destruct t; cbn; [now constructor | constructor].
    + unfold known, events in *. fields. repeat split; auto.
  - destruct (take_nth_forall _ _ _ _ H H3) as [Ht Hrest].
    apply after_get_known; [exact Ht|].
    unfold known, events in *. fields. repeat split; auto.
  - destruct (take_req_forall _ _ _ _ H H1) as [Hq Hrest].
    assert (K1 : known Pr (answer w req rest)).
    { unfold known, events in *. fields. repeat split; auto.
      now apply Forall_snoc. }
    unfold after_response. destruct (follows _ _ _) eqn:Ef.
    + destruct (_ >? 10).
      * apply (known_emit Pr (set_redirectCount _ _)); [constructor|exact K1].
      * apply after_get_known; [now apply (Hred _ status)|].
        apply (known_emit Pr (set_redirectUrl (set_redirectCount _ _) _));
          [|exact K1].
        cbn. constructor; [now apply (Hred _ status) | constructor].
    + destruct K1 as (A1 & A2 & A3 & A4 & A5).
      unfold known, events in *. fields. repeat split; auto.
      now apply Forall_snoc.
  - destruct (take_req_forall _ _ _ _ H H1) as [Hq Hrest].
    assert (K1 : known Pr (set_requests w (next_req w) rest)).
    { unfold known, events in *. fields. repeat split; auto. }
    unfold after_error. destruct (truthy_num _).
    + destruct K1 as (A1 & A2 & A3 & A4 & A5).
      unfold known, events in *. fields. repeat split; auto.
      now apply Forall_snoc.
    + apply (known_emit Pr (set_retryCount _ _)); [constructor|exact K1].
  - destruct (take_req_forall _ _ _ _ H H2) as [Hq Hrest].
    assert (K1 : known Pr (set_answered w rest)).
    { unfold known, events in *. fields. repeat split; auto. }
    unfold after_error. destruct (truthy_num _).
    + destruct K1 as (A1 & A2 & A3 & A4 & A5).
      unfold known, events in *. fields. repeat split; auto.
      now apply Forall_snoc.
    + apply (known_emit Pr (set_retryCount _ _)); [constructor|exact K1].
Qed.

Lemma start_known Pr opts : Pr opts -> known Pr (start opts).
Proof.
  intros Ho. rewrite start_eq.
  assert (K0 : known Pr (new_world opts)) by (repeat split; constructor).
  pose proof (after_get_known Pr opts _ Ho K0) as K.
  unfold known, events in *. fields. exact K.
Qed.

Lemma run_known Pr opts sched w :
  (forall o status h,
      Pr o -> follows o status h = true -> Pr (redirect_opts o h)) ->
  Pr opts ->
  run (start opts) sched = Some w -> known Pr w /\ listening w = true.
Proof.
  intros Hred Ho. apply (run_ind_listening (known Pr)).
  - intros; eapply steps_to_known; eauto.
  - apply start_listening.
  - now apply start_known.
Qed.

Lemma same_options_refl o : same_options o o.
Proof. repeat split. Qed.

Lemma same_options_redirect o o' h :
  same_options o o' -> same_options o (redirect_opts o' h).
Proof. intros H. exact H. Qed.

End Known.

(* ===================================================================== *)
(** ** C3: a chain of redirects *)
(* ===================================================================== *)

Section Chain.
Context {P : Platform}.

Lemma after_get_supported opts w :
  supported_protocol (protocol opts) = true ->
  let w' := after_get opts w in
  let req := {| req_id := next_req w; req_opts := opts |} in
  inflight w' = (inflight w ++ [req])%list
  /\ next_req w' = S (next_req w)
  /\ immediates w' = (immediates w ++ [EmitRequest req])%list
  /\ emitted w' = emitted w /\ timers w' = timers w
  /\ listening w' = listening w /\ requestUrl w' = requestUrl w
  /\ redirectCount w' = redirectCount w /\ redirectUrl w' = redirectUrl w.
Proof.
  intros Hs. unfold after_get. rewrite Hs.
  destruct (gotTimeout opts) as [t|]; [destruct (t =? 0)%Z|]; cbn;
    repeat split; reflexivity.
Qed.

Lemma take_req_single r q x rest :
  take_req r [q] = Some (x, rest) -> x = q /\ rest = [] /\ req_id q = r.
Proof.
  simpl. destruct (Nat.eqb (req_id q) r) eqn:E; [|discriminate].
  intros [= <- <-]. apply Nat.eqb_eq in E. auto.
Qed.

Lemma terminal_events_emit w e :
  terminal_events (set_emitted w (emitted w ++ [e]))
  = (terminal_events w
     ++ if is_terminal (em_event e) then [em_event e] else [])%list.
Proof.
  unfold terminal_events, events. fields. rewrite map_app, filter_app.
  cbn. destruct (is_terminal (em_event e)); reflexivity.
Qed.



Lemma last_cons {A} (x : A) (l : list A) (d : A) : last (x :: l) d = last l x.
Proof.
  revert x d; induction l as [|y l IH]; intros x d; [reflexivity|].
  change (last (x :: y :: l) d) with (last (y :: l) d).
  rewrite (IH y d), (IH y x). reflexivity.
Qed.





(** *** The requests of a chain *)






End Chain.







(** The same scenario through the buffered adapter: the promise resolves
    with the body read from [/new]. *)
Lemma redirect_scenario_buffered :
  option_map promise
    (buffered_after (P := Node.platform) example_opts (fun _ => Drained "ok")
                    old_to_new)
  = Some (Resolved
            {| env_res :=
                 {| res_req := 1%nat;
                    statusCode := 200;
                    res_headers := [];
                    res_url := "http://example.test/new";
                    res_requestUrl := "http://example.test/old";
                    res_decompressed := true |};
               env_body := BodyText "ok" |}).
Proof. vm_compute. reflexivity. Qed.

(** And through the streaming adapter, with [/new] answering 404: the
    duplex emits [request], [redirect], [request] and an [HTTPError]. *)
Lemma redirect_scenario_stream_404 :
  option_map (fun d => map error_name (proxy_emitted d))
    (stream_after (P := Node.platform) example_opts
       [RunImmediate; Respond O 301 [("location", "/new")];
        RunImmediate; Respond 1%nat 404 []; RunImmediate])
  = Some [None; None; None; Some HTTPError].
Proof. vm_compute. reflexivity. Qed.

(* ===================================================================== *)
(** ** Header objects and strings *)
(* ===================================================================== *)

Lemma header_get_set_same k v h : header_get k (header_set k v h) = Some v.
Proof.
  induction h as [|[k' v'] h IH]; cbn [header_set header_get].
  - now rewrite String.eqb_refl.
  - destruct (k' =? k) eqn:E; cbn [header_get].
    + now rewrite String.eqb_refl.
    + now rewrite E.
Qed.

Lemma header_get_set_other k k' v h :
  k' <> k -> header_get k (header_set k' v h) = header_get k h.
Proof.
  intros Hne. induction h as [|[k1 v1] h IH]; cbn [header_set header_get].
  - destruct (String.eqb_spec k' k); [contradiction | reflexivity].
  - destruct (String.eqb_spec k1 k') as [->|N1]; cbn [header_get].
    + destruct (String.eqb_spec k' k); [contradiction | reflexivity].
    + destruct (k1 =? k); [reflexivity | exact IH].
Qed.

Lemma header_in_set_other k k' v h :
  k' <> k -> header_in k (header_set k' v h) = header_in k h.
Proof. intros Hne. unfold header_in. now rewrite header_get_set_other. Qed.

Lemma header_get_absent k h :
  ~ In k (map fst h) -> header_get k h = None.
Proof.
  induction h as [|[k' v'] h IH]; cbn [header_get map fst In]; [reflexivity|].
  intros Hn. destruct (String.eqb_spec k' k) as [->|N1].
  - exfalso. apply Hn. now left.
  - apply IH. intros Hin. apply Hn. now right.
Qed.

(** [Object.assign(a, b)] leaves alone the properties [b] does not have, and
    takes from [b] the ones it has. *)
Lemma header_get_assign_absent k b : forall a,
  header_get k b = None -> header_get k (header_assign a b) = header_get k a.
Proof.
  unfold header_assign.
  induction b as [|[k1 v1] b IH]; intros a; cbn [fold_left header_get fst snd];
    [reflexivity|].
  destruct (String.eqb_spec k1 k) as [->|N1]; [discriminate|].
  intros Hb. rewrite (IH _ Hb). now apply header_get_set_other.
Qed.

Lemma header_get_assign_present k v b : forall a,
  NoDup (map fst b) -> header_get k b = Some v ->
  header_get k (header_assign a b) = Some v.
Proof.
  induction b as [|[k1 v1] b IH]; intros a Hnd; [discriminate|].
  cbn [map fst] in Hnd. inversion Hnd as [|? ? Hnotin Hnd']; subst.
  cbn [header_get]. destruct (String.eqb_spec k1 k) as [->|N1].
  - intros [= ->].
    change (header_assign a ((k, v) :: b))
      with (header_assign (header_set k v a) b).
    rewrite header_get_assign_absent by now apply header_get_absent.
    apply header_get_set_same.
  - intros Hb.
    change (header_assign a ((k1, v1) :: b))
      with (header_assign (header_set k1 v1 a) b).
    now apply IH.
Qed.

Lemma header_in_cons k k1 v1 h :
  header_in k ((k1, v1) :: h) = (k1 =? k) || header_in k h.
Proof. unfold header_in. cbn [header_get]. now destruct (k1 =? k). Qed.

Lemma header_in_set k k' v h :
  header_in k (header_set k' v h) = (k' =? k) || header_in k h.
Proof.
  destruct (String.eqb_spec k' k) as [->|Hne]; cbn [orb].
  - unfold header_in. now rewrite header_get_set_same.
  - now apply header_in_set_other.
Qed.

Lemma header_in_assign k b : forall a,
  header_in k (header_assign a b) = header_in k b || header_in k a.
Proof.
  induction b as [|[k1 v1] b IH]; intros a; [reflexivity|].
  change (header_assign a ((k1, v1) :: b))
    with (header_assign (header_set k1 v1 a) b).
  rewrite IH, header_in_set, header_in_cons.
  destruct (k1 =? k), (header_in k b), (header_in k a); reflexivity.
Qed.

Lemma or_str_truthy (a b : string) : a <> "" -> or_str a b = a.
Proof.
  intros Ha. unfold or_str, truthy_str.
  destruct (String.eqb_spec a ""); [contradiction | reflexivity].
Qed.

Lemma upper_ascii_idem c : upper_ascii (upper_ascii c) = upper_ascii c.
Proof. destruct c as [[] [] [] [] [] [] [] []]; reflexivity. Qed.

Lemma toUpperCase_idem s : toUpperCase (toUpperCase s) = toUpperCase s.
Proof.
  induction s as [|c s IH]; cbn [toUpperCase]; [reflexivity|].
  now rewrite upper_ascii_idem, IH.
Qed.

Lemma before_question_app p q :
  before_question (before_question p ++ "?" ++ q) = before_question p.
Proof.
  induction p as [|c p IH]; cbn [before_question].
  - reflexivity.
  - destruct (Ascii.eqb c "?"%char) eqn:E.
    + reflexivity.
    + cbn [String.append before_question]. rewrite E. f_equal. exact IH.
Qed.

(* ===================================================================== *)
(** ** The normaliser *)
(* ===================================================================== *)

Section Normalized.
Context {P : Platform}.

(** The headers before the body is looked at (lines 228-246). *)
Lemma normalize_inv url opts o :
  normalizeArguments url opts = Normal o ->
  exists g,
    merged_options url opts = Some g
    /\ target o = fst (unix_socket (apply_query g))
    /\ json o = o_json g /\ form o = o_form g
    /\ exists h1,
        (forall k, k <> "accept" ->
                   header_get k h1
                   = header_get k (default_headers (o_headers g)))
        /\ header_get "accept" h1
           = (if o_json g
                 && negb (header_in "accept" (default_headers (o_headers g)))
              then Some "application/json"
              else header_get "accept" (default_headers (o_headers g)))
        /\ match o_body g with
           | Some b =>
               check_body (o_form g || o_json g) b = Normal tt
               /\ headers o = content_length b (snd (encode_body g b h1))
                                (fst (encode_body g b h1))
               /\ body o = Some (snd (encode_body g b h1))
               /\ method o = toUpperCase (or_str (o_method g) "POST")
           | None =>
               headers o = h1 /\ body o = None
               /\ method o = toUpperCase (or_str (o_method g) "GET")
           end.
Proof.
  unfold normalizeArguments, merged_options.
  destruct (check_url url) as [uo|e]; [|discriminate].
  set (g := merge_options uo opts).
  set (h0 := default_headers (o_headers g)).
  set (h1 := if o_json g && negb (header_in "accept" h0)
             then header_set "accept" "application/json" h0 else h0).
  intros Hn. exists g. split; [reflexivity|].
  assert (Hh1 : (forall k, k <> "accept" -> header_get k h1 = header_get k h0)
                /\ header_get "accept" h1
                   = (if o_json g && negb (header_in "accept" h0)
                      then Some "application/json"
                      else header_get "accept" h0)).
  { unfold h1. destruct (o_json g && negb (header_in "accept" h0)).
    - split; [|apply header_get_set_same].
      intros k Hk. apply header_get_set_other. congruence.
    - split; reflexivity. }
  destruct (o_body g) as [b|] eqn:Eb.
  - destruct (check_body (o_form g || o_json g) b) as [[]|e] eqn:Ec;
      [|discriminate].
    injection Hn as <-. cbn [target json form headers body method].
    repeat split. exists h1. repeat split; try apply Hh1.
  - injection Hn as <-. cbn [target json form headers body method].
    repeat split. exists h1. repeat split; apply Hh1.
Qed.

Lemma encode_body_content_type g b h :
  exists ct,
    fst (encode_body g b h) = h
    \/ fst (encode_body g b h) = or_header "content-type" ct h.
Proof.
  destruct b as [s|s|[bd|]|obj|]; cbn [encode_body fst];
    try (exists ""; now left).
  - eexists; right; reflexivity.
  - destruct (o_form g); [eexists; right; reflexivity|].
    destruct (o_json g); [eexists; right; reflexivity|].
    exists ""; now left.
Qed.

Lemma encode_body_other g b h k :
  k <> "content-type" ->
  header_get k (fst (encode_body g b h)) = header_get k h.
Proof.
  intros Hk. destruct (encode_body_content_type g b h) as (ct & [->| ->]);
    [reflexivity|].
  unfold or_header. apply header_get_set_other. congruence.
Qed.

Lemma content_length_other b enc h k :
  k <> "content-length" ->
  header_get k (content_length b enc h) = header_get k h.
Proof.
  intros Hk. unfold content_length.
  destruct (negb (header_in "content-length" h)
            && negb (header_in "transfer-encoding" h) && negb (isStream b));
    [|reflexivity].
  destruct enc; try reflexivity; apply header_get_set_other; congruence.
Qed.

Lemma default_headers_absent g k :
  header_in k (caller_headers g) = false ->
  header_get k (default_headers (o_headers g))
  = header_get k
      [("user-agent", user_agent); ("accept-encoding", "gzip,deflate")].
Proof.
  intros Hk. unfold default_headers. apply header_get_assign_absent.
  unfold header_in, caller_headers in Hk.
  destruct (header_get k _); [discriminate | reflexivity].
Qed.

Lemma method_is_upper_case_aux url opts o :
  normalizeArguments url opts = Normal o ->
  exists g,
    merged_options url opts = Some g
    /\ (o_method g <> "" -> method o = toUpperCase (o_method g)).
Proof.
  intros Hn. destruct (normalize_inv _ _ _ Hn)
    as (g & Hg & _ & _ & _ & h1 & _ & _ & Hb).
  exists g. split; [exact Hg|]. intros Hne.
  destruct (o_body g) as [b|].
  - destruct Hb as (_ & _ & _ & ->). now rewrite or_str_truthy.
  - destruct Hb as (_ & _ & ->). now rewrite or_str_truthy.
Qed.

(** X1. The method of a normalised descriptor is in upper case. When the
    caller named no method it is POST for a request with a body and GET for
    one without; a method the caller named is kept, in upper case, whether
    or not there is a body. *)
Theorem method_is_upper_case (url : UrlArg) (opts : UserOptions) (o : Opts) :
  normalizeArguments url opts = Normal o ->
  toUpperCase (method o) = method o
  /\ exists g,
      merged_options url opts = Some g
      /\ (body o = None <-> o_body g = None)
      /\ (o_method g = "" ->
          method o = match body o with Some _ => "POST" | None => "GET" end)
      /\ (o_method g <> "" -> method o = toUpperCase (o_method g)).
Proof.
  intros Hn. destruct (normalize_inv _ _ _ Hn)
    as (g & Hg & _ & _ & _ & h1 & _ & _ & Hb).
  destruct (o_body g) as [b|] eqn:Eb.
  - destruct Hb as (_ & _ & Hbody & Hm). rewrite Hm, Hbody. split.
    + apply toUpperCase_idem.
    + exists g. split; [exact Hg|]. rewrite Eb. repeat split; try discriminate.
      * intros ->. reflexivity.
      * intros Hne. now rewrite or_str_truthy.
  - destruct Hb as (_ & Hbody & Hm). rewrite Hm, Hbody. split.
    + apply toUpperCase_idem.
    + exists g. split; [exact Hg|]. rewrite Eb. repeat split.
      * intros ->. reflexivity.
      * intros Hne. now rewrite or_str_truthy.
Qed.

(** X2. The body of a normalised descriptor is something the transport can
    send: a string, a buffer or a stream, never a plain object or a value of
    another type. With [form] or [json] it is a string, the encoded
    object. *)
Theorem normalized_body_is_sendable
        (url : UrlArg) (opts : UserOptions) (o : Opts) (b : Body) :
  normalizeArguments url opts = Normal o ->
  body o = Some b ->
  isStream b || is_string_body b || is_buffer_body b = true
  /\ (form o || json o = true -> is_string_body b = true).
Proof.
  intros Hn Hbody. destruct (normalize_inv _ _ _ Hn)
    as (g & Hg & _ & Hj & Hf & h1 & _ & _ & Hb).
  rewrite Hj, Hf.
  destruct (o_body g) as [b0|] eqn:Eb.
  - destruct Hb as (Hc & _ & Hbody' & _). rewrite Hbody in Hbody'.
    injection Hbody' as ->. unfold check_body in Hc. unfold encode_body.
    destruct b0 as [s|s|bd|obj|]; destruct (o_form g), (o_json g);
      cbn in Hc |- *; try discriminate; try destruct bd; auto.
  - destruct Hb as (_ & Hbody' & _). congruence.
Qed.

(** X3. The normaliser overwrites no header of the caller: a header the
    caller gave is in the descriptor, under its lower-cased name and with
    the caller's value - the only exception being an empty [content-type],
    which counts as absent. *)
Theorem caller_headers_survive
        (url : UrlArg) (opts g : UserOptions) (o : Opts) (k v : string) :
  merged_options url opts = Some g ->
  normalizeArguments url opts = Normal o ->
  NoDup (map fst (caller_headers g)) ->
  header_get k (caller_headers g) = Some v ->
  (k = "content-type" -> v <> "") ->
  header_get k (headers o) = Some v.
Proof.
  intros Hg0 Hn Hnd Hk Hct. destruct (normalize_inv _ _ _ Hn)
    as (g' & Hg & _ & _ & _ & h1 & Hother & Haccept & Hb).
  assert (g' = g) by congruence. subst g'.
  assert (H0 : header_get k (default_headers (o_headers g)) = Some v)
    by (apply header_get_assign_present; assumption).
  assert (H1 : header_get k h1 = Some v).
  { destruct (String.eqb_spec k "accept") as [->|Na].
    - rewrite Haccept. unfold header_in. rewrite H0.
      now rewrite andb_false_r.
    - now rewrite Hother. }
  destruct (o_body g) as [b|].
  - destruct Hb as (_ & -> & _ & _).
    assert (He : header_get k (fst (encode_body g b h1)) = Some v).
    { destruct (String.eqb_spec k "content-type") as [->|Nc].
      - destruct (encode_body_content_type g b h1) as (ct & [->| ->]);
          [exact H1|].
        unfold or_header. rewrite header_get_set_same, H1. cbn [or_opt].
        now rewrite or_str_truthy by auto.
      - now rewrite encode_body_other. }
    destruct (String.eqb_spec k "content-length") as [->|Nl].
    + unfold content_length, header_in. now rewrite He.
    + now rewrite content_length_other.
  - destruct Hb as (-> & _ & _). exact H1.
Qed.

(** X4. When the caller gave no [content-length], the normaliser adds one
    exactly for a body that is a string or a buffer and a request without
    [transfer-encoding]: the byte length of the body as it will be sent,
    that is after the form or JSON encoding. A stream, or no body, gets
    none. *)
Theorem content_length_of_body
        (url : UrlArg) (opts g : UserOptions) (o : Opts) :
  merged_options url opts = Some g ->
  normalizeArguments url opts = Normal o ->
  header_in "content-length" (caller_headers g) = false ->
  header_get "content-length" (headers o)
  = if header_in "transfer-encoding" (caller_headers g) then None
    else body_length (body o).
Proof.
  intros Hg0 Hn Hcl. destruct (normalize_inv _ _ _ Hn)
    as (g' & Hg & _ & _ & _ & h1 & Hother & _ & Hb).
  assert (g' = g) by congruence. subst g'.
  assert (L1 : header_get "content-length" h1 = None).
  { rewrite Hother by discriminate. now rewrite default_headers_absent. }
  assert (T1 : header_in "transfer-encoding" h1
               = header_in "transfer-encoding" (caller_headers g)).
  { unfold header_in at 1. rewrite Hother by discriminate.
    fold (header_in "transfer-encoding" (default_headers (o_headers g))).
    unfold default_headers. rewrite header_in_assign.
    fold (caller_headers g). apply orb_false_r. }
  destruct (o_body g) as [b|].
  - destruct Hb as (_ & -> & -> & _).
    assert (L3 : header_get "content-length" (fst (encode_body g b h1)) = None).
    { rewrite encode_body_other by discriminate. exact L1. }
    assert (L2 : header_in "content-length" (fst (encode_body g b h1)) = false).
    { unfold header_in. now rewrite L3. }
    assert (T2 : header_in "transfer-encoding" (fst (encode_body g b h1))
                 = header_in "transfer-encoding" (caller_headers g)).
    { rewrite <- T1. unfold header_in.
      now rewrite encode_body_other by discriminate. }
    unfold content_length. rewrite L2, T2.
    destruct (header_in "transfer-encoding" (caller_headers g));
      cbn [negb andb]; [exact L3|].
    destruct (isStream b) eqn:Es; cbn [negb].
    + destruct b; try discriminate. destruct boundary; exact L3.
    + destruct (snd (encode_body g b h1)); cbn [body_length];
        try exact L3; apply header_get_set_same.
  - destruct Hb as (-> & -> & _).
    destruct (header_in "transfer-encoding" (caller_headers g)); exact L1.
Qed.

(** X5. Where the caller gave no header of that name, the descriptor
    carries the defaults: the [user-agent] of the package, [accept-encoding]
    [gzip,deflate], [accept] [application/json] exactly when JSON decoding is
    asked for, and the [content-type] of the body: multipart for a form-data
    stream, URL-encoded for a form, JSON for a JSON object, none
    otherwise. *)
Theorem default_headers_when_absent
        (url : UrlArg) (opts g : UserOptions) (o : Opts) :
  merged_options url opts = Some g ->
  normalizeArguments url opts = Normal o ->
  (header_in "user-agent" (caller_headers g) = false ->
   header_get "user-agent" (headers o) = Some user_agent)
  /\ (header_in "accept-encoding" (caller_headers g) = false ->
      header_get "accept-encoding" (headers o) = Some "gzip,deflate")
  /\ (header_in "accept" (caller_headers g) = false ->
      header_get "accept" (headers o)
      = if json o then Some "application/json" else None)
  /\ (header_in "content-type" (caller_headers g) = false ->
      header_get "content-type" (headers o) = default_content_type g).
Proof.
  intros Hg0 Hn. destruct (normalize_inv _ _ _ Hn)
    as (g' & Hg & _ & Hj & _ & h1 & Hother & Haccept & Hb).
  assert (g' = g) by congruence. subst g'.
  assert (Hlate : forall k, k <> "content-type" -> k <> "content-length" ->
                            header_get k (headers o) = header_get k h1).
  { intros k Hc Hl. destruct (o_body g) as [b|].
    - destruct Hb as (_ & -> & _ & _).
      rewrite content_length_other by assumption.
      now apply encode_body_other.
    - destruct Hb as (-> & _ & _). reflexivity. }
  split; [|split; [|split]].
  - intros Ha. rewrite Hlate, Hother by discriminate.
    now rewrite default_headers_absent.
  - intros Ha. rewrite Hlate, Hother by discriminate.
    now rewrite default_headers_absent.
  - intros Ha. rewrite Hlate, Haccept by discriminate.
    unfold header_in at 1. rewrite default_headers_absent by exact Ha.
    rewrite Hj. cbn [header_get]. cbn. now destruct (o_json g).
  - intros Ha.
    assert (H1 : header_get "content-type" h1 = None).
    { rewrite Hother by discriminate. now rewrite default_headers_absent. }
    unfold default_content_type. destruct (o_body g) as [b|].
    + destruct Hb as (_ & -> & _ & _).
      rewrite content_length_other by discriminate.
      unfold encode_body, or_header. rewrite H1. cbn [or_opt].
      destruct b as [s|s|[bd|]|obj|]; cbn [fst]; try exact H1.
      * apply header_get_set_same.
      * destruct (o_form g); [apply header_get_set_same|].
        destruct (o_json g); [apply header_get_set_same | exact H1].
    + destruct Hb as (-> & _ & _). exact H1.
Qed.

(** X6. A query the caller gives replaces the query string of the URL: the
    path of the descriptor is the path of the URL up to its first question
    mark, a question mark, and the query - a string as it is, an object
    through [querystring.stringify] - and the [query] option is gone. The
    part of the path before the question mark is unchanged. *)
Theorem query_replaces_search
        (url : UrlArg) (opts g : UserOptions) (o : Opts) (q : Query) :
  merged_options url opts = Some g ->
  normalizeArguments url opts = Normal o ->
  o_query g = Some q ->
  (forall s, q = QueryString s -> s <> "") ->
  u_hostname (o_url g) <> "unix" ->
  path o = before_question (u_path (o_url g)) ++ "?" ++ query_string q
  /\ before_question (path o) = before_question (u_path (o_url g))
  /\ u_query (target o) = "".
Proof.
  intros Hg0 Hn Hq Hne Hux. destruct (normalize_inv _ _ _ Hn)
    as (g' & Hg & Ht & _).
  assert (g' = g) by congruence. subst g'.
  assert (Ha : apply_query g
               = set_query (set_path (o_url g)
                              (before_question (u_path (o_url g)) ++ "?"
                               ++ query_string q)) "").
  { unfold apply_query. rewrite Hq. destruct q as [s|qo]; cbn [query_string].
    - unfold truthy_str.
      destruct (String.eqb_spec s "") as [E|_]; [|reflexivity].
      exfalso. now apply (Hne s).
    - reflexivity. }
  assert (Hu : unix_socket (apply_query g) = (apply_query g, "")).
  { unfold unix_socket. rewrite Ha. cbn [u_hostname set_query set_path].
    destruct (String.eqb_spec (u_hostname (o_url g)) "unix");
      [contradiction | reflexivity]. }
  unfold path. rewrite Ht, Hu, Ha. cbn [fst u_path u_query set_query set_path].
  repeat split. apply before_question_app.
Qed.

(** X7. Each verb helper, [got.get] to [got.delete] and [got.stream.get]
    to [got.stream.delete], is the entry point with the method set to its
    name: the helper's method replaces a method the caller put in the
    options and is not replaced by the default for a request with a body,
    and the descriptor goes to the same adapter as without the helper. *)
Theorem helper_sets_method
        (el : string) (url : UrlArg) (opts : UserOptions) (o : Opts) :
  In el helpers ->
  normalizeArguments url (with_method opts el) = Normal o ->
  method o = toUpperCase el
  /\ got_helper el url opts = Normal (asPromise o)
  /\ got_stream_helper el url opts = asStream o.
Proof.
  intros Hel Hn.
  assert (Hne : el <> "").
  { intros ->. cbn in Hel. decompose [or] Hel; try discriminate; contradiction. }
  split; [|split].
  - destruct (method_is_upper_case_aux url (with_method opts el) o Hn)
      as (g & Hg & Hm).
    assert (He : o_method g = el).
    { unfold merged_options in Hg.
      destruct (check_url url) as [uo|e]; [|discriminate].
      injection Hg as <-.
      cbn [merge_options with_method options_assign o_method method_option].
      rewrite (or_str_truthy el) by exact Hne.
      now rewrite or_str_truthy. }
    rewrite Hm; rewrite He; [reflexivity | exact Hne].
  - unfold got_helper, got. now rewrite Hn.
  - unfold got_stream_helper, got_stream. now rewrite Hn.
Qed.

End Normalized.

Lemma method_is_upper_case_witness :
  exists o,
    normalizeArguments (P := Node.platform) example_url (method_option "delete")
    = Normal o
    /\ method o = "DELETE".
Proof.
  eexists. split; [normalizes|].
  match goal with
  | |- method ?O = _ =>
      destruct (@method_is_upper_case Node.platform example_url
                  (method_option "delete") O)
        as (_ & g & Hg & _ & _ & Hm); [normalizes|]
  end.
  vm_compute in Hg. injection Hg as <-.
  rewrite Hm; [reflexivity | discriminate].
Defined.

Lemma normalized_body_is_sendable_witness :
  exists o b,
    normalizeArguments (P := Node.platform) example_url json_options = Normal o
    /\ body o = Some b
    /\ is_string_body b = true.
Proof.
  eexists. eexists. split; [normalizes|]. split; [reflexivity|].
  match goal with
  | |- is_string_body ?B = true =>
      refine (proj2 (@normalized_body_is_sendable Node.platform example_url
                       json_options _ B _ _) _)
  end.
  - normalizes.
  - reflexivity.
  - reflexivity.
Defined.

Lemma caller_headers_survive_witness :
  let g := given "http://example.test/old" post_options in
  merged_options (P := Node.platform) example_url post_options = Some g
  /\ NoDup (map fst (caller_headers (P := Node.platform) g))
  /\ header_get "x-token" (caller_headers (P := Node.platform) g) = Some "abc"
  /\ exists o,
      normalizeArguments (P := Node.platform) example_url post_options = Normal o
      /\ header_get "x-token" (headers o) = Some "abc".
Proof.
  intros g.
  assert (Hg : merged_options (P := Node.platform) example_url post_options
               = Some g) by reflexivity.
  assert (Hnd : NoDup (map fst (caller_headers (P := Node.platform) g))).
  { cbv. constructor; [intros [] | constructor]. }
  split; [exact Hg|]. split; [exact Hnd|]. split; [reflexivity|].
  eexists. split; [normalizes|].
  match goal with
  | |- header_get _ (headers ?O) = _ =>
      apply (@caller_headers_survive Node.platform example_url post_options
               g O "x-token" "abc" Hg)
  end.
  - normalizes.
  - exact Hnd.
  - reflexivity.
  - discriminate.
Defined.

Lemma content_length_of_body_witness :
  let g := given "http://example.test/old" post_options in
  merged_options (P := Node.platform) example_url post_options = Some g
  /\ header_in "content-length" (caller_headers (P := Node.platform) g) = false
  /\ exists o,
      normalizeArguments (P := Node.platform) example_url post_options = Normal o
      /\ header_get "content-length" (headers o) = Some "5".
Proof.
  intros g.
  assert (Hg : merged_options (P := Node.platform) example_url post_options
               = Some g) by reflexivity.
  split; [exact Hg|]. split; [reflexivity|].
  eexists. split; [normalizes|].
  match goal with
  | |- header_get _ (headers ?O) = _ =>
      rewrite (@content_length_of_body Node.platform example_url post_options
                 g O Hg)
  end.
  - reflexivity.
  - normalizes.
  - reflexivity.
Defined.

Lemma default_headers_when_absent_witness :
  let g := given "http://example.test/old" json_options in
  merged_options (P := Node.platform) example_url json_options = Some g
  /\ header_in "accept" (caller_headers (P := Node.platform) g) = false
  /\ exists o,
      normalizeArguments (P := Node.platform) example_url json_options = Normal o
      /\ header_get "accept" (headers o) = Some "application/json".
Proof.
  intros g.
  assert (Hg : merged_options (P := Node.platform) example_url json_options
               = Some g) by reflexivity.
  split; [exact Hg|]. split; [reflexivity|].
  eexists. split; [normalizes|].
  match goal with
  | |- header_get _ (headers ?O) = _ =>
      destruct (@default_headers_when_absent Node.platform example_url
                  json_options g O Hg) as (_ & _ & Ha & _); [normalizes|]
  end.
  rewrite Ha; reflexivity.
Defined.

Lemma query_replaces_search_witness :
  let url := "http://example.test/old?page=1" in
  let g := given url query_options in
  merged_options (P := Node.platform) (UrlString url) query_options = Some g
  /\ o_query g = Some (QueryString "page=2")
  /\ u_hostname (o_url g) <> "unix"
  /\ exists o,
      normalizeArguments (P := Node.platform) (UrlString url) query_options
      = Normal o
      /\ path o = "/old?page=2".
Proof.
  intros url g.
  assert (Hg : merged_options (P := Node.platform) (UrlString url) query_options
               = Some g) by reflexivity.
  assert (Hu : u_hostname (o_url g) <> "unix") by (vm_compute; discriminate).
  split; [exact Hg|]. split; [reflexivity|]. split; [exact Hu|].
  eexists. split; [normalizes|].
  match goal with
  | |- path ?O = _ =>
      destruct (@query_replaces_search Node.platform (UrlString url)
                  query_options g O (QueryString "page=2") Hg)
        as (Hp & _ & _)
  end.
  - normalizes.
  - reflexivity.
  - intros s [= <-]. discriminate.
  - exact Hu.
  - rewrite Hp. reflexivity.
Defined.

Lemma helper_sets_method_witness :
  In "head" helpers
  /\ exists o,
      normalizeArguments (P := Node.platform) example_url
        (with_method post_options "head") = Normal o
      /\ method o = "HEAD"
      /\ got_helper (P := Node.platform) "head" example_url post_options
         = Normal (asPromise (P := Node.platform) o).
Proof.
  assert (Hin : In "head" helpers) by (cbv; auto 10).
  split; [exact Hin|].
  eexists. split; [normalizes|].
  match goal with
  | |- method ?O = _ /\ _ =>
      destruct (@helper_sets_method Node.platform "head" example_url
                  post_options O Hin) as (Hm & Hg & _); [normalizes|]
  end.
  split; [rewrite Hm; reflexivity | exact Hg].
Defined.

(* ===================================================================== *)
(** ** The attempts of a logical request *)
(* ===================================================================== *)

Section Attempts.
Context {P : Platform}.

(** X8. Redirects and retries change nothing but the URL: in every run of
    the host, the descriptor of every request ever created - the one of each
    [request] event, of each [redirect] event, of each request in flight and
    of each retry timer - has the headers, the method, the redirect mode,
    the retry policy, the timeout and the socket path of the descriptor the
    logical request started with. *)
Theorem options_survive_redirects_and_retries
        (opts : Opts) (sched : list Label) (w : World) :
  run (start opts) sched = Some w ->
  (forall req, In (EvRequest req) (events w) ->
               same_options opts (req_opts req))
  /\ (forall res redirectOpts,
        In (EvRedirect res redirectOpts) (events w) ->
        same_options opts redirectOpts)
  /\ (forall q, In q (inflight w) -> same_options opts (req_opts q))
  /\ (forall t, In t (timers w) -> same_options opts (tm_opts t)).
Proof.
  intros Hrun.
  destruct (run_known (same_options opts) opts sched w
              (fun o _ h Ho _ => same_options_redirect opts o h Ho)
              (same_options_refl opts) Hrun)
    as [(H1 & H2 & H3 & H4 & H5) _].
  rewrite Forall_forall in *. split; [|split; [|split]].
  - intros req Hin. specialize (H5 _ Hin). cbn in H5. now inversion H5.
  - intros res ro Hin. specialize (H5 _ Hin). cbn in H5. now inversion H5.
  - exact H1.
  - exact H3.
Qed.

(** *** The timeout *)

Lemma after_get_deadlines t opts w :
  gotTimeout opts = t ->
  deadlines w = deadlines_for t (next_req w) ->
  deadlines (after_get opts w)
  = deadlines_for t (next_req (after_get opts w)).
Proof.
  intros <- Hd. unfold after_get. destruct (supported_protocol _);
    [|exact Hd].
  unfold deadlines_for in *.
  destruct (gotTimeout opts) as [t|]; [destruct (t =? 0)%Z eqn:E|]; fields;
    try exact Hd.
  rewrite seq_S, map_app, Hd. reflexivity.
Qed.

Lemma steps_to_deadlines t w l w' :
  steps_to w l w' ->
  known (fun o => gotTimeout o = t) w ->
  deadlines w = deadlines_for t (next_req w) ->
  deadlines w' = deadlines_for t (next_req w').
Proof.
  intros S (H1 & H2 & H3 & H4 & H5) Hd; destruct S.
  - exact Hd.
  - destruct (take_nth_forall _ _ _ _ H H3) as [Ht _].
    apply after_get_deadlines; [exact Ht | exact Hd].
  - destruct (take_req_forall _ _ _ _ H H1) as [Hq _].
    unfold after_response. destruct (follows _ _ _); [|exact Hd].
    destruct (_ >? 10); [exact Hd|].
    apply after_get_deadlines; [exact Hq | exact Hd].
  - unfold after_error. destruct (truthy_num _); exact Hd.
  - unfold after_error. destruct (truthy_num _); exact Hd.
Qed.

Lemma run_deadlines opts sched w :
  run (start opts) sched = Some w ->
  deadlines w = deadlines_for (gotTimeout opts) (next_req w).
Proof.
  intros Hrun.
  set (t := gotTimeout opts).
  assert (H : (known (fun o => gotTimeout o = t) w
               /\ deadlines w = deadlines_for t (next_req w))
              /\ listening w = true).
  { revert Hrun.
    apply (run_ind_listening
             (fun w => known (fun o => gotTimeout o = t) w
                       /\ deadlines w = deadlines_for t (next_req w))).
    - intros w0 l w1 L [K Hd] S. split.
      + eapply steps_to_known; [|exact S|exact K]. intros o _ h Ho _. exact Ho.
      + eapply steps_to_deadlines; eauto.
    - apply start_listening.
    - split; [now apply start_known|].
      rewrite start_eq.
      change (deadlines (after_get opts (new_world opts))
              = deadlines_for t (next_req (after_get opts (new_world opts)))).
      apply after_get_deadlines; [reflexivity|].
      unfold deadlines_for. cbn. destruct t as [t0|]; [destruct (t0 =? 0)%Z|];
        reflexivity. }
  apply H.
Qed.

(** X9. The timeout is per attempt: in every run of the host, each
    request created so far - the first, those for redirects, those for
    retries - was handed to [timedOut] with the timeout of the descriptor,
    once and in the order of creation; without a timeout [timedOut] is
    never called. *)
Theorem every_attempt_gets_the_timeout
        (opts : Opts) (sched : list Label) (w : World) :
  run (start opts) sched = Some w ->
  deadlines w = deadlines_for (gotTimeout opts) (next_req w)
  /\ (forall r t, In (r, t) (deadlines w) ->
                  gotTimeout opts = Some t /\ (r < next_req w)%nat)
  /\ (forall t, gotTimeout opts = Some t -> t <> 0 ->
                forall r, (r < next_req w)%nat -> In (r, t) (deadlines w)).
Proof.
  intros Hrun. rewrite (run_deadlines opts sched w Hrun).
  split; [reflexivity|]. unfold deadlines_for. split.
  - intros r t Hin. destruct (gotTimeout opts) as [t0|]; [|destruct Hin].
    destruct (t0 =? 0)%Z; [destruct Hin|].
    apply in_map_iff in Hin. destruct Hin as (r0 & [= <- <-] & Hr).
    apply in_seq in Hr. split; [reflexivity | lia].
  - intros t -> Hne r Hr.
    destruct (Z.eqb_spec t 0); [contradiction|].
    apply in_map_iff. exists r. split; [reflexivity|]. apply in_seq. lia.
Qed.

(** *** The number of attempts *)

Lemma after_get_counts opts w :
  (next_req (after_get opts w) <= S (next_req w))%nat
  /\ timers (after_get opts w) = timers w
  /\ redirectCount (after_get opts w) = redirectCount w
  /\ retryCount (after_get opts w) = retryCount w.
Proof.
  unfold after_get. destruct (supported_protocol _).
  - destruct (gotTimeout opts) as [t|]; [destruct (t =? 0)%Z|]; fields;
      repeat split; lia.
  - fields. repeat split; lia.
Qed.

Lemma steps_to_budget K pol w l w' :
  stops_after K pol ->
  steps_to w l w' ->
  known (fun o => retries o = pol) w ->
  within_budget K w -> within_budget K w'.
Proof.
  intros Hstop S (H1 & H2 & H3 & H4 & H5) B. unfold within_budget in *.
  assert (Hfail : forall q w0 err u,
             retries (req_opts q) = pol ->
             next_req w0 = next_req w -> timers w0 = timers w ->
             redirectCount w0 = redirectCount w ->
             retryCount w0 = retryCount w ->
             Z.of_nat (next_req (after_error q err u w0)
                       + List.length (timers (after_error q err u w0)))
             <= 1 + Z.min (redirectCount (after_error q err u w0)) 10
                + Z.min (retryCount (after_error q err u w0)) K).
  { intros q w0 err u Hq E1 E2 E3 E4. unfold after_error.
    destruct (truthy_num _) eqn:E; fields;
      rewrite ?length_app, E1, E2, E3, E4; cbn [List.length].
    - assert (retryCount w + 1 <= K).
      { destruct (Z_le_gt_dec (retryCount w + 1) K) as [|G]; [assumption|].
        rewrite E4, Hq, Hstop in E by lia. discriminate. }
      lia.
    - lia. }
  destruct S.
  - exact B.
  - apply take_nth_length in H.
    destruct (after_get_counts (tm_opts t) (set_timers w rest))
      as (G1 & G2 & G3 & G4).
    rewrite G2, G3, G4. fields. lia.
  - unfold after_response. destruct (follows _ _ _); [|exact B].
    destruct (_ >? 10) eqn:E; fields; rewrite Z.gtb_ltb in E.
    + lia.
    + apply Z.ltb_ge in E.
      match goal with
      | |- context [after_get ?o ?x] =>
          destruct (after_get_counts o x) as (G1 & G2 & G3 & G4)
      end.
      rewrite G2, G3, G4. fields. lia.
  - destruct (take_req_forall _ _ _ _ H H1) as [Hq _].
    apply Hfail; auto.
  - destruct (take_req_forall _ _ _ _ H H2) as [Hq _].
    apply Hfail; auto.
Qed.

Lemma run_within_budget opts K sched w :
  0 <= K ->
  stops_after K (retries opts) ->
  run (start opts) sched = Some w ->
  within_budget K w.
Proof.
  intros HK Hstop Hrun.
  assert (H : (known (fun o => retries o = retries opts) w
               /\ within_budget K w) /\ listening w = true).
  { revert Hrun.
    apply (run_ind_listening
             (fun w => known (fun o => retries o = retries opts) w
                       /\ within_budget K w)).
    - intros w0 l w1 L [Kn B] S. split.
      + eapply steps_to_known; [|exact S|exact Kn].
        intros o _ h Ho _. exact Ho.
      + eapply steps_to_budget; eauto.
    - apply start_listening.
    - split; [now apply start_known|].
      rewrite start_eq. unfold within_budget. fields.
      destruct (after_get_counts opts (new_world opts)) as (G1 & G2 & G3 & G4).
      rewrite G2, G3, G4. cbn [new_world next_req timers redirectCount
                                retryCount List.length] in *. lia. }
  apply H.
Qed.

(** X10. A logical request whose policy grants at most [K] retries hands at
    most [11 + K] requests to the transport, whatever the transport answers
    and in whatever order the host runs the callbacks: the first request,
    one for each of at most ten redirects followed, one for each retry
    granted. *)
Theorem attempts_are_bounded
        (opts : Opts) (K : Z) (sched : list Label) (w : World) :
  0 <= K ->
  stops_after K (retries opts) ->
  run (start opts) sched = Some w ->
  Z.of_nat (next_req w) <= 11 + K.
Proof.
  intros HK Hstop Hrun.
  pose proof (run_within_budget opts K sched w HK Hstop Hrun) as B.
  unfold within_budget in B. lia.
Qed.

(** X11. With a transport that reports each request once, the attempts of
    a logical request never overlap: at any time at most one request is in
    flight or one retry timer is pending, never both, and as long as one is,
    no terminal event has been published. *)
Theorem one_attempt_at_a_time
        (opts : Opts) (sched : list Label) (w : World) :
  prompt_schedule sched ->
  run (start opts) sched = Some w ->
  (List.length (inflight w) + List.length (timers w) <= 1)%nat
  /\ (inflight w <> [] \/ timers w <> [] -> terminal_events w = []).
Proof.
  intros Hp Hrun. destruct (run_balanced opts sched w Hp Hrun) as [B _].
  unfold balanced, live in B. split; [lia|].
  intros Hne. apply length_zero_iff_nil.
  destruct (inflight w), (timers w); cbn [List.length] in *;
    try lia. destruct Hne; contradiction.
Qed.

(** *** Redirects *)

(** X12. A redirect to a URL whose protocol is neither [http:] nor
    [https:] ends the logical request: the engine publishes the [redirect]
    event for the new descriptor and then, from the [get] it runs for it, an
    [UnsupportedProtocolError] for that descriptor; no request is created. *)
Theorem redirect_to_unsupported_protocol
        (w : World) (r : ReqId) (status : Z) (h : Headers)
        (req : Request) (rest : list Request) :
  listening w = true ->
  take_req r (inflight w) = Some (req, rest) ->
  follows (req_opts req) status h = true ->
  redirectCount w + 1 <= 10 ->
  supported_protocol
    (u_protocol (url_parse (redirect_target (req_opts req) h))) = false ->
  let redirectOpts := redirect_opts (req_opts req) h in
  exists w',
    step w (Respond r status h) = Some w'
    /\ events w'
       = (events w
          ++ [EvRedirect (response_of w req status h) redirectOpts;
              EvError (new_UnsupportedProtocolError redirectOpts) None])%list
    /\ e_name (new_UnsupportedProtocolError redirectOpts)
       = UnsupportedProtocolError
    /\ next_req w' = next_req w /\ inflight w' = rest
    /\ timers w' = timers w /\ immediates w' = immediates w.
Proof.
  intros L Ht Hf Hc Hs redirectOpts.
  exists (after_response req status h (answer w req rest)). split.
  { simpl. rewrite Ht. now rewrite on_response_listening by exact L. }
  unfold after_response. rewrite Hf. fields.
  replace (redirectCount w + 1 >? 10) with false
    by (symmetry; rewrite Z.gtb_ltb; apply Z.ltb_ge; lia).
  unfold after_get. fold redirectOpts.
  replace (supported_protocol (protocol redirectOpts)) with false
    by (symmetry; exact Hs).
  unfold events. fields. rewrite !map_app, <- app_assoc.
  repeat split.
Qed.

(** X13. Redirects are followed for GET and HEAD only, and only when
    [followRedirect] is on: for any other descriptor no run of the host
    publishes a [redirect] event, the redirect counter stays at 0 and no URL
    other than the requested one is ever requested. *)
Theorem no_redirect_unless_get_or_head
        (opts : Opts) (sched : list Label) (w : World) :
  (method opts <> "GET" /\ method opts <> "HEAD")
  \/ followRedirect opts = false ->
  run (start opts) sched = Some w ->
  filter is_redirect_event (events w) = []
  /\ redirectCount w = 0
  /\ redirectUrl w = None
  /\ forall req, In (EvRequest req) (events w) ->
                 target (req_opts req) = target opts.
Proof.
  intros Hno Hrun.
  set (Pr := fun o => method o = method opts
                      /\ followRedirect o = followRedirect opts
                      /\ target o = target opts).
  assert (Hfol : forall o status h, Pr o -> follows o status h = false).
  { intros o status h (Hm & Hf & _). unfold follows. rewrite Hm, Hf.
    destruct Hno as [[Hg Hh]| ->].
    - destruct (String.eqb_spec (method opts) "GET"); [contradiction|].
      destruct (String.eqb_spec (method opts) "HEAD"); [contradiction|].
      now rewrite andb_false_r.
    - now rewrite andb_false_r. }
  assert (Hred : forall o status h,
             Pr o -> follows o status h = true -> Pr (redirect_opts o h)).
  { intros o status h Ho Hf. rewrite (Hfol o status h Ho) in Hf.
    discriminate. }
  assert (H : (known Pr w /\ filter is_redirect_event (events w) = []
               /\ redirectCount w = 0 /\ redirectUrl w = None)
              /\ listening w = true).
  { revert Hrun.
    apply (run_ind_listening
             (fun w => known Pr w /\ filter is_redirect_event (events w) = []
                       /\ redirectCount w = 0 /\ redirectUrl w = None)).
    - intros w0 l w1 L (K & He & Hc & Hu) S.
      split; [exact (steps_to_known Pr _ _ _ Hred S K)|].
      pose proof K as (H1 & H2 & H3 & H4 & H5).
      assert (Hget : forall o x,
                filter is_redirect_event (events x) = [] ->
                redirectCount x = 0 -> redirectUrl x = None ->
                filter is_redirect_event (events (after_get o x)) = []
                /\ redirectCount (after_get o x) = 0
                /\ redirectUrl (after_get o x) = None).
      { intros o x E1 E2 E3. unfold after_get.
        destruct (supported_protocol _).
        - destruct (gotTimeout o) as [t|]; [destruct (t =? 0)%Z|]; auto.
        - unfold events in *. fields. rewrite map_app, filter_app, E1. auto. }
      assert (Herr : forall req err u x,
                filter is_redirect_event (events x) = [] ->
                redirectCount x = 0 -> redirectUrl x = None ->
                filter is_redirect_event (events (after_error req err u x)) = []
                /\ redirectCount (after_error req err u x) = 0
                /\ redirectUrl (after_error req err u x) = None).
      { intros req err u x E1 E2 E3. unfold after_error.
        destruct (truthy_num _); unfold events in *; fields; auto.
        rewrite map_app, filter_app, E1. auto. }
      destruct S.
      + unfold after_task, events in *. fields.
        rewrite map_app, filter_app, He. destruct t; auto.
      + apply Hget; assumption.
      + destruct (take_req_forall _ _ _ _ H H1) as [Hq _].
        unfold after_response. rewrite (Hfol _ status h Hq). auto.
      + apply Herr; assumption.
      + apply Herr; assumption.
    - apply start_listening.
    - split; [apply start_known; repeat split|].
      rewrite start_eq. unfold after_get.
      destruct (supported_protocol _).
      + destruct (gotTimeout opts) as [t|]; [destruct (t =? 0)%Z|];
          repeat split.
      + repeat split. }
  destruct H as [((_ & _ & _ & _ & H5) & He & Hc & Hu) _].
  repeat split; auto.
  intros req Hin. rewrite Forall_forall in H5. specialize (H5 _ Hin).
  cbn in H5. inversion H5 as [|? ? (_ & _ & Ht) _]. exact Ht.
Qed.

(** *** The responses *)

Lemma events_emit (Q : Event -> Prop) w e :
  Q (em_event e) -> Forall Q (events w) ->
  Forall Q (events (set_emitted w (emitted w ++ [e]))).
Proof.
  intros He Hw. unfold events in *. fields. rewrite map_app.
  now apply Forall_snoc.
Qed.

Lemma after_get_events (Q : Event -> Prop) opts w :
  Q (EvError (new_UnsupportedProtocolError opts) None) ->
  Forall Q (events w) -> Forall Q (events (after_get opts w)).
Proof.
  intros HQ Hw. unfold after_get. destruct (supported_protocol _).
  - destruct (gotTimeout opts) as [t|]; [destruct (t =? 0)%Z|]; exact Hw.
  - apply events_emit; [apply HQ | exact Hw].
Qed.

Lemma after_error_events (Q : Event -> Prop) req err u w :
  Q (EvError (new_RequestError err (req_opts req)) None) ->
  Forall Q (events w) -> Forall Q (events (after_error req err u w)).
Proof.
  intros HQ Hw. unfold after_error. destruct (truthy_num _); [exact Hw|].
  apply (events_emit Q (set_retryCount _ _)); [apply HQ | exact Hw].
Qed.

(** X14. The requested URL is fixed when the logical request starts, and
    redirects and retries never change it: in every run of the host each
    [response] event and each [redirect] event carries it as
    [requestUrl]. *)
Theorem responses_carry_the_requested_url
        (opts : Opts) (sched : list Label) (w : World) :
  run (start opts) sched = Some w ->
  let requested := or_str (href opts)
                     (url_resolve (url_format (target opts)) (path opts)) in
  requestUrl w = requested
  /\ (forall res, In (EvResponse res) (events w) ->
                  res_requestUrl res = requested)
  /\ (forall res redirectOpts,
        In (EvRedirect res redirectOpts) (events w) ->
        res_requestUrl res = requested).
Proof.
  intros Hrun R.
  set (T := fun t => match t with
                     | EmitResponse _ res => res_requestUrl res = R
                     | EmitRequest _ => True
                     end).
  set (Q := fun ev => match ev with
                      | EvResponse res | EvRedirect res _ =>
                          res_requestUrl res = R
                      | _ => True
                      end).
  assert (H : (requestUrl w = R /\ Forall T (immediates w)
               /\ Forall Q (events w)) /\ listening w = true).
  { revert Hrun.
    apply (run_ind_listening
             (fun w => requestUrl w = R /\ Forall T (immediates w)
                       /\ Forall Q (events w))).
    - intros w0 l w1 L (HR & HT & HQ) S.
      assert (Hget : forall o x,
                requestUrl x = R -> Forall T (immediates x) ->
                Forall Q (events x) ->
                requestUrl (after_get o x) = R
                /\ Forall T (immediates (after_get o x))
                /\ Forall Q (events (after_get o x))).
      { intros o x E1 E2 E3. split; [|split].
        - unfold after_get. destruct (supported_protocol _); [|exact E1].
          destruct (gotTimeout o) as [t|]; [destruct (t =? 0)%Z|]; exact E1.
        - unfold after_get. destruct (supported_protocol _); [|exact E2].
          destruct (gotTimeout o) as [t|]; [destruct (t =? 0)%Z|]; fields;
            (apply Forall_snoc; [exact E2 | exact I]).
        - apply after_get_events; [exact I | exact E3]. }
      assert (Herr : forall req err u x,
                requestUrl x = R -> Forall T (immediates x) ->
                Forall Q (events x) ->
                requestUrl (after_error req err u x) = R
                /\ Forall T (immediates (after_error req err u x))
                /\ Forall Q (events (after_error req err u x))).
      { intros req err u x E1 E2 E3. split; [|split].
        - unfold after_error. destruct (truthy_num _); exact E1.
        - unfold after_error. destruct (truthy_num _); exact E2.
        - apply after_error_events; [exact I | exact E3]. }
      destruct S.
      + rewrite H in HT. inversion HT as [|? ? Ht Hrest]; subst.
        unfold after_task. split; [exact HR|]. split; [exact Hrest|].
        apply (events_emit Q (set_immediates w0 rest)); [|exact HQ].
        destruct t; [exact I | exact Ht].
      + apply Hget; assumption.
      + unfold after_response. destruct (follows _ _ _).
        * destruct (_ >? 10).
          -- split; [exact HR|]. split; [exact HT|].
             apply (events_emit Q (set_redirectCount _ _)); [exact I|exact HQ].
          -- apply Hget; [exact HR | exact HT |].
             apply (events_emit Q (set_redirectUrl (set_redirectCount _ _) _));
               [exact HR | exact HQ].
        * split; [exact HR|]. split; [|exact HQ]. fields.
          apply Forall_snoc; [exact HT | exact HR].
      + apply Herr; assumption.
      + apply Herr; assumption.
    - apply start_listening.
    - rewrite start_eq. unfold after_get.
      destruct (supported_protocol _).
      + destruct (gotTimeout opts) as [t|]; [destruct (t =? 0)%Z|];
          repeat split; repeat constructor.
      + repeat split; repeat constructor. }
  destruct H as [(HR & _ & HQ) _]. rewrite Forall_forall in HQ.
  split; [exact HR|]. split.
  - intros res Hin. exact (HQ _ Hin).
  - intros res ro Hin. exact (HQ _ Hin).
Qed.

(** X15. The response the engine publishes is the decompressed one unless
    the request method is HEAD - for the first attempt as for the attempts
    after redirects and retries, which keep the method. *)
Theorem head_responses_are_not_decompressed
        (opts : Opts) (sched : list Label) (w : World) (res : Response) :
  run (start opts) sched = Some w ->
  In (EvResponse res) (events w) ->
  res_decompressed res
  = negb (toUpperCase (or_str (method opts) "GET") =? "HEAD").
Proof.
  intros Hrun Hin.
  set (D := negb (toUpperCase (or_str (method opts) "GET") =? "HEAD")).
  set (Pr := fun o => method o = method opts).
  set (Q := fun ev => match ev with
                      | EvResponse res => res_decompressed res = D
                      | _ => True
                      end).
  assert (H : (known Pr w /\ Forall Q (events w)) /\ listening w = true).
  { revert Hrun.
    apply (run_ind_listening (fun w => known Pr w /\ Forall Q (events w))).
    - intros w0 l w1 L (K & HQ) S.
      split; [eapply steps_to_known; [|exact S|exact K];
              intros o _ h Ho _; exact Ho|].
      pose proof K as (H1 & H2 & H3 & H4 & H5).
      destruct S.
      + rewrite H in H4. inversion H4 as [|? ? Ht Hrest]; subst.
        unfold after_task.
        apply (events_emit Q (set_immediates w0 rest)); [|exact HQ].
        destruct t as [rq|rq rs]; [exact I|].
        cbn. unfold req_method, D. cbn in Ht. unfold Pr in Ht.
        now rewrite Ht.
      + apply after_get_events; [exact I | exact HQ].
      + unfold after_response. destruct (follows _ _ _); [|exact HQ].
        destruct (_ >? 10).
        * apply (events_emit Q (set_redirectCount _ _)); [exact I|exact HQ].
        * apply after_get_events; [exact I|].
          apply (events_emit Q (set_redirectUrl (set_redirectCount _ _) _));
            [exact I | exact HQ].
      + apply after_error_events; [exact I | exact HQ].
      + apply after_error_events; [exact I | exact HQ].
    - apply start_listening.
    - split; [apply start_known; reflexivity|].
      rewrite start_eq.
      change (Forall Q (events (after_get opts (new_world opts)))).
      apply after_get_events; [exact I | constructor]. }
  destruct H as [(_ & HQ) _]. rewrite Forall_forall in HQ.
  exact (HQ _ Hin).
Qed.

(** *** The errors *)

(** X16. The engine publishes three kinds of [error] events and no other:
    a [RequestError] and an [UnsupportedProtocolError] come without response
    and without status code; a [MaxRedirectsError] comes with the redirect
    response that was one too many and carries its status code. Each
    names the method of the logical request. *)
Theorem engine_errors
        (opts : Opts) (sched : list Label) (w : World)
        (err : JsError) (res : option Response) :
  run (start opts) sched = Some w ->
  In (EvError err res) (events w) ->
  e_method err = method opts
  /\ ((e_name err = RequestError /\ res = None /\ e_statusCode err = None)
      \/ (e_name err = UnsupportedProtocolError /\ res = None
          /\ e_statusCode err = None)
      \/ (e_name err = MaxRedirectsError
          /\ exists r, res = Some r
                       /\ e_statusCode err = Some (statusCode r)
                       /\ isRedirect (statusCode r) = true)).
Proof.
  intros Hrun Hin.
  set (Pr := fun o => method o = method opts).
  set (Q := fun ev =>
              match ev with
              | EvError err res =>
                  e_method err = method opts
                  /\ ((e_name err = RequestError /\ res = None
                       /\ e_statusCode err = None)
                      \/ (e_name err = UnsupportedProtocolError /\ res = None
                          /\ e_statusCode err = None)
                      \/ (e_name err = MaxRedirectsError
                          /\ exists r, res = Some r
                                       /\ e_statusCode err = Some (statusCode r)
                                       /\ isRedirect (statusCode r) = true))
              | _ => True
              end).
  assert (Hunsup : forall o, Pr o ->
                             Q (EvError (new_UnsupportedProtocolError o) None)).
  { intros o Ho. split; [exact Ho|]. right. left. repeat split. }
  assert (Hreq : forall o e, Pr o -> Q (EvError (new_RequestError e o) None)).
  { intros o e Ho. split; [exact Ho|]. left. repeat split. }
  assert (H : (known Pr w /\ Forall Q (events w)) /\ listening w = true).
  { revert Hrun.
    apply (run_ind_listening (fun w => known Pr w /\ Forall Q (events w))).
    - intros w0 l w1 L (K & HQ) S.
      split; [eapply steps_to_known; [|exact S|exact K];
              intros o _ h Ho _; exact Ho|].
      pose proof K as (H1 & H2 & H3 & H4 & H5).
      destruct S.
      + unfold after_task.
        apply (events_emit Q (set_immediates w0 rest)); [|exact HQ].
        destruct t; exact I.
      + destruct (take_nth_forall _ _ _ _ H H3) as [Ht _].
        apply after_get_events; [now apply Hunsup | exact HQ].
      + destruct (take_req_forall _ _ _ _ H H1) as [Hq _].
        unfold after_response. destruct (follows _ _ _) eqn:Ef; [|exact HQ].
        destruct (_ >? 10).
        * apply (events_emit Q (set_redirectCount _ _)); [|exact HQ].
          split; [exact Hq|]. right. right. split; [reflexivity|].
          eexists. split; [reflexivity|]. split; [reflexivity|].
          unfold follows in Ef. cbn [statusCode response_of].
          destruct (isRedirect status); [reflexivity | discriminate].
        * apply after_get_events; [now apply Hunsup|].
          apply (events_emit Q (set_redirectUrl (set_redirectCount _ _) _));
            [exact I | exact HQ].
      + destruct (take_req_forall _ _ _ _ H H1) as [Hq _].
        apply after_error_events; [now apply Hreq | exact HQ].
      + destruct (take_req_forall _ _ _ _ H H2) as [Hq _].
        apply after_error_events; [now apply Hreq | exact HQ].
    - apply start_listening.
    - split; [apply start_known; reflexivity|].
      rewrite start_eq.
      change (Forall Q (events (after_get opts (new_world opts)))).
      apply after_get_events; [now apply Hunsup | constructor]. }
  destruct H as [(_ & HQ) _]. rewrite Forall_forall in HQ.
  exact (HQ _ Hin).
Qed.

End Attempts.

(* ===================================================================== *)
(** ** The default retry policy and the attempts it grants *)
(* ===================================================================== *)

Lemma shl_one_bound iter : 1 <= Z.abs (shl 1 iter).
Proof.
  unfold shl. set (k := Z.land iter 31).
  assert (Hk : 0 <= k < 32).
  { unfold k. change 31 with (Z.ones 5). rewrite Z.land_ones by lia.
    change (2 ^ 5) with 32. apply Z.mod_pos_bound. lia. }
  rewrite (to_int32_small 1) by (change (2 ^ 31) with 2147483648; lia).
  assert (Hall : forallb (fun j => (1 <=? Z.abs (to_int32
                                                   (Z.shiftl 1 (Z.of_nat j))))%Z)
                         (seq 0 32) = true) by (vm_compute; reflexivity).
  rewrite forallb_forall in Hall.
  specialize (Hall (Z.to_nat k)). rewrite Z2Nat.id in Hall by lia.
  apply Z.leb_le. apply Hall. apply in_seq. lia.
Qed.

Section Policy.
Context {P : Platform}.

(** The delay of a retry the default policy grants is never 0, not even
    where the shift wraps: the stop sentinel means stop. *)
Lemma default_retries_truthy n iter err u :
  iter <= n -> isRetryAllowed err = true -> (0 <= u)%Q -> (u < 1)%Q ->
  truthy_num (default_retries n iter err u) = true.
Proof.
  intros Hle Ha Hu0 Hu1. unfold default_retries.
  replace (iter >? n) with false
    by (symmetry; rewrite Z.gtb_ltb; apply Z.ltb_ge; lia).
  rewrite Ha. cbn [negb orb].
  unfold truthy_num. destruct (Qeq_bool _ 0) eqn:E; [|reflexivity].
  apply Qeq_bool_iff in E. exfalso.
  pose proof (shl_one_bound iter) as Hb.
  set (s := shl 1 iter) in *.
  rewrite inject_Z_mult in E.
  assert (Hs : (inject_Z s <= inject_Z (-1))%Q \/ (inject_Z 1 <= inject_Z s)%Q).
  { destruct (Z_le_gt_dec 1 s); [right|left]; rewrite <- Zle_Qle; lia. }
  change (inject_Z 1000) with 1000%Q in E.
  change (inject_Z (-1)) with (-1)%Q in Hs.
  change (inject_Z 1) with 1%Q in Hs.
  destruct Hs; nra.
Qed.

(** X17. The default policy returns the stop sentinel exactly when the
    attempt number exceeds the configured count or [is-retry-allowed]
    refuses the error; every other call yields a delay that is not 0, for
    every attempt number. *)
Theorem default_retries_stops_iff
        (n iter : Z) (err : TransportError) (u : Q) :
  (0 <= u)%Q -> (u < 1)%Q ->
  truthy_num (default_retries n iter err u) = false
  <-> n < iter \/ isRetryAllowed err = false.
Proof.
  intros Hu0 Hu1. split.
  - intros Hz. destruct (Z_lt_le_dec n iter) as [Hlt|Hle]; [now left|].
    destruct (isRetryAllowed err) eqn:Ha; [|now right].
    rewrite default_retries_truthy in Hz by assumption. discriminate.
  - intros [Hlt|Ha]; unfold default_retries.
    + replace (iter >? n) with true by (symmetry; apply Z.gtb_lt; lia).
      reflexivity.
    + rewrite Ha, orb_true_r. reflexivity.
Qed.

End Policy.

Lemma default_retries_stops_iff_witness :
  (0 <= 1 # 2)%Q /\ (1 # 2 < 1)%Q
  /\ truthy_num (default_retries (P := Node.platform) 2 3 econnreset (1 # 2))
     = false
  /\ 2 < 3.
Proof.
  assert (H0 : (0 <= 1 # 2)%Q) by (unfold Qle; cbn; lia).
  assert (H1 : (1 # 2 < 1)%Q) by (unfold Qlt; cbn; lia).
  split; [exact H0|]. split; [exact H1|].
  split; [|lia].
  apply (proj2 (@default_retries_stops_iff Node.platform 2 3 econnreset
                  (1 # 2) H0 H1)).
  left. lia.
Defined.

Section Exhausted.
Context {P : Platform}.

Lemma after_get_answered opts w : answered (after_get opts w) = answered w.
Proof.
  unfold after_get. destruct (supported_protocol _); [|reflexivity].
  destruct (gotTimeout opts) as [t|]; [destruct (t =? 0)%Z|]; reflexivity.
Qed.

(** Once the request is settled the host can only publish the [request]
    events that are still queued. *)
Lemma run_settled sched : forall w w',
  listening w = true -> settled w -> run w sched = Some w' ->
  reports sched = []
  /\ terminal_events w' = terminal_events w /\ next_req w' = next_req w.
Proof.
  induction sched as [|l sched IH]; intros w w' L (Hi & Ha & Ht & Hm); simpl.
  - intros [= <-]; auto.
  - destruct (step w l) as [w1|] eqn:E; [|discriminate]. intros Hrun.
    apply step_steps_to in E; [|exact L].
    destruct E as [t rest Hh | k t rest Hh | r status h q rest Hh
                   | r err u q rest Hh | r err u q rest Hh].
    + rewrite Hh in Hm. inversion Hm as [|? ? Hp1 Hp2]; subst.
      destruct t as [rq|rq rs]; [|discriminate].
      destruct (IH (after_task (EmitRequest rq) (set_immediates w rest)) w')
        as (R1 & R2 & R3); auto.
      * repeat split; assumption.
      * split; [exact R1|]. split; [|exact R3].
        rewrite R2. unfold after_task. rewrite terminal_events_emit.
        unfold terminal_events, events. fields. apply app_nil_r.
    + apply take_nth_length in Hh. rewrite Ht in Hh. discriminate.
    + apply take_req_length in Hh. rewrite Hi in Hh. discriminate.
    + apply take_req_length in Hh. rewrite Hi in Hh. discriminate.
    + apply take_req_length in Hh. rewrite Ha in Hh. discriminate.
Qed.

Lemma take_nth_single {A} k (t x : A) rest :
  take_nth k [t] = Some (x, rest) -> x = t /\ rest = [].
Proof.
  destruct k as [|k]; cbn.
  - intros [= <- <-]; auto.
  - destruct k; discriminate.
Qed.

(** The rounds of failure and retry. *)
Lemma run_failing (o : Opts) (n : Z) sched : forall w k errs d w',
  supported_protocol (protocol o) = true ->
  retries o = default_retries n ->
  attempting o k w -> (k <= Z.to_nat n)%nat ->
  Forall random_draw sched ->
  reports sched = map Failed errs ->
  Forall (fun e => isRetryAllowed e = true) errs ->
  run w sched = Some w' -> quiescent w' ->
  (k + List.length errs = S (Z.to_nat n))%nat
  /\ next_req w' = S (Z.to_nat n)
  /\ terminal_events w' = [EvError (new_RequestError (last errs d) o) None].
Proof.
  induction sched as [|l sched IH];
    intros w k errs d w' Hs Hpol A Hk Hdraw Hrep Hall.
  - simpl. intros [= <-] (Qi & Qt & _).
    destruct A as (_ & _ & _ & _ & _ & [(Hi & _)|(_ & _ & d0 & Ht)]);
      congruence.
  - simpl. destruct (step w l) as [w1|] eqn:E; [|discriminate].
    intros Hrun Hq. destruct A as (L & Hrc & He & Ha & Him & Hphase).
    inversion Hdraw as [|? ? Hl Hdraw']; subst.
    apply step_steps_to in E; [|exact L].
    destruct E as [t rest Hh | j t rest Hh | r status h q rest Hh
                   | r err u q rest Hh | r err u q rest Hh].
    + (* an immediate publishes a request event *)
      rewrite Hh in Him. inversion Him as [|? ? Hp1 Hp2]; subst.
      destruct t as [rq|rq rs]; [|discriminate].
      apply (IH (after_task (EmitRequest rq) (set_immediates w rest))
                k errs d w'); auto.
      unfold attempting, after_task. rewrite terminal_events_emit.
      unfold terminal_events, events in *. fields. rewrite He.
      repeat split; auto.
    + (* the retry timer fires *)
      destruct Hphase as [(_ & Ht & _)|(Hi & Hn & d0 & Ht)].
      { apply take_nth_length in Hh. rewrite Ht in Hh. discriminate. }
      rewrite Ht in Hh. apply take_nth_single in Hh. destruct Hh as [-> ->].
      cbn [tm_opts] in Hrun.
      apply (IH (after_get o (set_timers w [])) k errs d w'); auto.
      destruct (after_get_supported o (set_timers w []) Hs)
        as (G1 & G2 & G3 & G4 & G5 & G6 & G7 & G8 & G9).
      destruct (after_get_counts o (set_timers w [])) as (_ & _ & _ & C4).
      pose proof (after_get_answered o (set_timers w [])) as C5.
      unfold attempting, terminal_events, events in *. fields.
      rewrite G4, G6, C4, C5, G3, G1, G2, G5, Hi, Hn.
      repeat split; auto.
      apply Forall_snoc; [exact Him | reflexivity].
    + (* no response in this schedule *)
      simpl in Hrep. destruct errs; discriminate.
    + (* the request fails *)
      destruct Hphase as [(Hi & Ht & Hn)|(Hi & _)].
      2: { apply take_req_length in Hh. rewrite Hi in Hh. discriminate. }
      rewrite Hi in Hh. apply take_req_single in Hh.
      destruct Hh as (-> & -> & Hid). cbn [req_id] in Hid. subst r.
      simpl in Hrep. destruct errs as [|err0 errs]; [discriminate|].
      cbn [map] in Hrep. injection Hrep as <- Hrep.
      inversion Hall as [|? ? Hallow Hall']; subst.
      cbn [random_draw] in Hl. destruct Hl as [Hu0 Hu1].
      unfold after_error in Hrun. cbn [req_opts req_id] in Hrun.
      fields. rewrite Hpol, Hrc in Hrun.
      destruct (Z_le_gt_dec (Z.of_nat k + 1) n) as [Hle|Hgt].
      * rewrite default_retries_truthy in Hrun by assumption.
        rewrite Ht in Hrun. cbn [app] in Hrun.
        match type of Hrun with
        | run ?x _ = _ =>
            destruct (IH x (S k) errs err w') as (R1 & R2 & R3); auto
        end.
        -- unfold attempting, terminal_events, events in *. fields.
           repeat split; auto; [lia|].
           right. repeat split; [exact Hn|]. eexists; reflexivity.
        -- lia.
        -- cbn [List.length]. rewrite last_cons.
           repeat split; [lia | exact R2 | exact R3].
      * assert (Hz : truthy_num (default_retries n (Z.of_nat k + 1) err u)
                     = false).
        { unfold default_retries.
          replace (Z.of_nat k + 1 >? n) with true
            by (symmetry; apply Z.gtb_lt; lia).
          reflexivity. }
        rewrite Hz in Hrun.
        match type of Hrun with
        | run ?x _ = _ =>
            destruct (run_settled sched x w') as (R1 & R2 & R3); auto
        end.
        { unfold settled. fields. repeat split; assumption. }
        rewrite R1 in Hrep. destruct errs; [|discriminate].
        rewrite R2, R3.
        unfold terminal_events, events in *. fields.
        rewrite map_app, filter_app, He, Hn.
        cbn. repeat split; f_equal; lia.
    + apply take_req_length in Hh. rewrite Ha in Hh. discriminate.
Qed.

Lemma start_attempting opts :
  supported_protocol (protocol opts) = true ->
  attempting opts O (start opts).
Proof.
  intros Hs. rewrite start_eq.
  destruct (after_get_supported opts (new_world opts) Hs)
    as (G1 & G2 & G3 & G4 & G5 & G6 & G7 & G8 & G9).
  destruct (after_get_counts opts (new_world opts)) as (_ & _ & _ & C4).
  pose proof (after_get_answered opts (new_world opts)) as C5.
  unfold attempting, terminal_events, events. fields.
  rewrite G4, C4, C5, G3, G1, G2, G5.
  repeat split.
  - constructor; [reflexivity | constructor].
  - left. repeat split.
Qed.

(** X18. With the default policy for [retries: n] and a transport that
    fails every attempt with an error that may be retried, a logical request
    makes exactly [n + 1] attempts (one when [n] is negative), each after the
    failure of the one before, and then ends with a single terminal event:
    a [RequestError] for the error of the last attempt. *)
Theorem retries_exhausted
        (opts : Opts) (n : Z) (errs : list TransportError)
        (d : TransportError) (sched : list Label) (w : World) :
  supported_protocol (protocol opts) = true ->
  retries opts = default_retries n ->
  Forall random_draw sched ->
  reports sched = map Failed errs ->
  Forall (fun e => isRetryAllowed e = true) errs ->
  run (start opts) sched = Some w ->
  quiescent w ->
  List.length errs = S (Z.to_nat n)
  /\ next_req w = S (Z.to_nat n)
  /\ terminal_events w = [EvError (new_RequestError (last errs d) opts) None].
Proof.
  intros Hs Hpol Hdraw Hrep Hall Hrun Hq.
  destruct (run_failing opts n sched (start opts) O errs d w Hs Hpol
              (start_attempting opts Hs) (Nat.le_0_l _) Hdraw Hrep Hall
              Hrun Hq) as (R1 & R2 & R3).
  auto.
Qed.

End Exhausted.

Lemma example_retries_stop : stops_after 2 (retries example_opts).
Proof.
  change (retries example_opts) with example_retries.
  rewrite example_retries_eq.
  apply (@default_retries_stops Node.platform 2).
Qed.

Lemma attempts_are_bounded_witness :
  0 <= 2
  /\ stops_after 2 (retries example_opts)
  /\ exists w,
      run (P := Node.platform) (start (P := Node.platform) example_opts)
          old_to_new = Some w
      /\ Z.of_nat (next_req w) <= 13.
Proof.
  split; [lia|]. split; [exact example_retries_stop|].
  eexists. split; [vm_compute; reflexivity|].
  match goal with
  | |- Z.of_nat (next_req ?W) <= _ =>
      apply (@attempts_are_bounded Node.platform example_opts 2 old_to_new W)
  end.
  - lia.
  - exact example_retries_stop.
  - vm_compute; reflexivity.
Defined.

Lemma retries_exhausted_witness :
  exists w,
    run (P := Node.platform) (start (P := Node.platform) default_opts)
        three_failures = Some w
    /\ quiescent w
    /\ next_req w = 3%nat
    /\ map error_name (terminal_events w) = [Some RequestError].
Proof.
  assert (Q : match run (P := Node.platform)
                        (start (P := Node.platform) default_opts)
                        three_failures with
              | Some w => quiescent w
              | None => False
              end) by (vm_compute; repeat split).
  destruct (run (P := Node.platform) (start (P := Node.platform) default_opts)
                three_failures) as [w|] eqn:R; [|contradiction].
  exists w. split; [reflexivity|]. split; [exact Q|].
  destruct (@retries_exhausted Node.platform default_opts 2
              [econnreset; econnreset; econnreset] econnreset
              three_failures w) as (_ & Hn & Ht).
  - reflexivity.
  - reflexivity.
  - repeat constructor; unfold Qle, Qlt; cbn; lia.
  - reflexivity.
  - repeat constructor.
  - exact R.
  - exact Q.
  - split; [exact Hn|]. rewrite Ht. reflexivity.
Defined.

Lemma options_survive_redirects_and_retries_witness :
  exists w,
    run (P := Node.platform) (start (P := Node.platform) example_opts)
        old_to_new = Some w
    /\ List.length (filter is_request (events w)) = 2%nat
    /\ forall req, In (EvRequest req) (events w) ->
                   same_options example_opts (req_opts req).
Proof.
  eexists. split; [vm_compute; reflexivity|].
  split; [vm_compute; reflexivity|].
  match goal with
  | |- forall req, In _ (events ?W) -> _ =>
      refine (proj1 (@options_survive_redirects_and_retries Node.platform
                       example_opts old_to_new W _))
  end.
  vm_compute; reflexivity.
Defined.

Lemma every_attempt_gets_the_timeout_witness :
  exists w,
    run (P := Node.platform) (start (P := Node.platform) timeout_opts)
        old_to_new = Some w
    /\ deadlines w = [(O, 5000); (1%nat, 5000)].
Proof.
  eexists. split; [vm_compute; reflexivity|].
  match goal with
  | |- deadlines ?W = _ =>
      rewrite (proj1 (@every_attempt_gets_the_timeout Node.platform
                        timeout_opts old_to_new W ltac:(vm_compute; reflexivity)))
  end.
  vm_compute; reflexivity.
Defined.

Lemma one_attempt_at_a_time_witness :
  prompt_schedule old_to_new
  /\ exists w,
      run (P := Node.platform) (start (P := Node.platform) example_opts)
          old_to_new = Some w
      /\ (List.length (inflight w) + List.length (timers w) <= 1)%nat.
Proof.
  assert (Hp : prompt_schedule old_to_new) by reflexivity.
  split; [exact Hp|].
  eexists. split; [vm_compute; reflexivity|].
  match goal with
  | |- (List.length (inflight ?W) + _ <= 1)%nat =>
      refine (proj1 (@one_attempt_at_a_time Node.platform example_opts
                       old_to_new W Hp _))
  end.
  vm_compute; reflexivity.
Defined.

Lemma redirect_to_unsupported_protocol_witness :
  let w := start (P := Node.platform) example_opts in
  let h := [("location", "ftp://example.test/file")] in
  take_req O (inflight w) = Some ({| req_id := O; req_opts := example_opts |}, [])
  /\ follows (P := Node.platform) example_opts 302 h = true
  /\ supported_protocol
       (u_protocol (url_parse (Platform := Node.platform)
                      (redirect_target (P := Node.platform) example_opts h)))
     = false
  /\ exists w',
      step (P := Node.platform) w (Respond O 302 h) = Some w'
      /\ map error_name (events w') = [None; Some UnsupportedProtocolError]
      /\ next_req w' = 1%nat.
Proof.
  intros w h.
  split; [reflexivity|]. split; [reflexivity|]. split; [reflexivity|].
  destruct (@redirect_to_unsupported_protocol Node.platform w O 302 h
              {| req_id := O; req_opts := example_opts |} [])
    as (w' & Hs & He & _ & Hn & _); try reflexivity.
  - replace (redirectCount w) with 0 by (vm_compute; reflexivity). lia.
  - exists w'. split; [exact Hs|]. rewrite He, Hn. split; reflexivity.
Defined.

Lemma no_redirect_unless_get_or_head_witness :
  let sched := [RunImmediate; Respond O 302 [("location", "/new")];
                RunImmediate] in
  method post_opts <> "GET" /\ method post_opts <> "HEAD"
  /\ exists w,
      run (P := Node.platform) (start (P := Node.platform) post_opts) sched
      = Some w
      /\ map event_mark (events w) = [MRequest O; MResponse O]
      /\ filter is_redirect_event (events w) = [].
Proof.
  intros sched.
  assert (Hm : method post_opts <> "GET" /\ method post_opts <> "HEAD")
    by (split; discriminate).
  split; [apply Hm|]. split; [apply Hm|].
  eexists. split; [vm_compute; reflexivity|].
  split; [vm_compute; reflexivity|].
  match goal with
  | |- filter _ (events ?W) = _ =>
      refine (proj1 (@no_redirect_unless_get_or_head Node.platform post_opts
                       sched W (or_introl Hm) _))
  end.
  vm_compute; reflexivity.
Defined.

Lemma responses_carry_the_requested_url_witness :
  exists w,
    run (P := Node.platform) (start (P := Node.platform) example_opts)
        old_to_new = Some w
    /\ map event_mark (events w)
       = [MRequest O; MOther; MRequest 1%nat; MResponse 1%nat]
    /\ forall res, In (EvResponse res) (events w) ->
                   res_requestUrl res = "http://example.test/old".
Proof.
  eexists. split; [vm_compute; reflexivity|].
  split; [vm_compute; reflexivity|].
  match goal with
  | |- forall res, In _ (events ?W) -> _ =>
      refine (proj1 (proj2 (@responses_carry_the_requested_url Node.platform
                              example_opts old_to_new W _)))
  end.
  vm_compute; reflexivity.
Defined.

Lemma head_responses_are_not_decompressed_witness :
  exists w,
    run (P := Node.platform) (start (P := Node.platform) example_opts)
        [RunImmediate; Respond O 200 []; RunImmediate] = Some w
    /\ map event_mark (events w) = [MRequest O; MResponse O]
    /\ forall res, In (EvResponse res) (events w) ->
                   res_decompressed res = true.
Proof.
  eexists. split; [vm_compute; reflexivity|].
  split; [vm_compute; reflexivity|].
  intros res Hin.
  match type of Hin with
  | In _ (events ?W) =>
      rewrite (@head_responses_are_not_decompressed Node.platform example_opts
                 [RunImmediate; Respond O 200 []; RunImmediate] W res)
  end.
  - reflexivity.
  - vm_compute; reflexivity.
  - exact Hin.
Defined.

Lemma engine_errors_witness :
  exists w err,
    run (P := Node.platform) (start (P := Node.platform) no_retry_opts)
        [Fail O econnreset 0%Q; RunImmediate] = Some w
    /\ In (EvError err None) (events w)
    /\ e_method err = "GET"
    /\ e_name err = RequestError.
Proof.
  eexists. eexists. split; [vm_compute; reflexivity|].
  split; [left; reflexivity|].
  match goal with
  | |- e_method ?E = _ /\ _ =>
      destruct (@engine_errors Node.platform no_retry_opts
                  [Fail O econnreset 0%Q; RunImmediate] _ E None
                  ltac:(vm_compute; reflexivity)
                  ltac:(left; reflexivity)) as [Hm _]
  end.
  split; [exact Hm | reflexivity].
Defined.

(* ===================================================================== *)
(** ** The adapters *)
(* ===================================================================== *)

Section Adapters.
Context {P : Platform}.

(** *** The buffered adapter *)

Lemma asPromise_initial opts :
  opts_body (fst (asPromise opts)) = body opts
  /\ wired (fst (asPromise opts)) = [].
Proof.
  unfold asPromise. destruct (requestAsEventEmitter opts) as [[u|e] w];
    split; reflexivity.
Qed.

Lemma buffered_fold_wirings opts drain evs : forall st,
  map snd (wired (fold_left (buffered_listener opts drain) evs st))
  = (map snd (wired st)
     ++ buffered_wirings (opts_body st) (request_count evs))%list.
Proof.
  unfold request_count.
  induction evs as [|ev evs IH]; intros st.
  - cbn. destruct (opts_body st) as [[]|]; cbn; now rewrite app_nil_r.
  - cbn [fold_left]. rewrite IH.
    destruct ev as [req|res|res ro|err res];
      cbn [buffered_listener opts_body wired filter is_request]; auto.
    cbn [List.length]. rewrite map_app. cbn [map snd].
    rewrite <- app_assoc. f_equal.
    destruct (opts_body st) as [[s|s|bd|obj|]|]; reflexivity.
Qed.

(** X19. In buffered mode a body that is a stream is piped into the first
    request of the logical request and [opts.body] is cleared: every later
    request - after a redirect or for a retry - is ended with no body at
    all. A body of any other kind, or none, is passed to [req.end] for each
    request. *)
Theorem stream_body_is_piped_once
        (opts : Opts) (drain : ReqId -> Drain) (evs : list Event) :
  map snd (wired (fold_left (buffered_listener opts drain) evs
                            (fst (asPromise opts))))
  = buffered_wirings (body opts) (request_count evs).
Proof.
  rewrite buffered_fold_wirings.
  destruct (asPromise_initial opts) as [-> ->]. reflexivity.
Qed.

Lemma on_response_buffered_settles opts res d :
  on_response_buffered opts res d Pending <> Pending.
Proof.
  unfold on_response_buffered.
  destruct (check_response opts res _) as [env [e|]]; destruct d; discriminate.
Qed.

Lemma on_response_buffered_settled opts res d p :
  p <> Pending -> on_response_buffered opts res d p = p.
Proof.
  intros Hp. unfold on_response_buffered.
  destruct (check_response opts res _) as [env [e|]];
    destruct d, p; try reflexivity; contradiction.
Qed.

Lemma promise_fold opts drain evs : forall st,
  promise (fold_left (buffered_listener opts drain) evs st)
  = match promise st with
    | Pending =>
        match filter is_terminal evs with
        | [] => Pending
        | ev :: _ => settle opts drain ev
        end
    | p => p
    end.
Proof.
  induction evs as [|ev evs IH]; intros st.
  - cbn. now destruct (promise st).
  - cbn [fold_left]. rewrite IH.
    destruct ev as [req|res|res ro|err res];
      cbn [buffered_listener promise filter is_terminal settle]; auto.
    + destruct (promise st) eqn:Ep.
      * pose proof (on_response_buffered_settles opts res (drain (res_req res))).
        destruct (on_response_buffered opts res (drain (res_req res)) Pending);
          [contradiction | reflexivity | reflexivity].
      * rewrite on_response_buffered_settled by discriminate. reflexivity.
      * rewrite on_response_buffered_settled by discriminate. reflexivity.
    + destruct (promise st); reflexivity.
Qed.

(** X20. The promise of the buffered adapter follows the terminal event of
    the engine: [request] and [redirect] events leave it pending, the one
    [response] or [error] event settles it - an [error] event rejects it
    with the error of the event, a [response] event settles it as the
    response listener decides - and once it is settled no event changes
    it. *)
Theorem promise_follows_the_terminal_event
        (opts : Opts) (drain : ReqId -> Drain) (evs : list Event)
        (st : Buffered) :
  let st' := fold_left (buffered_listener opts drain) evs st in
  (promise st <> Pending -> promise st' = promise st)
  /\ (promise st = Pending -> filter is_terminal evs = [] ->
      promise st' = Pending)
  /\ (forall ev, promise st = Pending -> filter is_terminal evs = [ev] ->
                 promise st' = settle opts drain ev
                 /\ promise st' <> Pending).
Proof.
  intros st'. unfold st'. rewrite promise_fold. split; [|split].
  - intros Hp. destruct (promise st); [contradiction | reflexivity..].
  - intros -> ->. reflexivity.
  - intros ev Hp Hf.
    assert (Hterm : is_terminal ev = true).
    { assert (Hin : In ev (filter is_terminal evs))
        by (rewrite Hf; now left).
      apply filter_In in Hin. apply Hin. }
    rewrite Hp, Hf. split; [reflexivity|].
    destruct ev as [req|res|res ro|err res]; cbn [settle];
      try discriminate Hterm.
    + apply on_response_buffered_settles.
    + discriminate.
Qed.

(** X21. When reading the body of a response fails, the promise is
    rejected with a [ReadError] that carries the code and message of the
    failure, whatever the status code and whether or not JSON was asked for;
    unlike the other rejections it has no response attached. *)
Theorem failed_read_rejects_with_ReadError
        (opts : Opts) (res : Response) (err : TransportError) :
  on_response_buffered opts res (DrainFailed err) Pending
  = Rejected (new_ReadError err opts)
  /\ e_name (new_ReadError err opts) = ReadError
  /\ e_code (new_ReadError err opts) = te_code err
  /\ e_message (new_ReadError err opts) = te_message err
  /\ e_response (new_ReadError err opts) = None.
Proof.
  split; [|repeat split].
  unfold on_response_buffered.
  destruct (check_response opts res BodyUndefined) as [env [e|]]; reflexivity.
Qed.

Lemma body_text_drained opts data :
  body_text (drained_value opts data) = data.
Proof. unfold drained_value. destruct (encoding opts) as [[]|]; reflexivity. Qed.

Lemma substring_length n s :
  (String.length (String.substring 0 n s) <= n)%nat.
Proof.
  revert s; induction n as [|n IH]; intros s.
  - destruct s; cbn; lia.
  - destruct s as [|c s]; cbn; [lia|]. specialize (IH s). lia.
Qed.

(** X22. With JSON decoding, a body that is not empty and does not parse
    rejects the promise with a [ParseError], whatever the status code: the
    parse comes before the status check. The error carries the status code,
    quotes at most the first 77 characters of the body in its message, and
    has the response attached with the body as it was read. *)
Theorem parse_error_precedes_status
        (opts : Opts) (res : Response) (data : string) :
  json opts = true ->
  data <> "" ->
  json_parse data = None ->
  let err := new_ParseError (json_parse_message data) (statusCode res)
                            opts data in
  (exists env,
      on_response_buffered opts res (Drained data) Pending
      = Rejected (define_response err env)
      /\ env_res env = res
      /\ body_text (env_body env) = data)
  /\ e_name err = ParseError
  /\ e_statusCode err = Some (statusCode res)
  /\ (String.length (slice77 data) <= 77)%nat.
Proof.
  intros Hj Hd Hp err. split; [|repeat split; apply substring_length].
  assert (Ht : truthy_body (drained_value opts data) = true).
  { unfold drained_value.
    destruct (encoding opts) as [[|s]|]; cbn [truthy_body]; try reflexivity;
      unfold truthy_str; destruct (String.eqb_spec data "");
      try contradiction; reflexivity. }
  exists {| env_res := res; env_body := drained_value opts data |}.
  split; [|split; [reflexivity | apply body_text_drained]].
  unfold on_response_buffered, check_response.
  rewrite Hj, Ht, body_text_drained, Hp. reflexivity.
Qed.

(** X23. An empty body with JSON decoding: read as text, with the default
    encoding, it is falsy, the parse is skipped and for a status from 200 to
    299 the promise resolves with the empty string as body; read as a buffer
    ([encoding: null]) it is truthy, goes to [JSON.parse], which refuses the
    empty input, and the promise is rejected with a [ParseError]. *)
Theorem empty_body_with_json (opts : Opts) (res : Response) :
  json opts = true ->
  200 <= statusCode res <= 299 ->
  (encoding opts = None ->
   on_response_buffered opts res (Drained "") Pending
   = Resolved {| env_res := res; env_body := BodyText "" |})
  /\ (encoding opts = Some EncNull ->
      json_parse "" = None ->
      exists e,
        on_response_buffered opts res (Drained "") Pending = Rejected e
        /\ e_name e = ParseError).
Proof.
  intros Hj Hc. split.
  - intros He. unfold on_response_buffered, check_response, drained_value.
    rewrite Hj, He.
    assert (Hlim : negb (statusCode res =? 304)%Z
                   && ((statusCode res <? 200)
                       || (statusCode res >? (if followRedirect opts
                                              then 299 else 399)))%Z = false).
    { apply andb_false_intro2. apply orb_false_intro.
      - apply Z.ltb_ge; lia.
      - rewrite Z.gtb_ltb. apply Z.ltb_ge.
        destruct (followRedirect opts); lia. }
    cbn [truthy_body truthy_str String.eqb negb andb]. rewrite Hlim.
    reflexivity.
  - intros He Hp. unfold on_response_buffered, check_response, drained_value.
    rewrite Hj, He. cbn [truthy_body andb body_text]. rewrite Hp.
    eexists. split; reflexivity.
Qed.

(** *** The streaming adapter *)

(** X24. In streaming mode every [response] event of the engine gives one
    event on the duplex: [response] for status 304 and for 200 to 299, and
    otherwise [error] with an [HTTPError] for the status code and the
    response as its third argument. The limit is 299 whatever
    [followRedirect] says: a redirect that is not followed is an error
    here. *)
Theorem stream_status_validation
        (opts : Opts) (res : Response) (d : Duplex) :
  let code := statusCode res in
  let d' := stream_listener opts d (EvResponse res) in
  (code = 304 \/ 200 <= code <= 299 ->
   proxy_emitted d' = (proxy_emitted d ++ [EvResponse res])%list)
  /\ (code <> 304 -> code < 200 \/ 299 < code ->
      proxy_emitted d'
      = (proxy_emitted d
         ++ [EvError (new_HTTPError code opts) (Some res)])%list
      /\ e_name (new_HTTPError code opts) = HTTPError
      /\ e_statusCode (new_HTTPError code opts) = Some code).
Proof.
  intros code d'. unfold d'. cbn [stream_listener proxy_emitted].
  unfold on_response_stream. fold code. split.
  - intros Hc.
    replace (negb (code =? 304)%Z && ((code <? 200) || (code >? 299))%Z)
      with false; [reflexivity|].
    symmetry. destruct Hc as [->|Hr]; [reflexivity|].
    apply andb_false_intro2. apply orb_false_intro.
    + apply Z.ltb_ge; lia.
    + rewrite Z.gtb_ltb. apply Z.ltb_ge; lia.
  - intros Hn Hout.
    replace (negb (code =? 304)%Z && ((code <? 200) || (code >? 299))%Z)
      with true; [repeat split|].
    symmetry. apply andb_true_intro. split.
    + apply negb_true_iff. apply Z.eqb_neq. exact Hn.
    + apply orb_true_intro. destruct Hout as [Hl|Hg].
      * left. apply Z.ltb_lt. exact Hl.
      * right. apply Z.gtb_lt. exact Hg.
Qed.

(** X25. Whenever [asStream] returns a duplex, the descriptor has no JSON
    decoding and a supported protocol - with [json] set, or with another
    protocol, it throws. The duplex returned has emitted nothing and has
    wired no request yet, its [write] is replaced by the function that
    throws exactly when [opts.body] is truthy, the first request has been
    handed to the transport, the engine has published nothing, and the
    listeners are attached. *)
Theorem stream_is_returned_only_if
        (opts : Opts) (d : Duplex) (ow : option World) :
  asStream opts = (Normal d, ow) ->
  json opts = false
  /\ supported_protocol (protocol opts) = true
  /\ ow = Some (start opts)
  /\ proxy_emitted d = []
  /\ proxy_wired d = []
  /\ write_disabled d = truthy_request_body (body opts)
  /\ events (start opts) = []
  /\ inflight (start opts) = [{| req_id := O; req_opts := opts |}]
  /\ listening (start opts) = true.
Proof.
  assert (Hsup : supported_protocol (protocol opts) = true ->
                 requestAsEventEmitter opts
                 = (Normal tt, after_get opts (new_world opts))
                 /\ events (start opts) = []
                 /\ inflight (start opts) = [{| req_id := O; req_opts := opts |}]).
  { intros Hs. rewrite start_eq.
    destruct (after_get_supported opts (new_world opts) Hs)
      as (G1 & G2 & G3 & G4 & _).
    unfold events. fields. rewrite G1, G4. split; [|split; reflexivity].
    unfold requestAsEventEmitter, get. rewrite Hs. cbn [negb].
    unfold after_get. rewrite Hs. unfold bind, fn_request, read, modify, ret,
      timedOut, setImmediate. cbn.
    destruct (gotTimeout opts) as [t|]; [destruct (t =? 0)%Z|]; reflexivity. }
  assert (Hunsup : supported_protocol (protocol opts) = false ->
                   is_throw (fst (requestAsEventEmitter opts)) = true).
  { intros Hs. unfold requestAsEventEmitter, get. rewrite Hs. reflexivity. }
  unfold asStream. destruct (json opts); [discriminate|].
  destruct (supported_protocol (protocol opts)) eqn:Hs.
  - destruct (Hsup eq_refl) as (Hr & He & Hi).
    assert (Hst : start opts = listen (after_get opts (new_world opts))).
    { unfold start. rewrite Hr. reflexivity. }
    rewrite Hr. intros [= <- <-].
    split; [reflexivity|]. split; [reflexivity|].
    split; [now rewrite Hst|].
    repeat split; assumption.
  - specialize (Hunsup eq_refl).
    destruct (requestAsEventEmitter opts) as [[u|e] w]; cbn in *;
      [discriminate Hunsup | discriminate].
Qed.

Lemma stream_fold_emitted opts evs : forall d,
  proxy_emitted (fold_left (stream_listener opts) evs d)
  = (proxy_emitted d ++ map (forwarded opts) evs)%list.
Proof.
  induction evs as [|ev evs IH]; intros d; cbn [fold_left map].
  - now rewrite app_nil_r.
  - rewrite IH. destruct ev; cbn [stream_listener proxy_emitted forwarded];
      now rewrite <- app_assoc.
Qed.

(** X26. The duplex mirrors the engine: after any run of the host it has
    emitted one event for each event of the engine, in the same order -
    [request], [redirect] and [error] events as they are, each [response]
    event as a [response] or, for a bad status, as an [HTTPError]. *)
Theorem duplex_mirrors_engine
        (opts : Opts) (sched : list Label) (d : Duplex) :
  stream_after opts sched = Some d ->
  exists w,
    run (start opts) sched = Some w
    /\ proxy_emitted d = map (forwarded opts) (events w).
Proof.
  unfold stream_after, asStream, start.
  destruct (json opts); [discriminate|].
  destruct (requestAsEventEmitter opts) as [[u|e] w0]; [|discriminate].
  cbn [snd]. destruct (run (listen w0) sched) as [w|] eqn:R; [|discriminate].
  intros [= <-]. exists w. split; [reflexivity|].
  rewrite stream_fold_emitted. reflexivity.
Qed.

End Adapters.

Lemma stream_body_is_piped_once_witness :
  let evs := [EvRequest {| req_id := O; req_opts := upload_opts |};
              EvRequest {| req_id := 1%nat; req_opts := upload_opts |}] in
  map snd (wired (fold_left (buffered_listener (P := Node.platform) upload_opts
                               (fun _ => Drained "ok")) evs
                            (fst (asPromise (P := Node.platform) upload_opts))))
  = [PipeBody; EndWith None].
Proof.
  intros evs.
  rewrite (@stream_body_is_piped_once Node.platform upload_opts
             (fun _ => Drained "ok") evs).
  reflexivity.
Defined.

Lemma promise_follows_the_terminal_event_witness :
  let st := {| promise := Pending; opts_body := None; wired := [] |} in
  let evs := [EvRequest {| req_id := O; req_opts := example_opts |};
              EvResponse (plain_response 200)] in
  promise st = Pending
  /\ filter is_terminal evs = [EvResponse (plain_response 200)]
  /\ promise (fold_left (buffered_listener (P := Node.platform) example_opts
                           (fun _ => Drained "ok")) evs st)
     = Resolved {| env_res := plain_response 200; env_body := BodyText "ok" |}.
Proof.
  intros st evs. split; [reflexivity|]. split; [reflexivity|].
  destruct (@promise_follows_the_terminal_event Node.platform example_opts
              (fun _ => Drained "ok") evs st) as (_ & _ & H).
  destruct (H (EvResponse (plain_response 200)) eq_refl eq_refl) as [-> _].
  reflexivity.
Defined.

Lemma stream_status_validation_witness :
  let d := {| proxy_emitted := []; proxy_wired := []; write_disabled := false |} in
  statusCode (plain_response 302) <> 304
  /\ 299 < statusCode (plain_response 302)
  /\ proxy_emitted (stream_listener (P := Node.platform) example_opts d
                      (EvResponse (plain_response 302)))
     = [EvError (new_HTTPError (P := Node.platform) 302 example_opts)
                (Some (plain_response 302))].
Proof.
  intros d.
  assert (Hn : statusCode (plain_response 302) <> 304) by discriminate.
  assert (Hg : 299 < statusCode (plain_response 302)) by (cbn; lia).
  split; [exact Hn|]. split; [exact Hg|].
  destruct (@stream_status_validation Node.platform example_opts
              (plain_response 302) d) as (_ & H).
  destruct (H Hn (or_intror Hg)) as (-> & _). reflexivity.
Defined.

Lemma stream_is_returned_only_if_witness :
  exists d ow,
    asStream (P := Node.platform) upload_opts = (Normal d, ow)
    /\ json upload_opts = false
    /\ supported_protocol (protocol upload_opts) = true
    /\ truthy_request_body (body upload_opts) = true
    /\ write_disabled d = true.
Proof.
  eexists. eexists.
  split; [vm_compute; reflexivity|].
  match goal with
  | |- _ /\ _ /\ _ /\ write_disabled ?D = _ =>
      destruct (@stream_is_returned_only_if Node.platform upload_opts D _
                  ltac:(vm_compute; reflexivity))
        as (Hj & Hs & _ & _ & _ & Hw & _)
  end.
  split; [exact Hj|]. split; [exact Hs|].
  split; [reflexivity|]. rewrite Hw. reflexivity.
Defined.

Lemma parse_error_precedes_status_witness :
  let opts := with_json example_opts true in
  json opts = true
  /\ "<html>" <> ""
  /\ json_parse (Platform := Node.platform) "<html>" = None
  /\ exists e,
      on_response_buffered (P := Node.platform) opts (plain_response 404)
        (Drained "<html>") Pending = Rejected e
      /\ e_name e = ParseError
      /\ e_statusCode e = Some 404.
Proof.
  intros opts.
  assert (Hd : "<html>" <> "") by discriminate.
  split; [reflexivity|]. split; [exact Hd|]. split; [reflexivity|].
  destruct (@parse_error_precedes_status Node.platform opts (plain_response 404)
              "<html>" eq_refl Hd eq_refl) as ((env & Hr & _) & Hn & Hc & _).
  eexists. split; [exact Hr|]. split; reflexivity.
Defined.

Lemma empty_body_with_json_witness :
  let opts := with_json example_opts true in
  json opts = true
  /\ 200 <= statusCode (plain_response 200) <= 299
  /\ encoding opts = None
  /\ on_response_buffered (P := Node.platform) opts (plain_response 200)
       (Drained "") Pending
     = Resolved {| env_res := plain_response 200; env_body := BodyText "" |}.
Proof.
  intros opts.
  assert (Hc : 200 <= statusCode (plain_response 200) <= 299) by (cbn; lia).
  split; [reflexivity|]. split; [exact Hc|]. split; [reflexivity|].
  exact (proj1 (@empty_body_with_json Node.platform opts (plain_response 200)
                  eq_refl Hc) eq_refl).
Defined.

Lemma duplex_mirrors_engine_witness :
  exists d,
    stream_after (P := Node.platform) example_opts old_to_new = Some d
    /\ map event_mark (proxy_emitted d)
       = [MRequest O; MOther; MRequest 1%nat; MResponse 1%nat]
    /\ exists w,
        run (P := Node.platform) (start (P := Node.platform) example_opts)
            old_to_new = Some w
        /\ proxy_emitted d = map (forwarded (P := Node.platform) example_opts)
                                 (events w).
Proof.
  eexists. split; [vm_compute; reflexivity|].
  split; [vm_compute; reflexivity|].
  match goal with
  | |- exists w, _ /\ proxy_emitted ?D = _ =>
      apply (@duplex_mirrors_engine Node.platform example_opts old_to_new D)
  end.
  vm_compute; reflexivity.
Defined.

(* ===================================================================== *)
(** ** From the options to the attempts *)
(* ===================================================================== *)

Section Composition.
Context {P : Platform}.

(** X27. A number given as [retries] - 2 when the URL is a string and the
    caller gives none - becomes the default policy for that number, and
    bounds the work of the logical request: whatever the transport does, the
    engine hands at most [11 + n] requests to it (11 when [n] is
    negative). *)
Theorem numeric_retries_bound_the_attempts
        (url : UrlArg) (opts g : UserOptions) (o : Opts) (n : Z)
        (sched : list Label) (w : World) :
  merged_options url opts = Some g ->
  normalizeArguments url opts = Normal o ->
  o_retries g = Some (RetryCount n) ->
  run (start o) sched = Some w ->
  retries o = default_retries n
  /\ Z.of_nat (next_req w) <= 11 + Z.max 0 n
  /\ (forall s, url = UrlString s -> o_retries opts = None -> n = 2).
Proof.
  intros Hg Hn Hr Hrun.
  destruct (normalize_policy _ _ _ Hn) as (g' & Hg' & Hpol).
  assert (g' = g) by congruence. subst g'. rewrite Hr in Hpol.
  split; [exact Hpol|]. split.
  - assert (Hstop : stops_after (Z.max 0 n) (retries o)).
    { rewrite Hpol. intros iter err u Hlt.
      apply (default_retries_stops n). lia. }
    pose proof (run_within_budget o (Z.max 0 n) sched w (Z.le_max_l 0 n)
                  Hstop Hrun) as B.
    unfold within_budget in B. lia.
  - intros s -> Hnone. unfold merged_options, check_url in Hg.
    destruct (truthy_str _); [discriminate|]. injection Hg as <-.
    cbn [merge_options options_assign o_retries with_url no_options opt_or]
      in Hr.
    rewrite Hnone in Hr. injection Hr as <-. reflexivity.
Qed.

Lemma normalize_timeout url opts o :
  normalizeArguments url opts = Normal o ->
  exists g,
    merged_options url opts = Some g
    /\ gotTimeout o = match o_timeout g with
                      | Some t => if (t =? 0)%Z then None else Some t
                      | None => None
                      end.
Proof.
  unfold normalizeArguments, merged_options.
  destruct (check_url url) as [uo|e]; [|discriminate].
  intros Hn. eexists. split; [reflexivity|].
  destruct (o_body (merge_options uo opts)) as [b|].
  - destruct (check_body _ b) as [[]|e]; [|discriminate].
    injection Hn as <-. reflexivity.
  - injection Hn as <-. reflexivity.
Qed.

(** X28. The [timeout] option reaches every attempt: for a timeout other
    than 0 each request the engine creates - first attempt, redirect or
    retry - is handed to [timedOut] with that timeout; a timeout of 0, like
    no timeout, means that [timedOut] is never called. *)
Theorem timeout_option_reaches_every_attempt
        (url : UrlArg) (opts g : UserOptions) (o : Opts)
        (sched : list Label) (w : World) :
  merged_options url opts = Some g ->
  normalizeArguments url opts = Normal o ->
  run (start o) sched = Some w ->
  deadlines w = deadlines_for (o_timeout g) (next_req w).
Proof.
  intros Hg Hn Hrun.
  destruct (normalize_timeout _ _ _ Hn) as (g' & Hg' & Ht).
  assert (g' = g) by congruence. subst g'.
  rewrite (run_deadlines o sched w Hrun), Ht. unfold deadlines_for.
  destruct (o_timeout g) as [t|]; [|reflexivity].
  destruct (t =? 0)%Z eqn:E; [reflexivity|]. now rewrite E.
Qed.

End Composition.

Lemma numeric_retries_bound_the_attempts_witness :
  let g := given "http://example.test/old" no_options in
  merged_options (P := Node.platform) example_url no_options = Some g
  /\ normalizeArguments (P := Node.platform) example_url no_options
     = Normal example_opts
  /\ o_retries g = Some (RetryCount 2)
  /\ exists w,
      run (P := Node.platform) (start (P := Node.platform) example_opts)
          old_to_new = Some w
      /\ Z.of_nat (next_req w) <= 13.
Proof.
  intros g.
  assert (Hg : merged_options (P := Node.platform) example_url no_options
               = Some g) by reflexivity.
  split; [exact Hg|]. split; [exact example_opts_normalized|].
  split; [reflexivity|].
  eexists. split; [vm_compute; reflexivity|].
  match goal with
  | |- Z.of_nat (next_req ?W) <= _ =>
      refine (proj1 (proj2 (@numeric_retries_bound_the_attempts Node.platform
                              example_url no_options g example_opts 2
                              old_to_new W
                              Hg example_opts_normalized eq_refl _)))
  end.
  vm_compute; reflexivity.
Defined.

Lemma timeout_opts_normalized :
  normalizeArguments (P := Node.platform) example_url timeout_options
  = Normal timeout_opts.
Proof.
  change timeout_opts
    with {| target := target example_opts; headers := headers example_opts;
            method := method example_opts; body := body example_opts;
            json := json example_opts; form := form example_opts;
            encoding := encoding example_opts;
            followRedirect := followRedirect example_opts;
            retries := example_retries; gotTimeout := Some 5000;
            socketPath := socketPath example_opts |}.
  rewrite example_retries_eq. normalizes.
Qed.

Lemma timeout_option_reaches_every_attempt_witness :
  let g := given "http://example.test/old" timeout_options in
  merged_options (P := Node.platform) example_url timeout_options = Some g
  /\ normalizeArguments (P := Node.platform) example_url timeout_options
     = Normal timeout_opts
  /\ exists w,
      run (P := Node.platform) (start (P := Node.platform) timeout_opts)
          old_to_new = Some w
      /\ deadlines w = [(O, 5000); (1%nat, 5000)].
Proof.
  intros g.
  assert (Hg : merged_options (P := Node.platform) example_url timeout_options
               = Some g) by reflexivity.
  split; [exact Hg|]. split; [exact timeout_opts_normalized|].
  eexists. split; [vm_compute; reflexivity|].
  match goal with
  | |- deadlines ?W = _ =>
      rewrite (@timeout_option_reaches_every_attempt Node.platform example_url
                 timeout_options g timeout_opts old_to_new W Hg
                 timeout_opts_normalized)
  end.
  - vm_compute; reflexivity.
  - vm_compute; reflexivity.
Defined.

